(** * SALMA loader: catalog, ranking and assignment of query sequences

    A shallow embedding of [src/loader.py] (functions [obtainHMMs],
    [getHMMSearchResults], [assignQueryToSubset]) and the properties
    of its three stages.

    Conventions of the embedding:
    - Python [int] values are [Z]; bit-scores are compared only, never
      computed with, so a finite score is represented by its exact
      rational value in [Q];
    - Python [str] is [string] (ASCII);
    - a Python [dict] is an insertion-ordered association list with
      pairwise distinct keys ([dict_set], [dict_append] keep them so);
    - a raised exception is the [Raise] branch of [result];
    - the file system and the shell are read through a [World]:
      what [os.popen(cmd).read()], [os.path.exists] and
      [eval(open(path).read())] answer. *)

From Stdlib Require Import List String Ascii ZArith QArith Bool Lia.
From Stdlib Require Import Permutation Sorted.
Import ListNotations.

Local Open Scope string_scope.
Local Open Scope Z_scope.
Local Open Scope list_scope.

(* ================================================================= *)
(** ** Exceptions *)

Inductive exn : Type :=
| AssertionError
| IndexError
| ValueError
| ReadError.   (* whatever [open] or [eval] raises on a result file *)

Inductive result (A : Type) : Type :=
| Ok (a : A)
| Raise (e : exn).

Arguments Ok {A} a.
Arguments Raise {A} e.

Definition bind {A B : Type} (r : result A) (k : A -> result B) : result B :=
  match r with
  | Ok a => k a
  | Raise e => Raise e
  end.

Notation "x <- e ;; k" := (bind e (fun x => k))
  (at level 61, e at next level, right associativity).
Notation "' p <- e ;; k" := (bind e (fun p => k))
  (at level 61, p pattern, e at next level, right associativity).

(** A [for] loop whose body may raise: the state is threaded through
    the elements in order, and the first exception ends the loop. *)
Fixpoint for_each {S A : Type} (body : S -> A -> result S)
  (l : list A) (s : S) : result S :=
  match l with
  | [] => Ok s
  | x :: l' => s' <- body s x ;; for_each body l' s'
  end.

(* ================================================================= *)
(** ** Python lists and strings *)

(** [l[:-1]] *)
Definition drop_last {A : Type} (l : list A) : list A := removelast l.

(** [l[1:]] *)
Definition drop_first {A : Type} (l : list A) : list A := tl l.

Definition LF : ascii := "010"%char.

(** [s.split(sep)] for a one-character separator. *)
Fixpoint split_on (sep : ascii) (s : string) : list string :=
  match s with
  | EmptyString => [EmptyString]
  | String c s' =>
      if Ascii.eqb c sep then EmptyString :: split_on sep s'
      else match split_on sep s' with
           | h :: t => String c h :: t
           | [] => [String c EmptyString]
           end
  end.

(** [sep.join(l)] *)
Fixpoint join (sep : string) (l : list string) : string :=
  match l with
  | [] => EmptyString
  | [x] => x
  | x :: l' => x ++ sep ++ join sep l'
  end.

(** [str.isspace] on the ASCII range: TAB, LF, VT, FF, CR, FS, GS, RS,
    US and the space. *)
Definition is_space (c : ascii) : bool :=
  let n := nat_of_ascii c in
  ((9 <=? n) && (n <=? 13) || (28 <=? n) && (n <=? 32))%nat.

(** [s.split()]: the maximal runs of non-space characters. *)
Fixpoint split_ws_from (cur : string) (s : string) : list string :=
  match s with
  | EmptyString => match cur with EmptyString => [] | _ => [cur] end
  | String c s' =>
      if is_space c then
        match cur with
        | EmptyString => split_ws_from EmptyString s'
        | _ => cur :: split_ws_from EmptyString s'
        end
      else split_ws_from (cur ++ String c EmptyString) s'
  end.

Definition split_ws (s : string) : list string := split_ws_from EmptyString s.

Definition digit_of (c : ascii) : option Z :=
  let n := nat_of_ascii c in
  if ((48 <=? n) && (n <=? 57))%nat then Some (Z.of_nat n - 48) else None.

(** The digits of a decimal literal; a single underscore may separate
    two digits. *)
Fixpoint int_digits (acc : Z) (after_digit : bool) (s : list ascii)
  : option Z :=
  match s with
  | [] => if after_digit then Some acc else None
  | c :: s' =>
      match digit_of c with
      | Some d => int_digits (10 * acc + d) true s'
      | None =>
          if Ascii.eqb c "_"%char && after_digit
          then int_digits acc false s'
          else None
      end
  end.

(** The white space that [int] skips around an ASCII literal: TAB,
    LF, VT, FF, CR and the space.  The separators FS, GS, RS and US,
    which [str.isspace] and [str.split] take for white space, are not
    skipped. *)
Definition is_int_space (c : ascii) : bool :=
  let n := nat_of_ascii c in
  ((9 <=? n) && (n <=? 13) || (n =? 32))%nat.

Fixpoint lstrip (s : list ascii) : list ascii :=
  match s with
  | c :: s' => if is_int_space c then lstrip s' else s
  | [] => []
  end.

Definition strip (s : list ascii) : list ascii :=
  rev (lstrip (rev (lstrip s))).

(** [int(s)] in base ten on ASCII text: surrounding white space, an
    optional sign, then the digits.  [None] stands for [ValueError]. *)
Definition py_int (s : string) : option Z :=
  match strip (list_ascii_of_string s) with
  | "-"%char :: ds => option_map Z.opp (int_digits 0 false ds)
  | "+"%char :: ds => int_digits 0 false ds
  | ds => int_digits 0 false ds
  end.

Definition int_of (s : string) : result Z :=
  match py_int s with
  | Some n => Ok n
  | None => Raise ValueError
  end.

Fixpoint rstrip_slash (r : list ascii) : list ascii :=
  match r with
  | c :: r' => if Ascii.eqb c "/"%char then rstrip_slash r' else r
  | [] => []
  end.

Fixpoint from_first_slash (r : list ascii) : list ascii :=
  match r with
  | c :: r' => if Ascii.eqb c "/"%char then r else from_first_slash r'
  | [] => []
  end.

(** [os.path.dirname] (posixpath): everything up to the last slash,
    with trailing slashes removed unless nothing else is left.  The
    computation runs on the reversed path. *)
Definition py_dirname (p : string) : string :=
  let head := from_first_slash (rev (list_ascii_of_string p)) in
  match rstrip_slash head with
  | [] => string_of_list_ascii (rev head)
  | stripped => string_of_list_ascii (rev stripped)
  end.

Definition ends_with_slash (a : string) : bool :=
  match rev (list_ascii_of_string a) with
  | c :: _ => Ascii.eqb c "/"%char
  | [] => false
  end.

(** [os.path.join(a, b)] for a relative [b]. *)
Definition path_join (a b : string) : string :=
  match a with
  | EmptyString => b
  | _ => if ends_with_slash a then a ++ b else a ++ "/" ++ b
  end.

(* ================================================================= *)
(** ** Python dictionaries *)

Section Dict.
Context {K V : Type}.
Variable K_eq_dec : forall x y : K, {x = y} + {x <> y}.

Definition dict_keys (d : list (K * V)) : list K := map fst d.

(** [d.get(k)] *)
Fixpoint dict_get (k : K) (d : list (K * V)) : option V :=
  match d with
  | [] => None
  | (k', v) :: d' => if K_eq_dec k k' then Some v else dict_get k d'
  end.

(** [d[k] = v]: an existing key keeps its position. *)
Fixpoint dict_set (k : K) (v : V) (d : list (K * V)) : list (K * V) :=
  match d with
  | [] => [(k, v)]
  | (k', v') :: d' =>
      if K_eq_dec k k' then (k', v) :: d' else (k', v') :: dict_set k v d'
  end.

Definition dict_write (d : list (K * V)) (kv : K * V) : list (K * V) :=
  dict_set (fst kv) (snd kv) d.

(** The dictionary a literal or comprehension with these items
    evaluates to: the items are written in their order. *)
Definition dict_of_items (items : list (K * V)) : list (K * V) :=
  fold_left dict_write items [].

End Dict.

Section DefaultDict.
Context {K X : Type}.
Variable K_eq_dec : forall x y : K, {x = y} + {x <> y}.

(** [d[k].append(x)] on a [defaultdict(list)]. *)
Fixpoint dict_append (k : K) (x : X) (d : list (K * list X))
  : list (K * list X) :=
  match d with
  | [] => [(k, [x])]
  | (k', l) :: d' =>
      if K_eq_dec k k' then (k', l ++ [x]) :: d'
      else (k', l) :: dict_append k x d'
  end.

(** The list under [k], empty when [k] is not a key. *)
Definition lookup_list (k : K) (d : list (K * list X)) : list X :=
  match dict_get K_eq_dec k d with
  | Some l => l
  | None => []
  end.

End DefaultDict.

(* ================================================================= *)
(** ** [sorted(l, key=..., reverse=...)] *)

Section Sorted.
Context {A K : Type}.
Variable key : A -> K.
Variable ltb : K -> K -> bool.   (* [<] on keys, the only comparison used *)

(** Insertion into an ascending list, before the first element that is
    not smaller: [x] came earlier in the input than all of [l]. *)
Fixpoint insert_asc (x : A) (l : list A) : list A :=
  match l with
  | [] => [x]
  | y :: l' =>
      if ltb (key y) (key x) then y :: insert_asc x l' else x :: y :: l'
  end.

(** A stable ascending sort. *)
Definition sort_asc (l : list A) : list A := fold_right insert_asc [] l.

(** [sorted]: with [reverse=True] the list is reversed, sorted
    ascending and reversed again, which keeps the sort stable. *)
Definition py_sorted (reverse : bool) (l : list A) : list A :=
  if reverse then rev (sort_asc (rev l)) else sort_asc l.

(** Two keys are tied when neither is smaller. *)
Definition tied (a b : K) : bool := negb (ltb a b) && negb (ltb b a).

End Sorted.

Definition Qltb (a b : Q) : bool := negb (Qle_bool b a).

(* ================================================================= *)
(** ** The outside world *)

(** One entry of a search-result file as written: the query
    identifier and its tuple of numbers. *)
Definition raw_scores : Type := list (string * list Q).

Record World : Type := mkWorld {
  popen_read : string -> string;            (* os.popen(cmd).read() *)
  path_exists : string -> bool;             (* os.path.exists(path) *)
  read_scores : string -> result raw_scores (* eval(open(path).read()) *)
}.

(** [(alignment_ind, subalignment_size, hmm_ind, num_seq)] *)
Definition hmm_index : Type := (Z * Z * Z * Z)%type.

(** [(dirname, alignment_ind, hmm_ind, num_seq)] *)
Definition hmm_entry : Type := (string * Z * Z * Z)%type.

(** [(alignment_ind, hmm_ind, bit-score)] *)
Definition scored_match : Type := (Z * Z * Q)%type.

Definition subalignment_size_of (x : hmm_index) : Z :=
  let '(_, size, _, _) := x in size.

Definition alignment_of (m : scored_match) : Z := let '(a, _, _) := m in a.
Definition hmm_of (m : scored_match) : Z := let '(_, h, _) := m in h.
Definition bitscore_of (m : scored_match) : Q := let '(_, _, s) := m in s.

(* ================================================================= *)
(** ** [obtainHMMs] *)

Section Loader.
Variable w : World.

(** loader.py:13-14 *)
Definition find_hmmbuild (indir : string) : list string :=
  drop_last (split_on LF
    (popen_read w ("find " ++ indir ++ " -name hmmbuild.model.* -type f"))).

(** loader.py:21-22 *)
Definition split_lines (path : string) : list (list string) :=
  map split_ws
    (drop_last (split_on LF (popen_read w ("head -n 15 " ++ path)))).

(** loader.py:23, the comprehension [{x[0]: ','.join(x[1:]) for x in
    split_lines}]; [x[0]] raises on a line without a token. *)
Definition header_dict (path : string) : result (list (string * string)) :=
  for_each
    (fun d x =>
       match x with
       | [] => Raise IndexError
       | k :: vs => Ok (dict_set string_dec k (join "," vs) d)
       end)
    (split_lines path) [].

(** loader.py:21-25 *)
Definition read_num_seq (path : string) : result Z :=
  _dict <- header_dict path ;;
  match dict_get string_dec "NSEQ" _dict with
  | None => Raise AssertionError
  | Some v => int_of v
  end.

(** loader.py:35-36 *)
Definition subalignment_path_of (dirname : string) : string :=
  path_join (join "/" (drop_last (split_on "/"%char dirname)))
    "subset.aln.fasta".

(** loader.py:41 *)
Definition index_of (dirname : string) : string :=
  last (split_on "/"%char dirname) EmptyString.

(** loader.py:42, [a, h = (int(x) for x in index.split('_')[1:])]:
    a failing [int] and a wrong number of values both raise
    [ValueError]. *)
Definition parse_index (index : string) : result (Z * Z) :=
  match drop_first (split_on "_"%char index) with
  | [ta; th] =>
      alignment_ind <- int_of ta ;;
      hmm_ind <- int_of th ;;
      Ok (alignment_ind, hmm_ind)
  | _ => Raise ValueError
  end.

(** loader.py:31-45, what an included descriptor adds: the tuple for
    [hmm_indexes] and the key and value for [index_to_hmms]. *)
Definition catalog_entry (path : string) (num_seq : Z)
  : result (hmm_index * (string * hmm_entry)) :=
  let dirname := py_dirname path in
  let subalignment_path := subalignment_path_of dirname in
  if negb (path_exists w subalignment_path) then Raise AssertionError else
  lines <- int_of (hd EmptyString
             (split_on " "%char (popen_read w ("wc -l " ++ subalignment_path)))) ;;
  let subalignment_size := lines / 2 in
  let index := index_of dirname in
  '(alignment_ind, hmm_ind) <- parse_index index ;;
  Ok ((alignment_ind, subalignment_size, hmm_ind, num_seq),
      (index, (dirname, alignment_ind, hmm_ind, num_seq))).

(** loader.py:29 *)
Definition in_range (lower upper : Z) (n_paths : nat) (num_seq : Z) : bool :=
  ((num_seq <=? upper) && (num_seq >=? lower)) || Nat.eqb n_paths 1.

(** loader.py:20-45, one turn of the loop. *)
Definition obtain_step (lower upper : Z) (n_paths : nat)
  (st : list hmm_index * list (string * hmm_entry)) (path : string)
  : result (list hmm_index * list (string * hmm_entry)) :=
  let '(hmm_indexes, index_to_hmms) := st in
  num_seq <- read_num_seq path ;;
  if in_range lower upper n_paths num_seq then
    '(tuple, (index, val)) <- catalog_entry path num_seq ;;
    Ok (hmm_indexes ++ [tuple], dict_set string_dec index val index_to_hmms)
  else Ok (hmm_indexes, index_to_hmms).

(** loader.py:12-14 *)
Definition effective_paths (indir : string) (hmmbuild_paths : list string)
  : list string :=
  match hmmbuild_paths with
  | [] => find_hmmbuild indir
  | _ => hmmbuild_paths
  end.

(** loader.py:17-45, the catalog before it is sorted. *)
Definition obtain_loop (lower upper : Z) (paths : list string)
  : result (list hmm_index * list (string * hmm_entry)) :=
  for_each (obtain_step lower upper (List.length paths)) paths ([], []).

(** loader.py:8-53 *)
Definition obtainHMMs (indir : string) (lower upper : Z)
  (hmmbuild_paths : list string)
  : result (list hmm_index * list (string * hmm_entry)) :=
  let hmmbuild_paths := effective_paths indir hmmbuild_paths in
  '(hmm_indexes, index_to_hmms) <- obtain_loop lower upper hmmbuild_paths ;;
  Ok (py_sorted subalignment_size_of Z.ltb true hmm_indexes, index_to_hmms).

(* ================================================================= *)
(** ** [getHMMSearchResults] *)

(** loader.py:66-67 *)
Definition find_hmmsearch (hmmdir : string) : list string :=
  drop_last (split_on LF
    (popen_read w ("find " ++ hmmdir ++ " -name hmmsearch.results.* -type f"))).

(** loader.py:72-76, one (taxon, score) item; [score[1]] raises on a
    tuple with fewer than two elements. *)
Definition collect_item (alignment_ind hmm_ind : Z)
  (scores : list (string * list scored_match)) (item : string * list Q)
  : result (list (string * list scored_match)) :=
  let '(taxon, score) := item in
  match nth_error score 1 with
  | Some bit => Ok (dict_append string_dec taxon (alignment_ind, hmm_ind, bit) scores)
  | None => Raise IndexError
  end.

(** loader.py:69-76, one result file. *)
Definition collect_file (alignment_ind hmm_ind : Z)
  (scores : list (string * list scored_match)) (path : string)
  : result (list (string * list scored_match)) :=
  raw <- read_scores w path ;;
  let this_scores := dict_of_items string_dec raw in
  for_each (collect_item alignment_ind hmm_ind) this_scores scores.

(** loader.py:63-76, one cataloged model. *)
Definition collect_model (scores : list (string * list scored_match))
  (item : string * hmm_entry) : result (list (string * list scored_match)) :=
  let '(_, (hmmdir, alignment_ind, hmm_ind, _)) := item in
  for_each (collect_file alignment_ind hmm_ind) (find_hmmsearch hmmdir) scores.

(** loader.py:62-76, the matches in the order they are found. *)
Definition collect_scores (index_to_hmms : list (string * hmm_entry))
  : result (list (string * list scored_match)) :=
  for_each collect_model index_to_hmms [].

(** loader.py:79-80 *)
Definition rank_scores (scores : list (string * list scored_match))
  : list (string * list scored_match) :=
  map (fun kv => (fst kv, py_sorted bitscore_of Qltb true (snd kv))) scores.

(** loader.py:58-86 *)
Definition getHMMSearchResults (index_to_hmms : list (string * hmm_entry))
  : result (list (string * list scored_match)) :=
  scores <- collect_scores index_to_hmms ;;
  Ok (rank_scores scores).

End Loader.

(* ================================================================= *)
(** ** [assignQueryToSubset] *)

(** loader.py:99-102, one turn of the loop; [score[0]] raises on an
    empty list. *)
Definition assign_step (query_assignment : list (Z * list string))
  (item : string * list scored_match) : result (list (Z * list string)) :=
  let '(taxon, score) := item in
  match score with
  | [] => Raise IndexError
  | top :: _ =>
      let alignment_ind := alignment_of top in
      Ok (dict_append Z.eq_dec alignment_ind taxon query_assignment)
  end.

(** loader.py:92-110 *)
Definition assignQueryToSubset (scores : list (string * list scored_match))
  (hmm_indexes : list hmm_index) (index_to_hmms : list (string * hmm_entry))
  : result (list (Z * list string)) :=
  for_each assign_step scores [].

(** The three stages in their order of use. *)
Definition pipeline (w : World) (indir : string) (lower upper : Z)
  (hmmbuild_paths : list string) : result (list (Z * list string)) :=
  '(hmm_indexes, index_to_hmms) <- obtainHMMs w indir lower upper hmmbuild_paths ;;
  scores <- getHMMSearchResults w index_to_hmms ;;
  assignQueryToSubset scores hmm_indexes index_to_hmms.

(* ================================================================= *)
(** ** Sample artifact trees *)

(** A world given by finite tables: the output of each shell command
    (empty for any other command), the existing paths, and the content
    of each result file (unreadable when not listed). *)
Definition world_of (commands : list (string * string))
  (existing : list string) (results : list (string * raw_scores)) : World :=
  mkWorld
    (fun cmd => match dict_get string_dec cmd commands with
                | Some out => out
                | None => EmptyString
                end)
    (fun p => existsb (String.eqb p) existing)
    (fun p => match dict_get string_dec p results with
              | Some r => Ok r
              | None => Raise ReadError
              end).

(** Text made of the given lines, each ended by a line feed. *)
Definition unlines (l : list string) : string :=
  fold_right (fun x acc => (x ++ String LF acc)%string) EmptyString l.

(** The world in which the command [cmd] prints [out], everything
    else being as in [w]. *)
Definition relist (w : World) (cmd out : string) : World :=
  mkWorld
    (fun c => if string_dec c cmd then out else popen_read w c)
    (path_exists w)
    (read_scores w).

Definition hmm_header (nseq : string) : string :=
  unlines ["HMMER3/f [3.1b2 | February 2015]"; "NAME  subset";
           "LENG  120"; "ALPH  DNA"; ("NSEQ  " ++ nseq)%string].

Module Sample.

(** The scenario of three models with NSEQ 50, 80, 10 and subsets of
    200, 150 and 5 sequences, and two queries. *)
Definition three_models : World :=
  world_of
    [ ("find /r -name hmmbuild.model.* -type f",
       unlines ["/r/A_1/A_1_0/hmmbuild.model.1";
                "/r/A_2/A_2_0/hmmbuild.model.2";
                "/r/A_3/A_3_0/hmmbuild.model.3"]);
      ("head -n 15 /r/A_1/A_1_0/hmmbuild.model.1", hmm_header "50");
      ("head -n 15 /r/A_2/A_2_0/hmmbuild.model.2", hmm_header "80");
      ("head -n 15 /r/A_3/A_3_0/hmmbuild.model.3", hmm_header "10");
      ("wc -l /r/A_1/subset.aln.fasta", unlines ["400 /r/A_1/subset.aln.fasta"]);
      ("wc -l /r/A_2/subset.aln.fasta", unlines ["300 /r/A_2/subset.aln.fasta"]);
      ("wc -l /r/A_3/subset.aln.fasta", unlines ["10 /r/A_3/subset.aln.fasta"]);
      ("find /r/A_1/A_1_0 -name hmmsearch.results.* -type f",
       unlines ["/r/A_1/A_1_0/hmmsearch.results.1"]);
      ("find /r/A_2/A_2_0 -name hmmsearch.results.* -type f",
       unlines ["/r/A_2/A_2_0/hmmsearch.results.2"]) ]
    [ "/r/A_1/subset.aln.fasta"; "/r/A_2/subset.aln.fasta";
      "/r/A_3/subset.aln.fasta" ]
    [ ("/r/A_1/A_1_0/hmmsearch.results.1",
       [("Q1", [0; 276 # 5]); ("Q2", [0; 40 # 1])]%Q);
      ("/r/A_2/A_2_0/hmmsearch.results.2", [("Q1", [0; 61 # 1])]%Q) ].


Definition three_models_mapping : list (string * hmm_entry) :=
  [("A_1_0", ("/r/A_1/A_1_0", 1, 0, 50));
   ("A_2_0", ("/r/A_2/A_2_0", 2, 0, 80))].

Definition three_models_ranked : list (string * list scored_match) :=
  [("Q1", [(2, 0, (61 # 1)%Q); (1, 0, (276 # 5)%Q)]);
   ("Q2", [(1, 0, (40 # 1)%Q)])].

(** One model whose search ran in two shards that both report the
    query Q1. *)
Definition two_shards : World :=
  world_of
    [ ("find /r/A_1/A_1_0 -name hmmsearch.results.* -type f",
       unlines ["/r/A_1/A_1_0/hmmsearch.results.0";
                "/r/A_1/A_1_0/hmmsearch.results.1"]) ]
    []
    [ ("/r/A_1/A_1_0/hmmsearch.results.0", [("Q1", [0; 5 # 1])]%Q);
      ("/r/A_1/A_1_0/hmmsearch.results.1", [("Q1", [0; 3 # 1])]%Q) ].

Definition two_shards_mapping : list (string * hmm_entry) :=
  [("A_1_0", ("/r/A_1/A_1_0", 1, 0, 50))].

(** A directory whose prefix itself contains an underscore. *)
Definition long_prefix : World :=
  world_of
    [ ("head -n 15 /r/A_1/sub_set_1_2/hmmbuild.model.1", hmm_header "50");
      ("wc -l /r/A_1/subset.aln.fasta", unlines ["400 /r/A_1/subset.aln.fasta"]) ]
    [ "/r/A_1/subset.aln.fasta" ]
    [].

(** Two partitions that name their model directories alike. *)
Definition same_basename : World :=
  world_of
    [ ("head -n 15 /r/x/A_1_0/hmmbuild.model.1", hmm_header "50");
      ("head -n 15 /r/y/A_1_0/hmmbuild.model.1", hmm_header "60");
      ("wc -l /r/x/subset.aln.fasta", unlines ["400 /r/x/subset.aln.fasta"]);
      ("wc -l /r/y/subset.aln.fasta", unlines ["300 /r/y/subset.aln.fasta"]) ]
    [ "/r/x/subset.aln.fasta"; "/r/y/subset.aln.fasta" ]
    [].

Definition same_basename_paths : list string :=
  ["/r/x/A_1_0/hmmbuild.model.1"; "/r/y/A_1_0/hmmbuild.model.1"].

(** A descriptor without the NSEQ line, and one whose subset
    alignment is absent. *)
Definition broken : World :=
  world_of
    [ ("head -n 15 /r/A_1/A_1_0/hmmbuild.model.1",
       unlines ["HMMER3/f [3.1b2 | February 2015]"; "NAME  subset"]);
      ("head -n 15 /r/A_2/A_2_0/hmmbuild.model.2", hmm_header "80") ]
    []
    [].

(** A descriptor whose header has an empty line before the NSEQ
    line. *)
Definition blank_line : World :=
  world_of
    [ ("head -n 15 /r/A_1/A_1_0/hmmbuild.model.1",
       unlines ["HMMER3/f [3.1b2 | February 2015]"; ""; "NSEQ  50"]) ]
    [ "/r/A_1/subset.aln.fasta" ]
    [].

(** A descriptor whose NSEQ line has a second token after the
    number. *)
Definition annotated_nseq : World :=
  world_of
    [ ("head -n 15 /r/A_1/A_1_0/hmmbuild.model.1",
       unlines ["NAME  subset"; "NSEQ  50 sequences"; "LENG  120"]) ]
    []
    [].

(** A machine whose [wc] pads the count with spaces. *)
Definition padded_wc : World :=
  world_of
    [ ("head -n 15 /r/A_1/A_1_0/hmmbuild.model.1", hmm_header "50");
      ("wc -l /r/A_1/subset.aln.fasta",
       unlines ["     400 /r/A_1/subset.aln.fasta"]) ]
    [ "/r/A_1/subset.aln.fasta" ]
    [].

(** A descriptor with two NSEQ lines. *)
Definition two_nseq : World :=
  world_of
    [ ("head -n 15 /r/A_1/A_1_0/hmmbuild.model.1",
       unlines ["NAME  subset"; "NSEQ  50"; "LENG  120"; "NSEQ  70"; "ALPH  DNA"]) ]
    []
    [].

(** Two models that give the query Q1 the same bit-score. *)
Definition tied_models : World :=
  world_of
    [ ("find /r/A_1/A_1_0 -name hmmsearch.results.* -type f",
       unlines ["/r/A_1/A_1_0/hmmsearch.results.1"]);
      ("find /r/A_2/A_2_0 -name hmmsearch.results.* -type f",
       unlines ["/r/A_2/A_2_0/hmmsearch.results.2"]) ]
    []
    [ ("/r/A_1/A_1_0/hmmsearch.results.1", [("Q1", [0; 5 # 1])]%Q);
      ("/r/A_2/A_2_0/hmmsearch.results.2", [("Q1", [0; 5 # 1])]%Q) ].

(** A tree of two models that give the query Q1 the same bit-score,
    and the same tree with its descriptors listed in the other
    order. *)
Definition tied_tree : World :=
  world_of
    [ ("find /r -name hmmbuild.model.* -type f",
       unlines ["/r/A_1/A_1_0/hmmbuild.model.1";
                "/r/A_2/A_2_0/hmmbuild.model.2"]);
      ("head -n 15 /r/A_1/A_1_0/hmmbuild.model.1", hmm_header "50");
      ("head -n 15 /r/A_2/A_2_0/hmmbuild.model.2", hmm_header "80");
      ("wc -l /r/A_1/subset.aln.fasta", unlines ["400 /r/A_1/subset.aln.fasta"]);
      ("wc -l /r/A_2/subset.aln.fasta", unlines ["300 /r/A_2/subset.aln.fasta"]);
      ("find /r/A_1/A_1_0 -name hmmsearch.results.* -type f",
       unlines ["/r/A_1/A_1_0/hmmsearch.results.1"]);
      ("find /r/A_2/A_2_0 -name hmmsearch.results.* -type f",
       unlines ["/r/A_2/A_2_0/hmmsearch.results.2"]) ]
    [ "/r/A_1/subset.aln.fasta"; "/r/A_2/subset.aln.fasta" ]
    [ ("/r/A_1/A_1_0/hmmsearch.results.1", [("Q1", [0; 5 # 1])]%Q);
      ("/r/A_2/A_2_0/hmmsearch.results.2", [("Q1", [0; 5 # 1])]%Q) ].

Definition tied_tree_relisted : World :=
  relist tied_tree "find /r -name hmmbuild.model.* -type f"
    (unlines ["/r/A_2/A_2_0/hmmbuild.model.2";
              "/r/A_1/A_1_0/hmmbuild.model.1"]).

(** Two models of one subset, each with the best match of one query,
    and the same tree with its descriptors listed in the other
    order. *)
Definition one_subset : World :=
  world_of
    [ ("find /r -name hmmbuild.model.* -type f",
       unlines ["/r/A_1/A_1_0/hmmbuild.model.0";
                "/r/A_1/A_1_1/hmmbuild.model.1"]);
      ("head -n 15 /r/A_1/A_1_0/hmmbuild.model.0", hmm_header "50");
      ("head -n 15 /r/A_1/A_1_1/hmmbuild.model.1", hmm_header "80");
      ("wc -l /r/A_1/subset.aln.fasta", unlines ["400 /r/A_1/subset.aln.fasta"]);
      ("find /r/A_1/A_1_0 -name hmmsearch.results.* -type f",
       unlines ["/r/A_1/A_1_0/hmmsearch.results.0"]);
      ("find /r/A_1/A_1_1 -name hmmsearch.results.* -type f",
       unlines ["/r/A_1/A_1_1/hmmsearch.results.1"]) ]
    [ "/r/A_1/subset.aln.fasta" ]
    [ ("/r/A_1/A_1_0/hmmsearch.results.0", [("Q1", [0; 61 # 1])]%Q);
      ("/r/A_1/A_1_1/hmmsearch.results.1", [("Q2", [0; 40 # 1])]%Q) ].

Definition one_subset_relisted : World :=
  relist one_subset "find /r -name hmmbuild.model.* -type f"
    (unlines ["/r/A_1/A_1_1/hmmbuild.model.1";
              "/r/A_1/A_1_0/hmmbuild.model.0"]).

Definition one_subset_mapping : list (string * hmm_entry) :=
  [("A_1_0", ("/r/A_1/A_1_0", 1, 0, 50));
   ("A_1_1", ("/r/A_1/A_1_1", 1, 1, 80))].

(** Two model directories directly under the root of the file system;
    a file [subset.aln.fasta] lies in the working directory and none
    under the root. *)
Definition root_level : World :=
  world_of
    [ ("head -n 15 /A_1_0/hmmbuild.model.1", hmm_header "50");
      ("head -n 15 /A_2_0/hmmbuild.model.2", hmm_header "80");
      ("wc -l subset.aln.fasta", unlines ["400 subset.aln.fasta"]) ]
    [ "subset.aln.fasta" ]
    [].

Definition root_level_paths : list string :=
  ["/A_1_0/hmmbuild.model.1"; "/A_2_0/hmmbuild.model.2"].

Definition tied_first : scored_match := (1, 0, (5 # 1)%Q).
Definition tied_second : scored_match := (2, 0, (5 # 1)%Q).

(** The two matches of Q1 in the scenario of three models. *)
Definition q1_best : scored_match := (2, 0, (61 # 1)%Q).
Definition q1_second : scored_match := (1, 0, (276 # 5)%Q).

End Sample.

(* ================================================================= *)
(** ** Vocabulary of the properties *)

(** No element is followed, anywhere later, by one with a larger key. *)
Definition descending {A K : Type} (key : A -> K) (ltb : K -> K -> bool)
  (l : list A) : Prop :=
  StronglySorted (fun x y => ltb (key x) (key y) = false) l.

Definition ascending {A K : Type} (key : A -> K) (ltb : K -> K -> bool)
  (l : list A) : Prop :=
  StronglySorted (fun x y => ltb (key y) (key x) = false) l.

(** How often a query occurs in the buckets of an assignment, all
    buckets taken together. *)
Definition occurrences (q : string) (query_assignment : list (Z * list string))
  : nat :=
  count_occ string_dec (List.concat (map snd query_assignment)) q.

(** What the loop has built after the queries [done]: a dictionary in
    which every processed query sits in the bucket of its first match
    and nowhere else. *)
Definition assigned (done : list (string * list scored_match))
  (qa : list (Z * list string)) : Prop :=
  NoDup (dict_keys qa) /\
  (forall q, occurrences q qa = count_occ string_dec (dict_keys done) q) /\
  (forall a q, In q (lookup_list Z.eq_dec a qa) ->
     exists top rest, In (q, top :: rest) done /\ alignment_of top = a) /\
  (forall q top rest, In (q, top :: rest) done ->
     In q (lookup_list Z.eq_dec (alignment_of top) qa)).

(** The result files that [getHMMSearchResults] reads, each with the
    indices of the model it is read for, in the order of reading. *)
Definition result_files (w : World) (index_to_hmms : list (string * hmm_entry))
  : list (Z * Z * string) :=
  flat_map
    (fun item : string * hmm_entry =>
       let '(_, (hmmdir, alignment_ind, hmm_ind, _)) := item in
       map (fun path => (alignment_ind, hmm_ind, path)) (find_hmmsearch w hmmdir))
    index_to_hmms.

(** The file reports the query. *)
Definition reports (w : World) (q : string) (path : string) : bool :=
  match read_scores w path with
  | Ok raw =>
      match dict_get string_dec q (dict_of_items string_dec raw) with
      | Some _ => true
      | None => false
      end
  | Raise _ => false
  end.

(** What one reading of a result file yields for a query: the match
    with the score at position 1 of its tuple, when the file reports
    the query. *)
Definition file_matches (w : World) (q : string) (file : Z * Z * string)
  : list scored_match :=
  let '(alignment_ind, hmm_ind, path) := file in
  match read_scores w path with
  | Ok raw =>
      match dict_get string_dec q (dict_of_items string_dec raw) with
      | Some score =>
          match nth_error score 1 with
          | Some bit => [(alignment_ind, hmm_ind, bit)]
          | None => []
          end
      | None => []
      end
  | Raise _ => []
  end.

(** The matches of a query in the order they are found. *)
Definition found_matches (w : World) (index_to_hmms : list (string * hmm_entry))
  (q : string) : list scored_match :=
  flat_map (file_matches w q) (result_files w index_to_hmms).

(** Every result file can be read and holds tuples of at least two
    numbers. *)
Definition readable (w : World) (index_to_hmms : list (string * hmm_entry))
  : Prop :=
  forall a h path, In (a, h, path) (result_files w index_to_hmms) ->
    exists raw, read_scores w path = Ok raw /\
      forall q score, In (q, score) (dict_of_items string_dec raw) ->
        (2 <= List.length score)%nat.

Definition of_model (a h : Z) (m : scored_match) : bool :=
  (alignment_of m =? a) && (hmm_of m =? h).

Definition file_of_model (a h : Z) (file : Z * Z * string) : bool :=
  let '(a', h', _) := file in (a' =? a) && (h' =? h).

(** What one item of a result file adds to the list of a query. *)
Definition item_matches (a h : Z) (q : string) (item : string * list Q)
  : list scored_match :=
  if string_dec (fst item) q then
    match nth_error (snd item) 1 with
    | Some bit => [(a, h, bit)]
    | None => []
    end
  else [].

(** A [defaultdict(list)] that was only ever appended to: distinct
    keys, no empty list. *)
Definition appended_only {K X : Type} (d : list (K * list X)) : Prop :=
  NoDup (dict_keys d) /\ forall k l, In (k, l) d -> l <> [].

(** What [obtainHMMs] adds for an included descriptor. *)
Definition catalog_item : Type := (hmm_index * (string * hmm_entry))%type.

(** What one turn of the loop of [obtainHMMs] decides for a
    descriptor: [None] when it is filtered out, its catalog item when
    it is included. *)
Definition descriptor_step (w : World) (lower upper : Z) (n_paths : nat)
  (path : string) : result (option catalog_item) :=
  num_seq <- read_num_seq w path ;;
  if in_range lower upper n_paths num_seq then
    item <- catalog_entry w path num_seq ;; Ok (Some item)
  else Ok None.

Definition add_item (st : list hmm_index * list (string * hmm_entry))
  (d : option catalog_item) : list hmm_index * list (string * hmm_entry) :=
  match d with
  | Some (tuple, (index, val)) =>
      (fst st ++ [tuple], dict_set string_dec index val (snd st))
  | None => st
  end.

Definition somes {A : Type} (l : list (option A)) : list A :=
  flat_map (fun o => match o with Some a => [a] | None => [] end) l.

(** The keys of the header lines of a descriptor: the first token of
    every line that has one. *)
Definition header_keys (w : World) (path : string) : list string :=
  flat_map (fun x => match x with k :: _ => [k] | [] => [] end)
    (split_lines w path).

(** Two worlds hold the same artifacts: every descriptor has the same
    header and every file the same line count, the same paths exist,
    every result file has the same content, and every directory has
    the same descriptor files and the same result files below it.  The
    order in which [find] lists the files of a directory is no part of
    the artifacts: the two listings are permutations of each other. *)
Definition same_artifacts (w1 w2 : World) : Prop :=
  (forall path, popen_read w1 ("head -n 15 " ++ path) =
                popen_read w2 ("head -n 15 " ++ path)) /\
  (forall path, popen_read w1 ("wc -l " ++ path) =
                popen_read w2 ("wc -l " ++ path)) /\
  (forall path, path_exists w1 path = path_exists w2 path) /\
  (forall path, read_scores w1 path = read_scores w2 path) /\
  (forall dir, Permutation (find_hmmbuild w1 dir) (find_hmmbuild w2 dir)) /\
  (forall dir, Permutation (find_hmmsearch w1 dir) (find_hmmsearch w2 dir)).

(** The two worlds list the files of every directory in the same
    order. *)
Definition same_listing (w1 w2 : World) : Prop :=
  (forall dir, find_hmmbuild w1 dir = find_hmmbuild w2 dir) /\
  (forall dir, find_hmmsearch w1 dir = find_hmmsearch w2 dir).

(** A match that no match of the list outscores. *)
Definition best (matches : list scored_match) (x : scored_match) : Prop :=
  In x matches /\
  forall y, In y matches -> (bitscore_of y <= bitscore_of x)%Q.

(** The highest bit-score of the list is not shared between
    alignments. *)
Definition one_best_alignment (matches : list scored_match) : Prop :=
  forall x y, best matches x -> best matches y ->
    alignment_of x = alignment_of y.

(** The basename of the directory of a descriptor, which
    [obtainHMMs] takes for the key of its mapping. *)
Definition basename_of (path : string) : string := index_of (py_dirname path).

(** The catalog item of an included descriptor, [None] for any other
    path. *)
Definition included_item (w : World) (lower upper : Z) (n_paths : nat)
  (path : string) : option catalog_item :=
  match descriptor_step w lower upper n_paths path with
  | Ok d => d
  | Raise _ => None
  end.

(** The first entry of the ranked list of the item belongs to
    alignment [a]. *)
Definition top_alignment_is (a : Z) (item : string * list scored_match) : bool :=
  match snd item with
  | top :: _ => alignment_of top =? a
  | [] => false
  end.

(** The key and the joined values of a header line. *)
Definition header_item (x : list string) : string * string :=
  match x with
  | k :: vs => (k, join "," vs)
  | [] => (EmptyString, EmptyString)
  end.

(** The text has no slash. *)
Definition slash_free (s : string) : Prop :=
  ~ In "/"%char (list_ascii_of_string s).

(** Following the words of the specification: the sibling subset
    alignment of a descriptor is the file with the fixed name one
    directory level up from the directory that contains the
    descriptor. *)
Definition sibling_one_level_up (path : string) : string :=
  path_join (py_dirname (py_dirname path)) "subset.aln.fasta".

(** The path of the descriptor names the directory above the one that
    contains it: [name/file], relative to the working directory, or
    [dir/name/file] with a directory [dir] that is not empty and does
    not end in a slash. *)
Definition below_named_parent (path : string) : Prop :=
  exists name file,
    slash_free name /\ name <> EmptyString /\ slash_free file /\
    (path = (name ++ "/" ++ file)%string \/
     exists dir,
       dir <> EmptyString /\ ends_with_slash dir = false /\
       path = (dir ++ "/" ++ name ++ "/" ++ file)%string).

(* ================================================================= *)
(** ** [setup.py] *)

(** The exceptions of the configuration script. *)
Inductive setup_exn : Type :=
| SetupAssertionError
| KeyError
| NoSectionError
| DuplicateSectionError
| SetupValueError
| ParsingError.

Inductive outcome (A : Type) : Type :=
| Done (a : A)
| Failed (e : setup_exn).

Arguments Done {A} a.
Arguments Failed {A} e.

Definition and_then {A B : Type} (r : outcome A) (k : A -> outcome B) : outcome B :=
  match r with
  | Done a => k a
  | Failed e => Failed e
  end.

Fixpoint each {S A : Type} (body : S -> A -> outcome S) (l : list A) (s : S)
  : outcome S :=
  match l with
  | [] => Done s
  | x :: l' => and_then (body s x) (each body l')
  end.

(** [needle in hay] on text. *)
Fixpoint contains (needle hay : string) : bool :=
  if prefix needle hay then true
  else match hay with
       | EmptyString => false
       | String _ hay' => contains needle hay'
       end.

(** What a run of a binary left: its two streams and its return
    code. *)
Record Completed : Type := mkCompleted {
  ran_stdout : string;
  ran_stderr : string;
  ran_returncode : Z
}.

(** A parser seen through [sections()] and the [items()] of each
    section, in their order. *)
Definition config : Type := list (string * list (string * string)).

(** The machine the script runs on.  [executeBinary] stands for
    [helpers.general_tools.executeBinary], which is not among the
    sources; [before_set] for the check that [ConfigParser.set] makes
    on a value before it stores it. *)
Record Host : Type := mkHost {
  executeBinary : string -> Completed;
  host_exists : string -> bool;            (* os.path.exists *)
  host_popen : string -> string;           (* os.popen(cmd).read() *)
  which : string -> option string;         (* shutil.which *)
  read_file : string -> outcome config;    (* ConfigParser.read_file *)
  before_set : string -> bool
}.

(** setup.py:18-32; the return value, without the report printed. *)
Definition processExecutableOutput (h : Host) (section item binpath : string) : Z :=
  let out := executeBinary h binpath in
  let returncode := ran_returncode out in
  if negb ((returncode =? 0) || (returncode =? 1))
     || contains "v0.000" (ran_stderr out)
  then 1 else 0.

(** [os.path.join(a, b)] *)
Definition os_join (a b : string) : string :=
  if prefix "/" b then b else path_join a b.

(** [os.path.join(a, b1, ..., bn)] *)
Definition os_join_all (a : string) (bs : list string) : string :=
  fold_left os_join bs a.

(** [ConfigParser.add_section] *)
Definition cfg_add_section (section : string) (c : config) : outcome config :=
  if string_dec section "DEFAULT" then Failed SetupValueError
  else match dict_get string_dec section c with
       | Some _ => Failed DuplicateSectionError
       | None => Done (c ++ [(section, [])])
       end.

(** [ConfigParser.set] on a named section: a value that is not empty
    is checked first, then the section must exist. *)
Definition cfg_set (h : Host) (section opt value : string) (c : config)
  : outcome config :=
  let rejected :=
    match value with
    | EmptyString => false
    | _ => negb (before_set h value)
    end in
  if rejected then Failed SetupValueError
  else match dict_get string_dec section c with
       | None => Failed NoSectionError
       | Some d =>
           Done (dict_set string_dec section
                   (dict_set string_dec opt value d) c)
       end.

Definition set_sections : list string := ["Basic"; "MAGUS"].

(** setup.py:57-60 *)
Definition copy_default (h : Host) (default_config : config) : outcome config :=
  each
    (fun c (entry : string * list (string * string)) =>
       let '(section, items) := entry in
       and_then (cfg_add_section section c)
         (each (fun c (kv : string * string) =>
                  cfg_set h section (fst kv) (snd kv) c) items))
    default_config [].

(** setup.py:70-85 *)
Definition bundled_tools (h : Host) (root_dir : string) (c : config)
  : outcome config :=
  let _magus_tools_dir := os_join_all root_dir ["tools"; "magus"; "tools"] in
  each
    (fun c _section =>
       and_then (cfg_set h _section "mafftpath"
                   (os_join_all _magus_tools_dir ["mafft"; "mafft"]) c)
         (fun c =>
       and_then (cfg_set h _section "mclpath"
                   (os_join_all _magus_tools_dir ["mcl"; "bin"; "mcl"]) c)
         (fun c =>
       and_then (cfg_set h _section "fasttreepath"
                   (os_join_all _magus_tools_dir ["fasttree"; "FastTreeMP"]) c)
         (each
            (fun c hmmer_pkg =>
               cfg_set h _section (hmmer_pkg ++ "path")
                 (os_join_all _magus_tools_dir ["hmmer"; hmmer_pkg]) c)
            ["hmmsearch"; "hmmalign"; "hmmbuild"]))))
    set_sections c.

(** setup.py:94-103 *)
Definition macos_tools (h : Host) (root_dir : string) (c : config)
  : outcome config :=
  let _macOS_dir := os_join_all root_dir ["tools"; "macOS"] in
  let binaries := drop_last (split_on LF (host_popen h ("ls " ++ _macOS_dir))) in
  each
    (fun c binary =>
       let path := os_join _macOS_dir binary in
       each
         (fun c _section =>
            if contains "FastTreeMP" path
            then cfg_set h _section "fasttreepath" path c
            else cfg_set h _section (binary ++ "path") path c)
         set_sections c)
    binaries c.

Definition software : list string :=
  ["mafft"; "mcl"; "hmmsearch"; "hmmalign"; "hmmbuild"; "FastTreeMP"].

(** The truth of [shutil.which(soft)]: a path that is not empty. *)
Definition found (h : Host) (soft : string) : option string :=
  match which h soft with
  | Some EmptyString => None
  | r => r
  end.

(** setup.py:107-121 *)
Definition user_tools (h : Host) (c : config) : outcome config :=
  each
    (fun c soft =>
       each
         (fun c _section =>
            match found h soft with
            | Some p =>
                if string_dec soft "FastTreeMP"
                then cfg_set h _section "fasttreepath" p c
                else cfg_set h _section (soft ++ "path") p c
            | None => Done c
            end)
         set_sections c)
    software c.

(** setup.py:34-128: the parser returned, and what was written to
    [main.config], if anything. *)
Definition setup (h : Host) (root_dir : string)
  (prioritize_user_software : bool) (platform : string)
  : outcome (config * option config) :=
  let _config_path := os_join root_dir "default.config" in
  if negb (host_exists h _config_path) then Failed SetupAssertionError else
  let main_config_path := os_join root_dir "main.config" in
  if host_exists h main_config_path then
    and_then (read_file h main_config_path) (fun cparser => Done (cparser, None))
  else
    and_then (read_file h _config_path) (fun default_config =>
    and_then (copy_default h default_config) (fun cparser =>
    and_then (if negb (contains "macOS" platform)
              then bundled_tools h root_dir cparser
              else macos_tools h root_dir cparser) (fun cparser =>
    and_then (if prioritize_user_software
              then user_tools h cparser
              else Done cparser) (fun cparser =>
    Done (cparser, Some cparser))))).

(** setup.py:153-157, one item of a section: the count of failures
    and the binaries run so far. *)
Definition check_item (h : Host) (_section : string) (st : Z * list string)
  (kv : string * string) : Z * list string :=
  let '(k, v) := kv in
  if contains "path" k
  then (fst st + processExecutableOutput h _section k v, snd st ++ [v])
  else st.

(** setup.py:152-157, over the items of the two sections as
    [items()] yields them.  A value that the interpolation of
    [items()] refuses is outside this model. *)
Definition check_executables (h : Host) (configs : config)
  : outcome (Z * list string) :=
  each
    (fun st _section =>
       match dict_get string_dec _section configs with
       | None => Failed KeyError
       | Some items => Done (fold_left (check_item h _section) items st)
       end)
    set_sections (0, []).

(** The status that [exit(num_err > 0)] leaves. *)
Definition exit_status (num_err : Z) : Z := if num_err >? 0 then 1 else 0.

(** The binary ran: return code 0 or 1, and no [v0.000] in what it
    wrote to its error stream. *)
Definition runs (h : Host) (binpath : string) : bool :=
  let out := executeBinary h binpath in
  ((ran_returncode out =? 0) || (ran_returncode out =? 1))
  && negb (contains "v0.000" (ran_stderr out)).

(** The values of the items whose key contains [path]. *)
Definition path_values (items : list (string * string)) : list string :=
  map snd (filter (fun kv => contains "path" (fst kv)) items).

(** The value stored under an option of a section. *)
Definition cfg_get (c : config) (section opt : string) : option string :=
  match dict_get string_dec section c with
  | Some d => dict_get string_dec opt d
  | None => None
  end.

(** A [set] to perform: section, option, value. *)
Definition cfg_write : Type := (string * string * string)%type.

Definition apply_writes (h : Host) (ws : list cfg_write) (c : config)
  : outcome config :=
  each (fun c (w : cfg_write) => let '(s, k, v) := w in cfg_set h s k v c) ws c.

(** The value of the last write to an option of a section. *)
Fixpoint last_write (section opt : string) (ws : list cfg_write)
  : option string :=
  match ws with
  | [] => None
  | (s, k, v) :: ws' =>
      match last_write section opt ws' with
      | Some v' => Some v'
      | None =>
          if string_dec s section then
            if string_dec k opt then Some v else None
          else None
      end
  end.

(** [ConfigParser.set] stores the value: it is empty or passes the
    check. *)
Definition accepted (h : Host) (value : string) : Prop :=
  value = EmptyString \/ before_set h value = true.

(** The option that holds the path of a tool. *)
Definition tool_option (soft : string) : string :=
  if string_dec soft "FastTreeMP" then "fasttreepath" else (soft ++ "path")%string.

(** Where the tools shipped with the repository are. *)
Definition bundled_path (root_dir soft : string) : string :=
  let tools := os_join_all root_dir ["tools"; "magus"; "tools"] in
  if string_dec soft "mafft" then os_join_all tools ["mafft"; "mafft"]
  else if string_dec soft "mcl" then os_join_all tools ["mcl"; "bin"; "mcl"]
  else if string_dec soft "FastTreeMP" then os_join_all tools ["fasttree"; "FastTreeMP"]
  else os_join_all tools ["hmmer"; soft].

Definition bundled_writes (root_dir : string) : list cfg_write :=
  flat_map
    (fun _section =>
       map (fun soft => (_section, tool_option soft, bundled_path root_dir soft))
         ["mafft"; "mcl"; "FastTreeMP"; "hmmsearch"; "hmmalign"; "hmmbuild"])
    set_sections.

Definition user_writes (h : Host) : list cfg_write :=
  flat_map
    (fun soft =>
       flat_map
         (fun _section =>
            match found h soft with
            | Some p => [(_section, tool_option soft, p)]
            | None => []
            end)
         set_sections)
    software.

(** The parser after the copy of a default configuration. *)
Definition copied (default_config : config) : config :=
  map (fun entry => (fst entry, dict_of_items string_dec (snd entry)))
    default_config.

Module SampleHost.

Definition default_config : config :=
  [ ("Basic", [("mafftpath", "mafft"); ("num_cpus", "4")]);
    ("MAGUS", [("mafftpath", "mafft"); ("timeout", "60")]);
    ("Other", [("note", "kept")]) ].

(** A Linux machine without [main.config], with its own [mafft]. *)
Definition linux : Host :=
  mkHost
    (fun binpath =>
       if String.eqb binpath "/usr/bin/mafft" then mkCompleted "" "" 1
       else mkCompleted "" "not found" 127)
    (fun p => String.eqb p "/salma/default.config")
    (fun _ => EmptyString)
    (fun soft => if String.eqb soft "mafft" then Some "/usr/bin/mafft" else None)
    (fun p => if String.eqb p "/salma/default.config"
              then Done default_config else Failed ParsingError)
    (fun v => negb (contains "%" v)).

(** The same machine with a default configuration that has no
    section [MAGUS]. *)
Definition no_magus : Host :=
  mkHost (executeBinary linux) (host_exists linux) (host_popen linux)
    (which linux)
    (fun p => if String.eqb p "/salma/default.config"
              then Done [("Basic", [("mafftpath", "mafft")])]
              else Failed ParsingError)
    (before_set linux).

(** A configuration to check: two binaries that run, one that does
    not, and an item that is no path. *)
Definition checked : config :=
  [ ("Basic", [("mafftpath", "/usr/bin/mafft"); ("num_cpus", "4");
               ("mclpath", "/opt/mcl")]);
    ("MAGUS", [("mafftpath", "/usr/bin/mafft")]) ].

End SampleHost.

(* ================================================================= *)
(** * Properties *)

(** ** Loops *)

Lemma bind_ok_inv {A B : Type} (r : result A) (k : A -> result B) (b : B) :
  bind r k = Ok b -> exists a, r = Ok a /\ k a = Ok b.
Proof.
  destruct r as [a|e]; simpl; intros H; [eauto | discriminate].
Qed.

(** A loop that raises on some element never returns normally. *)
Lemma for_each_raises {S A : Type} (body : S -> A -> result S) (l : list A) (x : A) :
  In x l -> (forall s, exists e, body s x = Raise e) ->
  forall s, exists e, for_each body l s = Raise e.
Proof.
  intros Hin Hx. induction l as [|y l IH]; [contradiction|].
  intros s; simpl. destruct (body s y) as [s'|e] eqn:E; simpl; [|eauto].
  destruct Hin as [->|Hin]; [|auto].
  destruct (Hx s) as [e He]; congruence.
Qed.

(** An invariant kept by every normal turn holds at a normal exit. *)
Lemma for_each_invariant {S A : Type} (body : S -> A -> result S)
  (I : list A -> S -> Prop) (l : list A) (s0 sN : S) :
  I [] s0 ->
  (forall done x s s', I done s -> body s x = Ok s' -> I (done ++ [x]) s') ->
  for_each body l s0 = Ok sN -> I l sN.
Proof.
  intros H0 Hstep.
  assert (G : forall rest done s, I done s ->
            for_each body rest s = Ok sN -> I (done ++ rest) sN).
  { induction rest as [|x rest IH]; intros done s Hs Hrun; simpl in Hrun.
    - injection Hrun as <-. now rewrite app_nil_r.
    - apply bind_ok_inv in Hrun as (s' & Hb & Hrun).
      replace (done ++ x :: rest) with ((done ++ [x]) ++ rest)
        by (now rewrite <- app_assoc).
      eapply IH; eauto. }
  intros Hrun. exact (G l [] s0 H0 Hrun).
Qed.

(** A loop whose body returns normally on every element does so too. *)
Lemma for_each_total {S A : Type} (body : S -> A -> result S) (l : list A) :
  (forall x, In x l -> forall s, exists s', body s x = Ok s') ->
  forall s, exists s', for_each body l s = Ok s'.
Proof.
  induction l as [|x l IH]; intros H s; simpl; [eauto|].
  destruct (H x (or_introl eq_refl) s) as [s' ->]; simpl.
  apply IH. intros y Hy. apply H. now right.
Qed.

(* ----------------------------------------------------------------- *)
(** ** Dictionaries *)

Section DictFacts.
Context {K V : Type}.
Variable K_eq_dec : forall x y : K, {x = y} + {x <> y}.

Lemma dict_get_set_same (k : K) (v : V) (d : list (K * V)) :
  dict_get K_eq_dec k (dict_set K_eq_dec k v d) = Some v.
Proof.
  induction d as [|[k' v'] d IH]; simpl.
  - destruct (K_eq_dec k k); congruence.
  - destruct (K_eq_dec k k') as [->|N]; simpl.
    + destruct (K_eq_dec k' k'); congruence.
    + destruct (K_eq_dec k k'); congruence.
Qed.

Lemma dict_get_set_other (k k0 : K) (v : V) (d : list (K * V)) :
  k0 <> k ->
  dict_get K_eq_dec k0 (dict_set K_eq_dec k v d) = dict_get K_eq_dec k0 d.
Proof.
  intros N. induction d as [|[k' v'] d IH]; simpl.
  - destruct (K_eq_dec k0 k); congruence.
  - destruct (K_eq_dec k k') as [->|N']; simpl.
    + destruct (K_eq_dec k0 k'); congruence.
    + destruct (K_eq_dec k0 k'); congruence.
Qed.

Lemma dict_keys_set (k : K) (v : V) (d : list (K * V)) :
  dict_keys (dict_set K_eq_dec k v d) =
  if in_dec K_eq_dec k (dict_keys d) then dict_keys d else dict_keys d ++ [k].
Proof.
  unfold dict_keys. induction d as [|[k' v'] d IH]; simpl; [reflexivity|].
  destruct (K_eq_dec k k') as [->|N]; simpl.
  - destruct (K_eq_dec k' k'); [reflexivity | congruence].
  - destruct (K_eq_dec k' k); [congruence|].
    rewrite IH. now destruct (in_dec K_eq_dec k (map fst d)).
Qed.

Lemma dict_set_NoDup (k : K) (v : V) (d : list (K * V)) :
  NoDup (dict_keys d) -> NoDup (dict_keys (dict_set K_eq_dec k v d)).
Proof.
  intros H. rewrite dict_keys_set.
  destruct (in_dec K_eq_dec k (dict_keys d)) as [I|I]; [assumption|].
  apply NoDup_rev in H. rewrite <- (rev_involutive (_ ++ _)).
  apply NoDup_rev. rewrite rev_app_distr; simpl. constructor; [|assumption].
  now rewrite <- in_rev.
Qed.

Lemma dict_set_length (k : K) (v : V) (d : list (K * V)) :
  (List.length (dict_set K_eq_dec k v d) <= S (List.length d))%nat.
Proof.
  induction d as [|[k' v'] d IH]; simpl; [lia|].
  destruct (K_eq_dec k k'); simpl; lia.
Qed.

Lemma dict_of_items_NoDup (items : list (K * V)) :
  NoDup (dict_keys (dict_of_items K_eq_dec items)).
Proof.
  unfold dict_of_items.
  assert (G : forall d, NoDup (dict_keys d) ->
    NoDup (dict_keys (fold_left (dict_write K_eq_dec) items d))).
  { induction items as [|kv items IH]; intros d Hd; simpl; [assumption|].
    apply IH. now apply dict_set_NoDup. }
  apply G. constructor.
Qed.

Lemma dict_get_In (k : K) (v : V) (d : list (K * V)) :
  dict_get K_eq_dec k d = Some v -> In (k, v) d.
Proof.
  induction d as [|[k' v'] d IH]; simpl; [discriminate|].
  destruct (K_eq_dec k k') as [->|N]; intros H.
  - injection H as ->. now left.
  - right. auto.
Qed.

Lemma dict_get_None (k : K) (d : list (K * V)) :
  dict_get K_eq_dec k d = None <-> ~ In k (dict_keys d).
Proof.
  unfold dict_keys. induction d as [|[k' v'] d IH]; simpl; [tauto|].
  destruct (K_eq_dec k k') as [->|N].
  - split; [discriminate | intros H; exfalso; apply H; now left].
  - rewrite IH. split; [intros H [E|I]; [congruence | auto] | tauto].
Qed.

Lemma In_dict_get (k : K) (v : V) (d : list (K * V)) :
  NoDup (dict_keys d) -> In (k, v) d -> dict_get K_eq_dec k d = Some v.
Proof.
  unfold dict_keys. induction d as [|[k' v'] d IH]; simpl; [contradiction|].
  intros ND [E|I].
  - injection E as -> ->. destruct (K_eq_dec k k); congruence.
  - inversion ND as [|? ? Hn ND']; subst.
    destruct (K_eq_dec k k') as [->|N]; [|auto].
    exfalso. apply Hn. change k' with (fst (k', v)). now apply in_map.
Qed.

End DictFacts.

Section DefaultDictFacts.
Context {K X : Type}.
Variable K_eq_dec : forall x y : K, {x = y} + {x <> y}.
Variable X_eq_dec : forall x y : X, {x = y} + {x <> y}.

Lemma lookup_list_append_same (k : K) (x : X) (d : list (K * list X)) :
  lookup_list K_eq_dec k (dict_append K_eq_dec k x d) =
  lookup_list K_eq_dec k d ++ [x].
Proof.
  unfold lookup_list. induction d as [|[k' l] d IH]; simpl.
  - destruct (K_eq_dec k k); congruence.
  - destruct (K_eq_dec k k') as [->|N]; simpl.
    + destruct (K_eq_dec k' k'); congruence.
    + destruct (K_eq_dec k k'); congruence.
Qed.

Lemma lookup_list_append_other (k k0 : K) (x : X) (d : list (K * list X)) :
  k0 <> k ->
  lookup_list K_eq_dec k0 (dict_append K_eq_dec k x d) =
  lookup_list K_eq_dec k0 d.
Proof.
  unfold lookup_list. intros N. induction d as [|[k' l] d IH]; simpl.
  - destruct (K_eq_dec k0 k); congruence.
  - destruct (K_eq_dec k k') as [->|N']; simpl.
    + destruct (K_eq_dec k0 k'); congruence.
    + destruct (K_eq_dec k0 k'); congruence.
Qed.

(** Appending under [k] adds the element to the list of [k] and
    changes no other list. *)
Lemma lookup_list_append (k k0 : K) (x : X) (d : list (K * list X)) :
  lookup_list K_eq_dec k0 (dict_append K_eq_dec k x d) =
  lookup_list K_eq_dec k0 d ++ (if K_eq_dec k k0 then [x] else []).
Proof.
  destruct (K_eq_dec k k0) as [<-|N].
  - apply lookup_list_append_same.
  - rewrite app_nil_r. apply lookup_list_append_other. congruence.
Qed.

Lemma dict_keys_append (k : K) (x : X) (d : list (K * list X)) :
  dict_keys (dict_append K_eq_dec k x d) =
  if in_dec K_eq_dec k (dict_keys d) then dict_keys d else dict_keys d ++ [k].
Proof.
  unfold dict_keys. induction d as [|[k' l] d IH]; simpl; [reflexivity|].
  destruct (K_eq_dec k k') as [->|N]; simpl.
  - destruct (K_eq_dec k' k'); [reflexivity | congruence].
  - destruct (K_eq_dec k' k); [congruence|].
    rewrite IH. now destruct (in_dec K_eq_dec k (map fst d)).
Qed.

Lemma dict_append_NoDup (k : K) (x : X) (d : list (K * list X)) :
  NoDup (dict_keys d) -> NoDup (dict_keys (dict_append K_eq_dec k x d)).
Proof.
  intros H. rewrite dict_keys_append.
  destruct (in_dec K_eq_dec k (dict_keys d)) as [I|I]; [assumption|].
  apply NoDup_rev in H. rewrite <- (rev_involutive (_ ++ _)).
  apply NoDup_rev. rewrite rev_app_distr; simpl. constructor; [|assumption].
  now rewrite <- in_rev.
Qed.

(** Only [defaultdict] reads create empty lists; appending does not. *)
Lemma dict_append_nonempty (k : K) (x : X) (d : list (K * list X)) :
  (forall k' l, In (k', l) d -> l <> []) ->
  forall k' l, In (k', l) (dict_append K_eq_dec k x d) -> l <> [].
Proof.
  induction d as [|[k1 l1] d IH]; simpl; intros H k' l.
  - intros [E|[]]. injection E as <- <-. discriminate.
  - destruct (K_eq_dec k k1) as [->|N]; simpl.
    + intros [E|I]; [|eauto]. injection E as <- <-.
      intros C. now apply app_eq_nil in C as [_ C].
    + intros [E|I]; [eauto|]. eapply IH; eauto.
Qed.

Lemma count_occ_dict_append (k : K) (x y : X) (d : list (K * list X)) :
  count_occ X_eq_dec (List.concat (map snd (dict_append K_eq_dec k x d))) y =
  (count_occ X_eq_dec (List.concat (map snd d)) y
   + if X_eq_dec x y then 1 else 0)%nat.
Proof.
  induction d as [|[k' l] d IH]; simpl.
  - destruct (X_eq_dec x y); reflexivity.
  - destruct (K_eq_dec k k') as [->|N]; simpl.
    + rewrite !count_occ_app; simpl. destruct (X_eq_dec x y); lia.
    + rewrite !count_occ_app, IH. lia.
Qed.

End DefaultDictFacts.

(* ----------------------------------------------------------------- *)
(** ** The assignment resolver *)

Lemma occurrences_append (a : Z) (t q : string) (qa : list (Z * list string)) :
  occurrences q (dict_append Z.eq_dec a t qa) =
  (occurrences q qa + if string_dec t q then 1 else 0)%nat.
Proof.
  apply count_occ_dict_append.
Qed.

(** The loop of [assignQueryToSubset] either meets a query with an
    empty list and raises an index error, or returns. *)
Lemma assign_loop_cases (scores : list (string * list scored_match)) :
  forall qa0,
    ((forall q l, In (q, l) scores -> l <> []) /\
     exists qa, for_each assign_step scores qa0 = Ok qa) \/
    ((exists q, In (q, []) scores) /\
     for_each assign_step scores qa0 = Raise IndexError).
Proof.
  induction scores as [|[q [|top rest]] scores IH]; intros qa0; simpl.
  - left. split; [contradiction | eauto].
  - right. split; [exists q; now left | reflexivity].
  - destruct (IH (dict_append Z.eq_dec (alignment_of top) q qa0))
      as [[Hne Hok]|[[q' Hq'] Hr]].
    + left. split; [|assumption].
      intros q' l [E|I]; [injection E as <- <-; discriminate | eauto].
    + right. split; [exists q'; now right | assumption].
Qed.

Lemma assign_loop_assigned (scores : list (string * list scored_match))
  (qa : list (Z * list string)) :
  for_each assign_step scores [] = Ok qa -> assigned scores qa.
Proof.
  apply for_each_invariant with (I := assigned).
  - repeat split; simpl; try constructor; try contradiction.
  - intros done [t [|top rest]] s s' (ND & Hocc & Hin & Htop) Hb;
      simpl in Hb; [discriminate|]. injection Hb as <-.
    repeat split.
    + now apply dict_append_NoDup.
    + intros q. rewrite occurrences_append, Hocc.
      unfold dict_keys. rewrite map_app, count_occ_app. simpl.
      destruct (string_dec t q); reflexivity.
    + intros a q. rewrite lookup_list_append, in_app_iff.
      intros [I|I].
      * destruct (Hin a q I) as (top' & rest' & I' & E).
        exists top', rest'. split; [apply in_or_app; now left | assumption].
      * destruct (Z.eq_dec (alignment_of top) a) as [<-|N]; [|contradiction].
        destruct I as [<-|[]]. exists top, rest.
        split; [apply in_or_app; right; now left | reflexivity].
    + intros q top' rest' I. rewrite lookup_list_append, in_app_iff.
      apply in_app_or in I as [I|[E|[]]]; [left; eauto|].
      injection E as <- <- <-. right.
      destruct (Z.eq_dec (alignment_of top) (alignment_of top)); [now left | congruence].
Qed.

(** C1. When every ranked list of the mapping is non-empty,
    [assignQueryToSubset] returns an assignment in which each query of
    the mapping is in the bucket of the [alignment_ind] of the first
    entry of its ranked list, in no other bucket, and occurs once over
    all buckets; a query that is not a key of the mapping occurs in no
    bucket. *)
Theorem assignQueryToSubset_top_ranked
  (scores : list (string * list scored_match))
  (hmm_indexes : list hmm_index) (index_to_hmms : list (string * hmm_entry)) :
  NoDup (dict_keys scores) ->
  (forall q l, In (q, l) scores -> l <> []) ->
  exists qa,
    assignQueryToSubset scores hmm_indexes index_to_hmms = Ok qa /\
    NoDup (dict_keys qa) /\
    (forall q top rest,
       dict_get string_dec q scores = Some (top :: rest) ->
       In q (lookup_list Z.eq_dec (alignment_of top) qa) /\
       (forall a, In q (lookup_list Z.eq_dec a qa) -> a = alignment_of top) /\
       occurrences q qa = 1%nat) /\
    (forall q,
       dict_get string_dec q scores = None ->
       occurrences q qa = 0%nat /\
       forall a, ~ In q (lookup_list Z.eq_dec a qa)).
Proof.
  intros ND Hne. unfold assignQueryToSubset.
  destruct (assign_loop_cases scores []) as [[_ [qa Hqa]]|[[q Hq] _]];
    [|exfalso; now apply (Hne q [])].
  exists qa. split; [assumption|].
  destruct (assign_loop_assigned _ _ Hqa) as (NDqa & Hocc & Hin & Htop).
  split; [assumption|]. split.
  - intros q top rest Hget. apply dict_get_In in Hget as I.
    split; [eauto|]. split.
    + intros a Ia. destruct (Hin a q Ia) as (top' & rest' & I' & <-).
      apply (In_dict_get string_dec) in I'; [|assumption]. congruence.
    + rewrite Hocc. apply NoDup_count_occ'; [assumption|].
      unfold dict_keys. change q with (fst (q, top :: rest)). now apply in_map.
  - intros q Hget. apply dict_get_None in Hget. split.
    + rewrite Hocc. now apply count_occ_not_In.
    + intros a Ia. destruct (Hin a q Ia) as (top & rest & I & _).
      apply Hget. unfold dict_keys. change q with (fst (q, top :: rest)).
      now apply in_map.
Qed.

(* ----------------------------------------------------------------- *)
(** ** [sorted] *)

Section SortedFacts.
Context {A K : Type}.
Variable key : A -> K.
Variable ltb : K -> K -> bool.
Hypothesis ltb_asym : forall a b, ltb a b = true -> ltb b a = false.
Hypothesis ltb_negtrans :
  forall a b c, ltb a b = false -> ltb b c = false -> ltb a c = false.

Lemma insert_asc_perm (x : A) (l : list A) :
  Permutation (insert_asc key ltb x l) (x :: l).
Proof.
  induction l as [|y l IH]; simpl; [reflexivity|].
  destruct (ltb (key y) (key x)); [|reflexivity].
  rewrite IH. apply perm_swap.
Qed.

Lemma sort_asc_perm (l : list A) : Permutation (sort_asc key ltb l) l.
Proof.
  induction l as [|x l IH]; simpl; [reflexivity|].
  rewrite insert_asc_perm. now constructor.
Qed.

Lemma py_sorted_perm (reverse : bool) (l : list A) :
  Permutation (py_sorted key ltb reverse l) l.
Proof.
  destruct reverse; simpl; [|apply sort_asc_perm].
  rewrite <- Permutation_rev, sort_asc_perm. symmetry. apply Permutation_rev.
Qed.

Lemma insert_asc_ascending (x : A) (l : list A) :
  ascending key ltb l -> ascending key ltb (insert_asc key ltb x l).
Proof.
  unfold ascending.
  induction l as [|y l IH]; simpl; intros H.
  - repeat constructor.
  - apply StronglySorted_inv in H as [Hl Hy].
    destruct (ltb (key y) (key x)) eqn:E.
    + constructor; [auto|].
      eapply Permutation_Forall; [symmetry; apply insert_asc_perm|].
      constructor; [now apply ltb_asym | assumption].
    + constructor; [now constructor|].
      constructor; [assumption|].
      eapply Forall_impl; [|exact Hy]. intros z Hz. simpl in Hz.
      eapply ltb_negtrans; eassumption.
Qed.

Lemma sort_asc_ascending (l : list A) : ascending key ltb (sort_asc key ltb l).
Proof.
  induction l as [|x l IH]; simpl; [constructor|].
  now apply insert_asc_ascending.
Qed.

Lemma ascending_rev (l : list A) :
  ascending key ltb l -> descending key ltb (rev l).
Proof.
  unfold ascending, descending.
  induction l as [|x l IH]; simpl; intros H; [constructor|].
  apply StronglySorted_inv in H as [Hl Hx].
  specialize (IH Hl). revert IH.
  assert (Hr : Forall (fun y => ltb (key y) (key x) = false) (rev l))
    by (apply Forall_rev; exact Hx).
  revert Hr. generalize (rev l) as r.
  induction r as [|z r IHr]; simpl; intros Hr Hs.
  - repeat constructor.
  - apply StronglySorted_inv in Hs as [Hs Hz].
    inversion Hr as [|? ? Hzx Hr']; subst.
    constructor; [auto|].
    apply Forall_app. split; [assumption | now constructor].
Qed.

(** The result of a reversed sort is in descending key order. *)
Lemma py_sorted_descending (l : list A) :
  descending key ltb (py_sorted key ltb true l).
Proof.
  simpl. apply ascending_rev, sort_asc_ascending.
Qed.

Lemma filter_rev_comm (f : A -> bool) (l : list A) :
  filter f (rev l) = rev (filter f l).
Proof.
  induction l as [|x l IH]; simpl; [reflexivity|].
  rewrite filter_app, IH; simpl.
  destruct (f x); simpl; [reflexivity | now rewrite app_nil_r].
Qed.

Lemma insert_asc_stable (k : K) (x : A) (l : list A) :
  filter (fun y => tied ltb (key y) k) (insert_asc key ltb x l) =
  filter (fun y => tied ltb (key y) k) (x :: l).
Proof.
  induction l as [|y l IH]; [reflexivity|].
  simpl insert_asc. destruct (ltb (key y) (key x)) eqn:E; [|reflexivity].
  change (filter ?f (y :: ?r)) with (if f y then y :: filter f r else filter f r).
  rewrite IH. simpl.
  destruct (tied ltb (key y) k) eqn:Ty, (tied ltb (key x) k) eqn:Tx;
    try reflexivity.
  exfalso. unfold tied in Ty, Tx.
  apply andb_prop in Ty as [Ty _], Tx as [_ Tx].
  apply negb_true_iff in Ty, Tx.
  rewrite (ltb_negtrans _ _ _ Ty Tx) in E. discriminate.
Qed.

Lemma sort_asc_stable (k : K) (l : list A) :
  filter (fun y => tied ltb (key y) k) (sort_asc key ltb l) =
  filter (fun y => tied ltb (key y) k) l.
Proof.
  induction l as [|x l IH]; [reflexivity|].
  simpl sort_asc. rewrite insert_asc_stable. simpl. now rewrite IH.
Qed.

(** Elements with tied keys leave [sorted] in the order they entered,
    also when [reverse] is set. *)
Lemma py_sorted_stable (reverse : bool) (k : K) (l : list A) :
  filter (fun y => tied ltb (key y) k) (py_sorted key ltb reverse l) =
  filter (fun y => tied ltb (key y) k) l.
Proof.
  destruct reverse; simpl; [|apply sort_asc_stable].
  now rewrite filter_rev_comm, sort_asc_stable, filter_rev_comm, rev_involutive.
Qed.

Lemma py_sorted_nil (reverse : bool) (l : list A) :
  py_sorted key ltb reverse l = [] -> l = [].
Proof.
  intros H. apply Permutation_nil. rewrite <- H. apply py_sorted_perm.
Qed.

End SortedFacts.

Lemma Zltb_asym (a b : Z) : (a <? b) = true -> (b <? a) = false.
Proof.
  rewrite Z.ltb_lt, Z.ltb_ge. lia.
Qed.

Lemma Zltb_negtrans (a b c : Z) :
  (a <? b) = false -> (b <? c) = false -> (a <? c) = false.
Proof.
  rewrite !Z.ltb_ge. lia.
Qed.

Lemma tied_Zltb (a b : Z) : tied Z.ltb a b = (a =? b).
Proof.
  unfold tied. destruct (Z.ltb_spec a b), (Z.ltb_spec b a), (Z.eqb_spec a b);
    simpl; try reflexivity; lia.
Qed.

Lemma Qltb_false (a b : Q) : Qltb a b = false <-> (b <= a)%Q.
Proof.
  unfold Qltb. rewrite negb_false_iff. apply Qle_bool_iff.
Qed.

Lemma Qltb_true (a b : Q) : Qltb a b = true <-> (a < b)%Q.
Proof.
  unfold Qltb. rewrite negb_true_iff, <- not_true_iff_false, Qle_bool_iff.
  split; [apply Qnot_le_lt | apply Qlt_not_le].
Qed.

Lemma Qltb_asym (a b : Q) : Qltb a b = true -> Qltb b a = false.
Proof.
  rewrite Qltb_true, Qltb_false. apply Qlt_le_weak.
Qed.

Lemma Qltb_negtrans (a b c : Q) :
  Qltb a b = false -> Qltb b c = false -> Qltb a c = false.
Proof.
  rewrite !Qltb_false. intros H1 H2. eapply Qle_trans; eassumption.
Qed.

Lemma tied_Qltb (a b : Q) : tied Qltb a b = Qeq_bool a b.
Proof.
  unfold tied. apply eq_true_iff_eq.
  rewrite andb_true_iff, !negb_true_iff, !Qltb_false, Qeq_bool_iff.
  split; [intros [H1 H2]; now apply Qle_antisym | intros ->; split; apply Qle_refl].
Qed.

(* ----------------------------------------------------------------- *)
(** ** The score collector *)

Section CollectorFacts.
Variable w : World.

Lemma collect_items_lookup (a h : Z) (items : list (string * list Q)) :
  forall scores scores',
    for_each (collect_item a h) items scores = Ok scores' ->
    forall q, lookup_list string_dec q scores' =
              lookup_list string_dec q scores ++ flat_map (item_matches a h q) items.
Proof.
  induction items as [|[t sc] items IH]; intros scores scores' H q.
  - simpl in H. injection H as <-. simpl. now rewrite app_nil_r.
  - cbn [for_each] in H. apply bind_ok_inv in H as (s1 & H1 & H2).
    rewrite (IH _ _ H2 q). cbn [flat_map].
    remember (flat_map (item_matches a h q) items) as rest.
    unfold collect_item in H1. unfold item_matches. cbn [fst snd].
    destruct (nth_error sc 1) as [bit|]; [|discriminate].
    injection H1 as <-. rewrite lookup_list_append, <- app_assoc.
    now destruct (string_dec t q).
Qed.

Lemma item_matches_dict (a h : Z) (q : string) (items : list (string * list Q)) :
  NoDup (dict_keys items) ->
  flat_map (item_matches a h q) items =
  match dict_get string_dec q items with
  | Some score =>
      match nth_error score 1 with
      | Some bit => [(a, h, bit)]
      | None => []
      end
  | None => []
  end.
Proof.
  induction items as [|[t sc] items IH]; simpl; intros ND; [reflexivity|].
  inversion ND as [|? ? Hn ND']; subst. rewrite (IH ND').
  unfold item_matches; simpl.
  destruct (string_dec t q) as [->|N].
  - destruct (string_dec q q) as [_|N']; [|congruence].
    apply (dict_get_None string_dec) in Hn. rewrite Hn. apply app_nil_r.
  - destruct (string_dec q t) as [E|_]; [congruence | reflexivity].
Qed.

Lemma collect_file_lookup (a h : Z) (path : string) :
  forall scores scores',
    collect_file w a h scores path = Ok scores' ->
    forall q, lookup_list string_dec q scores' =
              lookup_list string_dec q scores ++ file_matches w q (a, h, path).
Proof.
  unfold collect_file, file_matches. intros scores scores' H q.
  apply bind_ok_inv in H as (raw & -> & H).
  rewrite (collect_items_lookup _ _ _ _ _ H q).
  now rewrite item_matches_dict by apply dict_of_items_NoDup.
Qed.

Lemma collect_files_lookup (a h : Z) (paths : list string) :
  forall scores scores',
    for_each (collect_file w a h) paths scores = Ok scores' ->
    forall q, lookup_list string_dec q scores' =
              lookup_list string_dec q scores ++
              flat_map (file_matches w q) (map (fun p => (a, h, p)) paths).
Proof.
  induction paths as [|p paths IH]; simpl; intros scores scores' H q.
  - injection H as <-. now rewrite app_nil_r.
  - apply bind_ok_inv in H as (s1 & H1 & H2).
    rewrite (IH _ _ H2 q), (collect_file_lookup _ _ _ _ _ H1 q).
    now rewrite <- app_assoc.
Qed.

(** The list collected for a query holds what the result files yield
    for it, in the order of reading. *)
Lemma collect_models_lookup (index_to_hmms : list (string * hmm_entry)) :
  forall scores scores',
    for_each (collect_model w) index_to_hmms scores = Ok scores' ->
    forall q, lookup_list string_dec q scores' =
              lookup_list string_dec q scores ++ found_matches w index_to_hmms q.
Proof.
  unfold found_matches.
  induction index_to_hmms as [|[index [[[hmmdir a] h] n]] m IH]; simpl;
    intros scores scores' H q.
  - injection H as <-. now rewrite app_nil_r.
  - apply bind_ok_inv in H as (s1 & H1 & H2).
    rewrite (IH _ _ H2 q), (collect_files_lookup _ _ _ _ _ H1 q).
    now rewrite flat_map_app, <- app_assoc.
Qed.

Lemma collect_item_appended (a h : Z) (item : string * list Q)
  (scores scores' : list (string * list scored_match)) :
  appended_only scores -> collect_item a h scores item = Ok scores' ->
  appended_only scores'.
Proof.
  destruct item as [t sc]. unfold collect_item.
  destruct (nth_error sc 1); [|discriminate].
  intros [ND NE] H. injection H as <-. split.
  - now apply dict_append_NoDup.
  - now apply dict_append_nonempty.
Qed.

Lemma collect_file_appended (a h : Z) (path : string)
  (scores scores' : list (string * list scored_match)) :
  appended_only scores -> collect_file w a h scores path = Ok scores' ->
  appended_only scores'.
Proof.
  unfold collect_file. intros Hs H.
  apply bind_ok_inv in H as (raw & _ & H).
  apply (for_each_invariant _ (fun _ s => appended_only s) _ _ _ Hs) in H;
    [assumption|].
  intros ? ? ? ?. apply collect_item_appended.
Qed.

Lemma collect_model_appended (item : string * hmm_entry)
  (scores scores' : list (string * list scored_match)) :
  appended_only scores -> collect_model w scores item = Ok scores' ->
  appended_only scores'.
Proof.
  destruct item as [index [[[hmmdir a] h] n]]. unfold collect_model.
  intros Hs H.
  apply (for_each_invariant _ (fun _ s => appended_only s) _ _ _ Hs) in H;
    [assumption|].
  intros ? ? ? ?. apply collect_file_appended.
Qed.

Lemma collect_scores_appended (index_to_hmms : list (string * hmm_entry))
  (scores : list (string * list scored_match)) :
  collect_scores w index_to_hmms = Ok scores -> appended_only scores.
Proof.
  unfold collect_scores. intros H.
  apply (for_each_invariant _ (fun _ s => appended_only s)) in H;
    [assumption | split; [constructor | contradiction] |].
  intros ? ? ? ?. apply collect_model_appended.
Qed.

Lemma collect_scores_lookup (index_to_hmms : list (string * hmm_entry))
  (scores : list (string * list scored_match)) :
  collect_scores w index_to_hmms = Ok scores ->
  forall q, lookup_list string_dec q scores = found_matches w index_to_hmms q.
Proof.
  intros H q. apply (collect_models_lookup _ _ _ H q).
Qed.

(** Reading succeeds when every result file is well formed. *)
Lemma collect_scores_total (index_to_hmms : list (string * hmm_entry)) :
  readable w index_to_hmms ->
  exists scores, collect_scores w index_to_hmms = Ok scores.
Proof.
  intros R. unfold collect_scores. apply for_each_total.
  intros [index [[[hmmdir a] h] n]] Hitem s. unfold collect_model.
  apply for_each_total. intros path Hpath s1. unfold collect_file.
  destruct (R a h path) as (raw & -> & Hlen).
  { unfold result_files. apply in_flat_map. eexists; split; [exact Hitem|].
    simpl. now apply in_map. }
  simpl. apply for_each_total. intros [t sc] Hit s2. unfold collect_item.
  specialize (Hlen t sc Hit).
  destruct sc as [|x0 [|x1 sc]]; simpl in *; try lia. eauto.
Qed.

Lemma rank_scores_keys (scores : list (string * list scored_match)) :
  dict_keys (rank_scores scores) = dict_keys scores.
Proof.
  unfold rank_scores, dict_keys. rewrite map_map. reflexivity.
Qed.

Lemma rank_scores_get (q : string) (scores : list (string * list scored_match)) :
  dict_get string_dec q (rank_scores scores) =
  option_map (py_sorted bitscore_of Qltb true) (dict_get string_dec q scores).
Proof.
  induction scores as [|[t l] scores IH]; simpl; [reflexivity|].
  destruct (string_dec q t); [reflexivity | assumption].
Qed.

Lemma rank_scores_lookup (q : string) (scores : list (string * list scored_match)) :
  lookup_list string_dec q (rank_scores scores) =
  py_sorted bitscore_of Qltb true (lookup_list string_dec q scores).
Proof.
  unfold lookup_list. rewrite rank_scores_get.
  now destruct (dict_get string_dec q scores).
Qed.

Lemma rank_scores_appended (scores : list (string * list scored_match)) :
  appended_only scores -> appended_only (rank_scores scores).
Proof.
  intros [ND NE]. split; [now rewrite rank_scores_keys|].
  intros q l I. unfold rank_scores in I. apply in_map_iff in I as ([t l0] & E & I).
  injection E as <- <-. intros C.
  apply (py_sorted_nil bitscore_of Qltb true) in C. now apply (NE t l0).
Qed.

(** No list of a mapping returned by [getHMMSearchResults] is empty. *)
Lemma getHMMSearchResults_appended (index_to_hmms : list (string * hmm_entry))
  (scores : list (string * list scored_match)) :
  getHMMSearchResults w index_to_hmms = Ok scores -> appended_only scores.
Proof.
  unfold getHMMSearchResults. intros H.
  apply bind_ok_inv in H as (collected & Hc & H). injection H as <-.
  apply rank_scores_appended. eapply collect_scores_appended; eassumption.
Qed.

End CollectorFacts.

Lemma StronglySorted_weaken {A : Type} (R R' : A -> A -> Prop) (l : list A) :
  (forall x y, R x y -> R' x y) -> StronglySorted R l -> StronglySorted R' l.
Proof.
  intros HR. induction 1 as [|x l Hs IH Hx]; constructor; [assumption|].
  eapply Forall_impl; [|exact Hx]. auto.
Qed.

Lemma Permutation_filter_length {A : Type} (f : A -> bool) (l l' : list A) :
  Permutation l l' -> List.length (filter f l) = List.length (filter f l').
Proof.
  induction 1 as [|x l l' _ IH|x y l|l l' l'' _ IH1 _ IH2]; simpl.
  - reflexivity.
  - destruct (f x); simpl; congruence.
  - destruct (f x), (f y); reflexivity.
  - congruence.
Qed.

(** A well-formed result file yields one match for a query it reports
    and none for any other query. *)
Lemma file_matches_cases (w : World) (q : string) (a h : Z) (path : string) :
  (exists raw, read_scores w path = Ok raw /\
     forall q score, In (q, score) (dict_of_items string_dec raw) ->
       (2 <= List.length score)%nat) ->
  (reports w q path = true /\ exists bit, file_matches w q (a, h, path) = [(a, h, bit)]) \/
  (reports w q path = false /\ file_matches w q (a, h, path) = []).
Proof.
  intros (raw & Hr & Hlen). unfold reports, file_matches. rewrite Hr.
  destruct (dict_get string_dec q (dict_of_items string_dec raw)) as [sc|] eqn:G;
    [left | right; split; reflexivity].
  apply dict_get_In, Hlen in G.
  destruct sc as [|x0 [|x1 sc]]; simpl in *; try lia. eauto.
Qed.

(** Among the matches found for a query, those of a given model are
    as many as the result files read for that model that report the
    query. *)
Lemma found_matches_count (w : World) (q : string) (a h : Z)
  (files : list (Z * Z * string)) :
  (forall a' h' path, In (a', h', path) files ->
     exists raw, read_scores w path = Ok raw /\
       forall q score, In (q, score) (dict_of_items string_dec raw) ->
         (2 <= List.length score)%nat) ->
  List.length (filter (of_model a h) (flat_map (file_matches w q) files)) =
  List.length (filter (fun f => file_of_model a h f && reports w q (snd f)) files).
Proof.
  induction files as [|[[a' h'] path] files IH]; intros R; [reflexivity|].
  cbn [flat_map]. rewrite filter_app, length_app, IH
    by (intros; eapply R; right; eassumption).
  cbn [filter file_of_model snd].
  destruct (file_matches_cases w q a' h' path) as [[-> [bit ->]]|[-> ->]].
  { eapply R. now left. }
  - simpl. unfold of_model; simpl. rewrite andb_true_r.
    now destruct ((a' =? a) && (h' =? h)).
  - rewrite andb_false_r. reflexivity.
Qed.

(** C3. In the mapping returned by [getHMMSearchResults] the list of
    every query is in descending order of bit-score, and it holds the
    entries appended for that query, those of equal bit-score in the
    order in which they were appended. *)
Theorem getHMMSearchResults_ranked (w : World)
  (index_to_hmms : list (string * hmm_entry))
  (scores : list (string * list scored_match)) :
  getHMMSearchResults w index_to_hmms = Ok scores ->
  exists collected,
    collect_scores w index_to_hmms = Ok collected /\
    dict_keys scores = dict_keys collected /\
    forall q l, dict_get string_dec q scores = Some l ->
      StronglySorted (fun x y => (bitscore_of y <= bitscore_of x)%Q) l /\
      exists appended,
        dict_get string_dec q collected = Some appended /\
        Permutation l appended /\
        forall s : Q,
          filter (fun m => Qeq_bool (bitscore_of m) s) l =
          filter (fun m => Qeq_bool (bitscore_of m) s) appended.
Proof.
  unfold getHMMSearchResults. intros H.
  apply bind_ok_inv in H as (collected & Hc & H). injection H as <-.
  exists collected. split; [assumption|]. split; [apply rank_scores_keys|].
  intros q l Hq. rewrite rank_scores_get in Hq.
  destruct (dict_get string_dec q collected) as [l0|]; [|discriminate].
  injection Hq as <-. split.
  - eapply StronglySorted_weaken;
      [|apply (py_sorted_descending bitscore_of Qltb Qltb_asym Qltb_negtrans)].
    intros x y. apply Qltb_false.
  - exists l0. split; [reflexivity|].
    split; [apply (py_sorted_perm bitscore_of Qltb true)|].
    intros s.
    rewrite (filter_ext _ (fun m => tied Qltb (bitscore_of m) s))
      by (intros; now rewrite tied_Qltb).
    rewrite (filter_ext (fun m => Qeq_bool (bitscore_of m) s)
               (fun m => tied Qltb (bitscore_of m) s))
      by (intros; now rewrite tied_Qltb).
    apply (py_sorted_stable bitscore_of Qltb Qltb_negtrans true).
Qed.

Lemma getHMMSearchResults_ranked_witness :
  exists collected,
    collect_scores Sample.three_models Sample.three_models_mapping = Ok collected /\
    dict_keys Sample.three_models_ranked = dict_keys collected /\
    forall q l, dict_get string_dec q Sample.three_models_ranked = Some l ->
      StronglySorted (fun x y => (bitscore_of y <= bitscore_of x)%Q) l /\
      exists appended,
        dict_get string_dec q collected = Some appended /\
        Permutation l appended /\
        forall s : Q,
          filter (fun m => Qeq_bool (bitscore_of m) s) l =
          filter (fun m => Qeq_bool (bitscore_of m) s) appended.
Proof.
  apply (getHMMSearchResults_ranked Sample.three_models Sample.three_models_mapping).
  vm_compute. reflexivity.
Defined.

(** C5, as the code has it: two shards of one model that both report
    a query give that query two matches for the model. *)
Lemma getHMMSearchResults_two_shards_duplicate :
  exists scores,
    getHMMSearchResults Sample.two_shards Sample.two_shards_mapping = Ok scores /\
    List.length (filter (of_model 1 0) (lookup_list string_dec "Q1" scores)) = 2%nat.
Proof.
  eexists. split; vm_compute; reflexivity.
Qed.

(** C5, amended. When every result file is well formed,
    [getHMMSearchResults] returns a mapping whose keys are the queries
    reported by some result file read for a model of the descriptor
    mapping, and the list of a query holds one match for each reading
    of a result file that reports it: for every model, as many matches
    as result files read for the model report the query. *)
Theorem getHMMSearchResults_one_match_per_file (w : World)
  (index_to_hmms : list (string * hmm_entry)) :
  readable w index_to_hmms ->
  exists scores,
    getHMMSearchResults w index_to_hmms = Ok scores /\
    NoDup (dict_keys scores) /\
    forall q,
      Permutation (lookup_list string_dec q scores)
                  (found_matches w index_to_hmms q) /\
      (In q (dict_keys scores) <->
       exists a h path, In (a, h, path) (result_files w index_to_hmms) /\
                        reports w q path = true) /\
      forall a h,
        List.length (filter (of_model a h) (lookup_list string_dec q scores)) =
        List.length (filter (fun f => file_of_model a h f && reports w q (snd f))
                       (result_files w index_to_hmms)).
Proof.
  intros R. destruct (collect_scores_total w _ R) as [collected Hc].
  exists (rank_scores collected). unfold getHMMSearchResults. rewrite Hc.
  split; [reflexivity|].
  destruct (rank_scores_appended _ (collect_scores_appended w _ _ Hc)) as [ND NE].
  split; [assumption|]. intros q.
  assert (P : Permutation (lookup_list string_dec q (rank_scores collected))
                (found_matches w index_to_hmms q)).
  { rewrite rank_scores_lookup, (collect_scores_lookup w _ _ Hc).
    apply py_sorted_perm. }
  split; [assumption|]. split.
  - split.
    + intros Hk. unfold lookup_list in P.
      destruct (dict_get string_dec q (rank_scores collected)) as [[|x l]|] eqn:G.
      * apply dict_get_In in G. now apply NE in G.
      * assert (Hx : In x (found_matches w index_to_hmms q))
          by (eapply Permutation_in; [exact P | now left]).
        apply in_flat_map in Hx as ([[a h] path] & Hf & Hx).
        exists a, h, path. split; [assumption|].
        destruct (file_matches_cases w q a h path (R _ _ _ Hf))
          as [[Hr _]|[_ E]]; [assumption|].
        rewrite E in Hx. contradiction.
      * apply dict_get_None in G. contradiction.
    + intros (a & h & path & Hf & Hr).
      destruct (file_matches_cases w q a h path (R _ _ _ Hf))
        as [[_ [bit E]]|[Hr' _]]; [|congruence].
      assert (Hx : In (a, h, bit) (lookup_list string_dec q (rank_scores collected))).
      { eapply Permutation_in; [symmetry; exact P|].
        apply in_flat_map. exists (a, h, path). split; [assumption|].
        rewrite E. now left. }
      unfold lookup_list in Hx.
      destruct (dict_get string_dec q (rank_scores collected)) eqn:G;
        [|contradiction].
      apply dict_get_In in G. unfold dict_keys.
      change q with (fst (q, l)). now apply in_map.
  - intros a h. rewrite (Permutation_filter_length _ _ _ P).
    apply found_matches_count. exact R.
Qed.

Lemma getHMMSearchResults_one_match_per_file_witness :
  exists scores,
    getHMMSearchResults Sample.two_shards Sample.two_shards_mapping = Ok scores /\
    NoDup (dict_keys scores) /\
    forall q,
      Permutation (lookup_list string_dec q scores)
                  (found_matches Sample.two_shards Sample.two_shards_mapping q) /\
      (In q (dict_keys scores) <->
       exists a h path,
         In (a, h, path) (result_files Sample.two_shards Sample.two_shards_mapping) /\
         reports Sample.two_shards q path = true) /\
      forall a h,
        List.length (filter (of_model a h) (lookup_list string_dec q scores)) =
        List.length (filter (fun f => file_of_model a h f &&
                                      reports Sample.two_shards q (snd f))
                       (result_files Sample.two_shards Sample.two_shards_mapping)).
Proof.
  apply (getHMMSearchResults_one_match_per_file
           Sample.two_shards Sample.two_shards_mapping).
  intros a h path H. vm_compute in H.
  destruct H as [E|[E|[]]]; injection E as <- <- <-;
    (eexists; split; [vm_compute; reflexivity|]);
    intros q score I; vm_compute in I; destruct I as [I|[]];
    injection I as <- <-; simpl; lia.
Defined.

Lemma assignQueryToSubset_top_ranked_witness :
  exists qa,
    assignQueryToSubset Sample.three_models_ranked [] [] = Ok qa /\
    NoDup (dict_keys qa) /\
    (forall q top rest,
       dict_get string_dec q Sample.three_models_ranked = Some (top :: rest) ->
       In q (lookup_list Z.eq_dec (alignment_of top) qa) /\
       (forall a, In q (lookup_list Z.eq_dec a qa) -> a = alignment_of top) /\
       occurrences q qa = 1%nat) /\
    (forall q,
       dict_get string_dec q Sample.three_models_ranked = None ->
       occurrences q qa = 0%nat /\
       forall a, ~ In q (lookup_list Z.eq_dec a qa)).
Proof.
  apply (assignQueryToSubset_top_ranked Sample.three_models_ranked [] []).
  - vm_compute. repeat constructor; simpl; intuition discriminate.
  - intros q l H. vm_compute in H.
    destruct H as [E|[E|[]]]; injection E as <- <-; discriminate.
Defined.

(** C4, as the code has it: a query with an empty ranked list makes
    the resolver raise an index error, and the assignment of the other
    queries is lost with it. *)
Lemma assignQueryToSubset_empty_list_raises :
  assignQueryToSubset
    [("Q1", [(2, 0, (61 # 1)%Q)]); ("Q2", [])] [] [] = Raise IndexError.
Proof.
  reflexivity.
Qed.

(** C4, amended. [assignQueryToSubset] raises an index error exactly
    when some query of the mapping has an empty ranked list, and
    returns an assignment exactly when no ranked list is empty; it
    returns an assignment for every mapping that
    [getHMMSearchResults] returns. *)
Theorem assignQueryToSubset_fails_on_empty_list
  (hmm_indexes : list hmm_index) (index_to_hmms : list (string * hmm_entry)) :
  (forall scores,
     (exists q, In (q, []) scores) <->
     assignQueryToSubset scores hmm_indexes index_to_hmms = Raise IndexError) /\
  (forall scores,
     (forall q l, In (q, l) scores -> l <> []) <->
     exists qa, assignQueryToSubset scores hmm_indexes index_to_hmms = Ok qa) /\
  (forall w m scores,
     getHMMSearchResults w m = Ok scores ->
     exists qa, assignQueryToSubset scores hmm_indexes index_to_hmms = Ok qa).
Proof.
  unfold assignQueryToSubset.
  assert (A : forall scores,
    (forall q l, In (q, l) scores -> l <> []) <->
    exists qa, for_each assign_step scores [] = Ok qa).
  { intros scores.
    destruct (assign_loop_cases scores []) as [[Hne Hok]|[[q Hq] Hr]].
    - tauto.
    - split; [intros Hne; exfalso; now apply (Hne q [])|].
      intros [qa Hqa]. congruence. }
  split; [|split].
  - intros scores.
    destruct (assign_loop_cases scores []) as [[Hne [qa Hok]]|[[q Hq] Hr]].
    + split; [intros [q Hq]; exfalso; now apply (Hne q []) | congruence].
    + split; eauto.
  - exact A.
  - intros w m scores H. apply A.
    apply getHMMSearchResults_appended in H as [_ NE]. exact NE.
Qed.

(* ----------------------------------------------------------------- *)
(** ** The catalog builder *)

Lemma in_range_spec (lower upper : Z) (n_paths : nat) (num_seq : Z) :
  in_range lower upper n_paths num_seq = true <->
  (lower <= num_seq <= upper \/ n_paths = 1%nat).
Proof.
  unfold in_range.
  rewrite orb_true_iff, andb_true_iff, Z.leb_le, Z.geb_le, Nat.eqb_eq. lia.
Qed.

Section CatalogFacts.
Variable w : World.
Variables lower upper : Z.
Variable n_paths : nat.

Lemma obtain_step_decides (st : list hmm_index * list (string * hmm_entry))
  (path : string) :
  obtain_step w lower upper n_paths st path =
  (d <- descriptor_step w lower upper n_paths path ;; Ok (add_item st d)).
Proof.
  destruct st as [hmm_indexes index_to_hmms]. unfold obtain_step, descriptor_step.
  destruct (read_num_seq w path) as [n|e]; simpl; [|reflexivity].
  destruct (in_range lower upper n_paths n); [|reflexivity].
  destruct (catalog_entry w path n) as [[tuple [index val]]|e]; reflexivity.
Qed.

(** A normal run of the loop has taken a decision for every path, and
    its state holds the tuples of the included descriptors in the
    order of the paths, and the mapping written in that order. *)
Lemma obtain_steps_ok (paths : list string) :
  forall st st',
    for_each (obtain_step w lower upper n_paths) paths st = Ok st' ->
    exists ds,
      Forall2 (fun p d => descriptor_step w lower upper n_paths p = Ok d) paths ds /\
      st' = (fst st ++ map fst (somes ds),
             fold_left (dict_write string_dec) (map snd (somes ds)) (snd st)).
Proof.
  induction paths as [|p paths IH]; intros st st' H.
  - simpl in H. injection H as <-. exists []. split; [constructor|].
    simpl. rewrite app_nil_r. now destruct st.
  - cbn [for_each] in H. apply bind_ok_inv in H as (s1 & H1 & H2).
    rewrite obtain_step_decides in H1.
    apply bind_ok_inv in H1 as (d & Hd & H1). injection H1 as <-.
    destruct (IH _ _ H2) as (ds & Hds & ->).
    exists (d :: ds). split; [now constructor|].
    destruct d as [[tuple [index val]]|]; simpl; [|reflexivity].
    now rewrite <- app_assoc.
Qed.

Lemma obtain_steps_total (paths : list string) :
  (forall p, In p paths -> exists d, descriptor_step w lower upper n_paths p = Ok d) ->
  forall st, exists st', for_each (obtain_step w lower upper n_paths) paths st = Ok st'.
Proof.
  intros H. apply for_each_total. intros p Hp st.
  rewrite obtain_step_decides. destruct (H p Hp) as [d ->]. simpl. eauto.
Qed.

Lemma obtain_steps_raise (paths : list string) (p : string) (e : exn) :
  In p paths -> descriptor_step w lower upper n_paths p = Raise e ->
  forall st, exists e', for_each (obtain_step w lower upper n_paths) paths st = Raise e'.
Proof.
  intros Hp He. apply for_each_raises with (x := p); [assumption|].
  intros st. rewrite obtain_step_decides, He. simpl. eauto.
Qed.

Lemma descriptor_step_ok (path : string) (d : option catalog_item) :
  descriptor_step w lower upper n_paths path = Ok d ->
  exists n, read_num_seq w path = Ok n /\
    match d with
    | Some item => (lower <= n <= upper \/ n_paths = 1%nat) /\
                   catalog_entry w path n = Ok item
    | None => ~ (lower <= n <= upper \/ n_paths = 1%nat)
    end.
Proof.
  unfold descriptor_step. intros H.
  apply bind_ok_inv in H as (n & Hn & H). exists n. split; [assumption|].
  destruct (in_range lower upper n_paths n) eqn:R.
  - apply bind_ok_inv in H as (item & Hi & H). injection H as <-.
    split; [now apply in_range_spec | assumption].
  - injection H as <-. rewrite <- in_range_spec. congruence.
Qed.

Lemma catalog_entry_ok (path : string) (n : Z) (item : catalog_item) :
  catalog_entry w path n = Ok item ->
  let dirname := py_dirname path in
  path_exists w (subalignment_path_of dirname) = true /\
  exists lines a h,
    int_of (hd EmptyString
      (split_on " "%char
         (popen_read w ("wc -l " ++ subalignment_path_of dirname)))) = Ok lines /\
    parse_index (index_of dirname) = Ok (a, h) /\
    item = ((a, lines / 2, h, n), (index_of dirname, (dirname, a, h, n))).
Proof.
  unfold catalog_entry. cbv zeta. intros H.
  set (dirname := py_dirname path) in *.
  destruct (path_exists w (subalignment_path_of dirname)); simpl in H;
    [|discriminate].
  split; [reflexivity|].
  apply bind_ok_inv in H as (lines & Hl & H).
  apply bind_ok_inv in H as ([a h] & Hp & H). injection H as <-.
  exists lines, a, h. auto.
Qed.

End CatalogFacts.

(** A normal return of [obtainHMMs]: every path got its decision, the
    tuple list is the sorted list of the tuples of the included
    descriptors, and the mapping is the dictionary written from their
    keys and values in the order of the paths. *)
Lemma obtainHMMs_ok (w : World) (indir : string) (lower upper : Z)
  (hmmbuild_paths : list string)
  (hmm_indexes : list hmm_index) (index_to_hmms : list (string * hmm_entry)) :
  obtainHMMs w indir lower upper hmmbuild_paths = Ok (hmm_indexes, index_to_hmms) ->
  let paths := effective_paths w indir hmmbuild_paths in
  exists ds,
    Forall2 (fun p d => descriptor_step w lower upper (List.length paths) p = Ok d)
      paths ds /\
    obtain_loop w lower upper paths =
      Ok (map fst (somes ds), dict_of_items string_dec (map snd (somes ds))) /\
    hmm_indexes = py_sorted subalignment_size_of Z.ltb true (map fst (somes ds)) /\
    index_to_hmms = dict_of_items string_dec (map snd (somes ds)).
Proof.
  unfold obtainHMMs. cbv zeta. intros H.
  set (paths := effective_paths w indir hmmbuild_paths) in *.
  apply bind_ok_inv in H as ([pre m] & Hloop & H). injection H as <- <-.
  unfold obtain_loop in *.
  destruct (obtain_steps_ok _ _ _ _ _ _ _ Hloop) as (ds & Hds & E).
  simpl in E. injection E as -> ->.
  exists ds. rewrite Hloop. repeat split; assumption.
Qed.

(** [obtainHMMs] returns when the turn of every path does. *)
Lemma obtainHMMs_returns (w : World) (indir : string) (lower upper : Z)
  (hmmbuild_paths : list string) :
  (forall p, In p (effective_paths w indir hmmbuild_paths) ->
     exists d, descriptor_step w lower upper
                 (List.length (effective_paths w indir hmmbuild_paths)) p = Ok d) ->
  exists hmm_indexes index_to_hmms,
    obtainHMMs w indir lower upper hmmbuild_paths = Ok (hmm_indexes, index_to_hmms).
Proof.
  intros H. unfold obtainHMMs, obtain_loop. cbv zeta.
  destruct (obtain_steps_total _ _ _ _ _ H ([], [])) as [[pre m] ->].
  simpl. eauto.
Qed.

(** A path whose turn raises makes [obtainHMMs] raise. *)
Lemma obtainHMMs_raise (w : World) (indir : string) (lower upper : Z)
  (hmmbuild_paths : list string) (p : string) (e : exn) :
  let paths := effective_paths w indir hmmbuild_paths in
  In p paths ->
  descriptor_step w lower upper (List.length paths) p = Raise e ->
  exists e', obtainHMMs w indir lower upper hmmbuild_paths = Raise e'.
Proof.
  intros paths Hp He. unfold obtainHMMs, obtain_loop. fold paths.
  destruct (obtain_steps_raise _ _ _ _ _ _ _ Hp He ([], [])) as [e' ->].
  simpl. eauto.
Qed.

Section DictOfItemsFacts.
Context {K V : Type}.
Variable K_eq_dec : forall x y : K, {x = y} + {x <> y}.

Lemma written_get_other (k : K) (items : list (K * V)) :
  ~ In k (map fst items) ->
  forall d, dict_get K_eq_dec k (fold_left (dict_write K_eq_dec) items d) = dict_get K_eq_dec k d.
Proof.
  induction items as [|[k' v'] items IH]; simpl; intros N d; [reflexivity|].
  rewrite IH by tauto. unfold dict_write; simpl.
  apply dict_get_set_other. intros ->. tauto.
Qed.

Lemma written_keys (k : K) (items : list (K * V)) :
  forall d, In k (dict_keys (fold_left (dict_write K_eq_dec) items d)) <->
            In k (dict_keys d) \/ In k (map fst items).
Proof.
  induction items as [|[k' v'] items IH]; simpl; intros d; [tauto|].
  rewrite IH. unfold dict_write; simpl. rewrite dict_keys_set.
  destruct (in_dec K_eq_dec k' (dict_keys d)) as [I|I].
  - split; [tauto|]. intros [H|[<-|H]]; tauto.
  - rewrite in_app_iff; simpl. split; [intros [[H|[H|[]]]|H] | intros [H|[H|H]]];
      tauto.
Qed.

Lemma written_length (items : list (K * V)) :
  forall d, (List.length (fold_left (dict_write K_eq_dec) items d) <=
             List.length d + List.length items)%nat.
Proof.
  induction items as [|kv items IH]; simpl; intros d; [lia|].
  specialize (IH (dict_write K_eq_dec d kv)).
  assert (L : (List.length (dict_write K_eq_dec d kv) <= S (List.length d))%nat)
    by apply dict_set_length.
  lia.
Qed.

(** The key of an item is bound to the value of the last item written
    under that key. *)
Lemma dict_of_items_last (k : K) (v : V) (before after : list (K * V)) :
  ~ In k (map fst after) ->
  dict_get K_eq_dec k (dict_of_items K_eq_dec (before ++ (k, v) :: after)) = Some v.
Proof.
  intros N. unfold dict_of_items.
  rewrite fold_left_app. simpl. rewrite written_get_other by assumption.
  apply dict_get_set_same.
Qed.

Lemma dict_of_items_keys (k : K) (items : list (K * V)) :
  In k (dict_keys (dict_of_items K_eq_dec items)) <-> In k (map fst items).
Proof.
  unfold dict_of_items. rewrite written_keys. simpl. tauto.
Qed.

Lemma dict_of_items_length (items : list (K * V)) :
  (List.length (dict_of_items K_eq_dec items) <= List.length items)%nat.
Proof.
  unfold dict_of_items.
  pose proof (written_length items []). simpl in *. lia.
Qed.

End DictOfItemsFacts.

Lemma Forall2_In_l {A B : Type} (R : A -> B -> Prop) (l : list A) (l' : list B) (x : A) :
  Forall2 R l l' -> In x l -> exists y, In y l' /\ R x y.
Proof.
  induction 1 as [|a b l l' Hab _ IH]; simpl; [contradiction|].
  intros [<-|I]; [eauto|]. destruct (IH I) as (y & Hy & HR). eauto.
Qed.

Lemma in_somes {A : Type} (a : A) (l : list (option A)) :
  In a (somes l) <-> In (Some a) l.
Proof.
  unfold somes. rewrite in_flat_map. split.
  - intros ([b|] & I & H); simpl in H; [|contradiction].
    destruct H as [<-|[]]. assumption.
  - intros I. exists (Some a). split; [assumption | now left].
Qed.

(** C2. When [obtainHMMs] returns, every descriptor file it processed
    has an NSEQ value, and the file is included exactly when that
    value lies in [[lower, upper]] or the file is the only one
    processed; the tuple list holds the tuples of the included files
    and the keys of the mapping are their directory basenames. *)
Theorem obtainHMMs_size_filter (w : World) (indir : string) (lower upper : Z)
  (hmmbuild_paths : list string)
  (hmm_indexes : list hmm_index) (index_to_hmms : list (string * hmm_entry)) :
  obtainHMMs w indir lower upper hmmbuild_paths = Ok (hmm_indexes, index_to_hmms) ->
  exists decisions : list (option catalog_item),
    Forall2
      (fun path decision =>
         exists num_seq,
           read_num_seq w path = Ok num_seq /\
           match decision with
           | Some item =>
               (lower <= num_seq <= upper \/
                List.length (effective_paths w indir hmmbuild_paths) = 1%nat) /\
               catalog_entry w path num_seq = Ok item
           | None =>
               ~ (lower <= num_seq <= upper \/
                  List.length (effective_paths w indir hmmbuild_paths) = 1%nat)
           end)
      (effective_paths w indir hmmbuild_paths) decisions /\
    Permutation hmm_indexes (map fst (somes decisions)) /\
    forall index,
      In index (dict_keys index_to_hmms) <->
      In index (map (fun item : catalog_item => fst (snd item)) (somes decisions)).
Proof.
  intros H. destruct (obtainHMMs_ok _ _ _ _ _ _ _ H) as (ds & Hds & _ & -> & ->).
  exists ds. split; [|split].
  - eapply Forall2_impl; [|exact Hds]. intros p d. apply descriptor_step_ok.
  - apply py_sorted_perm.
  - intros index. rewrite dict_of_items_keys, map_map. reflexivity.
Qed.

Lemma obtainHMMs_size_filter_witness :
  exists decisions : list (option catalog_item),
    Forall2
      (fun path decision =>
         exists num_seq,
           read_num_seq Sample.three_models path = Ok num_seq /\
           match decision with
           | Some item =>
               (20 <= num_seq <= 100 \/
                List.length (effective_paths Sample.three_models "/r" []) = 1%nat) /\
               catalog_entry Sample.three_models path num_seq = Ok item
           | None =>
               ~ (20 <= num_seq <= 100 \/
                  List.length (effective_paths Sample.three_models "/r" []) = 1%nat)
           end)
      (effective_paths Sample.three_models "/r" []) decisions /\
    Permutation [(1, 200, 0, 50); (2, 150, 0, 80)] (map fst (somes decisions)) /\
    forall index,
      In index (dict_keys Sample.three_models_mapping) <->
      In index (map (fun item : catalog_item => fst (snd item)) (somes decisions)).
Proof.
  apply (obtainHMMs_size_filter Sample.three_models "/r" 20 100 []).
  vm_compute. reflexivity.
Defined.

(** C8. The tuple list returned by [obtainHMMs] is in descending order
    of its second component, the size of the subset alignment, and
    tuples of equal size are in the order in which the loop appended
    them. *)
Theorem obtainHMMs_sorted_by_subset_size (w : World) (indir : string)
  (lower upper : Z) (hmmbuild_paths : list string)
  (hmm_indexes : list hmm_index) (index_to_hmms : list (string * hmm_entry)) :
  obtainHMMs w indir lower upper hmmbuild_paths = Ok (hmm_indexes, index_to_hmms) ->
  StronglySorted
    (fun x y => subalignment_size_of y <= subalignment_size_of x) hmm_indexes /\
  exists appended,
    obtain_loop w lower upper (effective_paths w indir hmmbuild_paths) =
      Ok (appended, index_to_hmms) /\
    Permutation hmm_indexes appended /\
    forall size,
      filter (fun x => subalignment_size_of x =? size) hmm_indexes =
      filter (fun x => subalignment_size_of x =? size) appended.
Proof.
  intros H. destruct (obtainHMMs_ok _ _ _ _ _ _ _ H) as (ds & _ & Hloop & -> & ->).
  split.
  - eapply StronglySorted_weaken;
      [|apply (py_sorted_descending subalignment_size_of Z.ltb
                 Zltb_asym Zltb_negtrans)].
    intros x y. cbv beta. rewrite Z.ltb_ge. auto.
  - exists (map fst (somes ds)). split; [exact Hloop|].
    split; [apply (py_sorted_perm subalignment_size_of Z.ltb true)|].
    intros size.
    rewrite (filter_ext _ (fun x => tied Z.ltb (subalignment_size_of x) size))
      by (intros; now rewrite tied_Zltb).
    rewrite (filter_ext (fun x => subalignment_size_of x =? size)
               (fun x => tied Z.ltb (subalignment_size_of x) size))
      by (intros; now rewrite tied_Zltb).
    apply (py_sorted_stable subalignment_size_of Z.ltb Zltb_negtrans true).
Qed.

(** C10. The mapping returned by [obtainHMMs] is keyed by the
    directory basename alone: where included descriptors share a
    basename it holds the data of the last of them, while the tuple
    list holds one tuple for each.  The mapping is never longer than
    the tuple list, and for two descriptors in directories of the same
    name it is shorter. *)
Theorem obtainHMMs_same_basename_overwrites :
  (forall w indir lower upper hmmbuild_paths hmm_indexes index_to_hmms,
     obtainHMMs w indir lower upper hmmbuild_paths = Ok (hmm_indexes, index_to_hmms) ->
     exists decisions : list (option catalog_item),
       Forall2
         (fun path decision =>
            descriptor_step w lower upper
              (List.length (effective_paths w indir hmmbuild_paths)) path =
            Ok decision)
         (effective_paths w indir hmmbuild_paths) decisions /\
       List.length hmm_indexes = List.length (somes decisions) /\
       (forall before tuple index val after,
          somes decisions = before ++ (tuple, (index, val)) :: after ->
          ~ In index (map (fun item : catalog_item => fst (snd item)) after) ->
          dict_get string_dec index index_to_hmms = Some val) /\
       (List.length index_to_hmms <= List.length hmm_indexes)%nat) /\
  (exists hmm_indexes index_to_hmms,
     obtainHMMs Sample.same_basename "/r" 20 100 Sample.same_basename_paths =
       Ok (hmm_indexes, index_to_hmms) /\
     hmm_indexes = [(1, 200, 0, 50); (1, 150, 0, 60)] /\
     index_to_hmms = [("A_1_0", ("/r/y/A_1_0", 1, 0, 60))] /\
     (List.length index_to_hmms < List.length hmm_indexes)%nat).
Proof.
  split.
  - intros w indir lower upper hp idx m H.
    destruct (obtainHMMs_ok _ _ _ _ _ _ _ H) as (ds & Hds & _ & -> & ->).
    exists ds. split; [exact Hds|].
    assert (L : List.length (py_sorted subalignment_size_of Z.ltb true
                               (map fst (somes ds))) =
                List.length (somes ds)).
    { rewrite (Permutation_length
                 (py_sorted_perm subalignment_size_of Z.ltb true _)).
      apply length_map. }
    split; [exact L|]. split.
    + intros before tuple index val after E N. rewrite E, map_app. simpl.
      apply dict_of_items_last. now rewrite map_map.
    + rewrite L.
      pose proof (dict_of_items_length string_dec (map snd (somes ds))) as Hl.
      now rewrite length_map in Hl.
  - eexists _, _. split; [vm_compute; reflexivity|].
    repeat split. simpl. lia.
Qed.

(** The directory name [<prefix>_<alignment_ind>_<hmm_ind>] is read by
    splitting it at every underscore: it must give three tokens, the
    last two of which are integers. *)
Lemma parse_index_spec (index : string) (a h : Z) :
  parse_index index = Ok (a, h) <->
  exists prefix ta th,
    split_on "_"%char index = [prefix; ta; th] /\
    py_int ta = Some a /\ py_int th = Some h.
Proof.
  unfold parse_index, drop_first, int_of.
  destruct (split_on "_"%char index) as [|prefix [|ta [|th [|x rest]]]]; simpl;
    try (split; [discriminate | intros (? & ? & ? & E & _); discriminate]).
  split.
  - intros H.
    destruct (py_int ta) as [a'|] eqn:Ea; simpl in H; [|discriminate].
    destruct (py_int th) as [h'|] eqn:Eh; simpl in H; [|discriminate].
    injection H as <- <-. eauto 6.
  - intros (p & ta' & th' & E & Ea & Eh). injection E as -> -> ->.
    rewrite Ea; simpl. rewrite Eh; reflexivity.
Qed.

(** C6, as the code has it: a directory whose prefix contains an
    underscore ends in two integer tokens and still aborts the
    catalog. *)
Lemma obtainHMMs_long_prefix_raises :
  let path := "/r/A_1/sub_set_1_2/hmmbuild.model.1" in
  split_on "_"%char (index_of (py_dirname path)) = ["sub"; "set"; "1"; "2"] /\
  py_int "1" = Some 1 /\ py_int "2" = Some 2 /\
  read_num_seq Sample.long_prefix path = Ok 50 /\
  obtainHMMs Sample.long_prefix "/r" 20 100 [path] = Raise ValueError.
Proof.
  vm_compute. repeat split.
Qed.

(** C6, amended. [obtainHMMs] splits the basename of the directory of
    an included descriptor at every underscore and requires exactly
    three tokens, [<prefix>_<alignment_ind>_<hmm_ind>] with a prefix
    free of underscores: the two indices are the integers of the
    second and third token, which are the last two.  When it returns,
    every included descriptor has such a basename and a tuple with
    these indices; an included descriptor with any other basename
    makes it raise. *)
Theorem obtainHMMs_directory_name (w : World) (indir : string) (lower upper : Z)
  (hmmbuild_paths : list string) :
  (forall index a h,
     parse_index index = Ok (a, h) <->
     exists prefix ta th,
       split_on "_"%char index = [prefix; ta; th] /\
       py_int ta = Some a /\ py_int th = Some h) /\
  (forall hmm_indexes index_to_hmms path num_seq,
     obtainHMMs w indir lower upper hmmbuild_paths = Ok (hmm_indexes, index_to_hmms) ->
     In path (effective_paths w indir hmmbuild_paths) ->
     read_num_seq w path = Ok num_seq ->
     (lower <= num_seq <= upper \/
      List.length (effective_paths w indir hmmbuild_paths) = 1%nat) ->
     exists prefix ta th a h size,
       split_on "_"%char (index_of (py_dirname path)) = [prefix; ta; th] /\
       py_int ta = Some a /\ py_int th = Some h /\
       In (a, size, h, num_seq) hmm_indexes) /\
  (forall path num_seq,
     In path (effective_paths w indir hmmbuild_paths) ->
     read_num_seq w path = Ok num_seq ->
     (lower <= num_seq <= upper \/
      List.length (effective_paths w indir hmmbuild_paths) = 1%nat) ->
     (forall prefix ta th a h,
        ~ (split_on "_"%char (index_of (py_dirname path)) = [prefix; ta; th] /\
           py_int ta = Some a /\ py_int th = Some h)) ->
     exists e, obtainHMMs w indir lower upper hmmbuild_paths = Raise e).
Proof.
  assert (Included : forall hmm_indexes index_to_hmms path num_seq,
     obtainHMMs w indir lower upper hmmbuild_paths = Ok (hmm_indexes, index_to_hmms) ->
     In path (effective_paths w indir hmmbuild_paths) ->
     read_num_seq w path = Ok num_seq ->
     (lower <= num_seq <= upper \/
      List.length (effective_paths w indir hmmbuild_paths) = 1%nat) ->
     exists prefix ta th a h size,
       split_on "_"%char (index_of (py_dirname path)) = [prefix; ta; th] /\
       py_int ta = Some a /\ py_int th = Some h /\
       In (a, size, h, num_seq) hmm_indexes).
  { intros idx m path n H Hp Hn Hr.
    destruct (obtainHMMs_ok _ _ _ _ _ _ _ H) as (ds & Hds & _ & -> & _).
    destruct (Forall2_In_l _ _ _ _ Hds Hp) as (d & Hd & Hstep).
    apply descriptor_step_ok in Hstep as (n' & Hn' & Hcase).
    assert (n' = n) by congruence. subst n'.
    destruct d as [item|]; [|contradiction].
    destruct Hcase as [_ Hentry].
    apply catalog_entry_ok in Hentry as (_ & lines & a & h & _ & Hparse & ->).
    apply parse_index_spec in Hparse as (prefix & ta & th & Hs & Ha & Hh).
    exists prefix, ta, th, a, h, (lines / 2). repeat split; try assumption.
    eapply Permutation_in;
      [symmetry; apply (py_sorted_perm subalignment_size_of Z.ltb true)|].
    apply in_map_iff. eexists. split; [|apply in_somes; exact Hd]. reflexivity. }
  split; [exact parse_index_spec|]. split; [exact Included|].
  intros path n Hp Hn Hr Hbad.
  destruct (obtainHMMs w indir lower upper hmmbuild_paths) as [[idx m]|e] eqn:H;
    [|eauto].
  destruct (Included idx m path n eq_refl Hp Hn Hr)
    as (prefix & ta & th & a & h & _ & Hs & Ha & Hh & _).
  exfalso. apply (Hbad prefix ta th a h). auto.
Qed.

Lemma header_dict_keys (w : World) (path : string) (d : list (string * string)) :
  header_dict w path = Ok d ->
  forall k, In k (dict_keys d) -> In k (header_keys w path).
Proof.
  unfold header_dict, header_keys. intros H.
  refine (for_each_invariant _
    (fun done d => forall k, In k (dict_keys d) ->
       In k (flat_map (fun x => match x with k :: _ => [k] | [] => [] end) done))
    _ _ _ _ _ H).
  - intros k [].
  - intros done [|k0 vs] s s' Hs Hb; [discriminate|]. injection Hb as <-.
    intros k. rewrite dict_keys_set, flat_map_app, in_app_iff. simpl.
    destruct (in_dec string_dec k0 (dict_keys s)); [auto|].
    rewrite in_app_iff. simpl. intros [I|[E|[]]]; auto.
Qed.

(** A header without an NSEQ line stops the descriptor: on a line
    without a token by an index error, else by the assertion. *)
Lemma read_num_seq_without_NSEQ (w : World) (path : string) :
  ~ In "NSEQ" (header_keys w path) ->
  read_num_seq w path = Raise IndexError \/
  read_num_seq w path = Raise AssertionError.
Proof.
  intros N. unfold read_num_seq.
  destruct (header_dict w path) as [d|e] eqn:H; simpl.
  - right.
    destruct (dict_get string_dec "NSEQ" d) as [v|] eqn:G; [|reflexivity].
    exfalso. apply N. eapply header_dict_keys; [exact H|].
    apply dict_get_In in G. unfold dict_keys.
    change "NSEQ" with (fst ("NSEQ", v)). now apply in_map.
  - left. revert H. unfold header_dict.
    generalize (@nil (string * string)).
    induction (split_lines w path) as [|[|k vs] l IH]; simpl; intros d H.
    + discriminate.
    + congruence.
    + eauto.
Qed.

Lemma catalog_entry_without_subset (w : World) (path : string) (num_seq : Z) :
  path_exists w (subalignment_path_of (py_dirname path)) = false ->
  catalog_entry w path num_seq = Raise AssertionError.
Proof.
  unfold catalog_entry. intros ->. reflexivity.
Qed.

(** The scenario of three models gives the assignment of Q1 to
    partition 2 and of Q2 to partition 1. *)
Example pipeline_three_models :
  pipeline Sample.three_models "/r" 20 100 [] = Ok [(2, ["Q1"]); (1, ["Q2"])].
Proof.
  vm_compute. reflexivity.
Qed.

(** [sorted] with [reverse=True] on tuples with repeated sizes: larger
    sizes first, equal sizes in their order of entry. *)
Example py_sorted_repeated_sizes :
  py_sorted subalignment_size_of Z.ltb true
    [(1, 5, 0, 1); (2, 9, 0, 1); (3, 5, 1, 1); (4, 9, 1, 1)] =
  [(2, 9, 0, 1); (4, 9, 1, 1); (1, 5, 0, 1); (3, 5, 1, 1)].
Proof.
  reflexivity.
Qed.

Lemma obtainHMMs_sorted_by_subset_size_witness :
  StronglySorted
    (fun x y => subalignment_size_of y <= subalignment_size_of x)
    [(1, 200, 0, 50); (2, 150, 0, 80)] /\
  exists appended,
    obtain_loop Sample.three_models 20 100
      (effective_paths Sample.three_models "/r" []) =
      Ok (appended, Sample.three_models_mapping) /\
    Permutation [(1, 200, 0, 50); (2, 150, 0, 80)] appended /\
    forall size,
      filter (fun x => subalignment_size_of x =? size)
        [(1, 200, 0, 50); (2, 150, 0, 80)] =
      filter (fun x => subalignment_size_of x =? size) appended.
Proof.
  apply (obtainHMMs_sorted_by_subset_size Sample.three_models "/r" 20 100 []).
  vm_compute. reflexivity.
Defined.

(* ================================================================= *)
(** * Further properties of the three stages *)

(** ** The assignment resolver *)

Lemma assign_loop_buckets (scores : list (string * list scored_match)) :
  forall qa0 qa,
    for_each assign_step scores qa0 = Ok qa ->
    forall a, lookup_list Z.eq_dec a qa =
              lookup_list Z.eq_dec a qa0 ++
              map fst (filter (top_alignment_is a) scores).
Proof.
  induction scores as [|[q [|top rest]] scores IH]; intros qa0 qa H a.
  - simpl in H. injection H as <-. simpl. now rewrite app_nil_r.
  - discriminate.
  - cbn [for_each assign_step bind] in H. rewrite (IH _ _ H a).
    rewrite lookup_list_append, <- app_assoc. f_equal.
    cbn [filter top_alignment_is snd].
    destruct (Z.eq_dec (alignment_of top) a) as [E|N].
    + apply Z.eqb_eq in E. now rewrite E.
    + apply Z.eqb_neq in N. now rewrite N.
Qed.

(** The bucket of an alignment holds, in the order of the mapping,
    the queries whose first ranked entry belongs to that alignment. *)
Theorem assignQueryToSubset_buckets
  (scores : list (string * list scored_match))
  (hmm_indexes : list hmm_index) (index_to_hmms : list (string * hmm_entry))
  (qa : list (Z * list string)) :
  assignQueryToSubset scores hmm_indexes index_to_hmms = Ok qa ->
  forall a, lookup_list Z.eq_dec a qa =
            map fst (filter (top_alignment_is a) scores).
Proof.
  unfold assignQueryToSubset. intros H a.
  now rewrite (assign_loop_buckets _ _ _ H a).
Qed.

Lemma assignQueryToSubset_buckets_witness :
  lookup_list Z.eq_dec 2 [(2, ["Q1"]); (1, ["Q2"])] =
  map fst (filter (top_alignment_is 2) Sample.three_models_ranked).
Proof.
  apply (assignQueryToSubset_buckets Sample.three_models_ranked [] []
           [(2, ["Q1"]); (1, ["Q2"])]).
  reflexivity.
Defined.

Lemma concat_dict_append {K X : Type}
  (K_eq_dec : forall x y : K, {x = y} + {x <> y})
  (k : K) (x : X) (d : list (K * list X)) :
  Permutation (List.concat (map snd (dict_append K_eq_dec k x d)))
              (List.concat (map snd d) ++ [x]).
Proof.
  induction d as [|[k' l] d IH]; simpl; [reflexivity|].
  destruct (K_eq_dec k k'); simpl.
  - rewrite <- !app_assoc. apply Permutation_app_head, Permutation_app_comm.
  - rewrite IH. now rewrite app_assoc.
Qed.

Lemma assign_step_appended (qa qa' : list (Z * list string))
  (item : string * list scored_match) :
  appended_only qa -> assign_step qa item = Ok qa' -> appended_only qa'.
Proof.
  destruct item as [q [|top rest]]; simpl; [discriminate|].
  intros [ND NE] H. injection H as <-. split.
  - now apply dict_append_NoDup.
  - now apply dict_append_nonempty.
Qed.

(** The assignment has one bucket for each alignment that is first in
    the ranked list of some query, none of them empty, and the buckets
    together hold every query of the mapping once. *)
Theorem assignQueryToSubset_partition
  (scores : list (string * list scored_match))
  (hmm_indexes : list hmm_index) (index_to_hmms : list (string * hmm_entry))
  (qa : list (Z * list string)) :
  assignQueryToSubset scores hmm_indexes index_to_hmms = Ok qa ->
  NoDup (dict_keys qa) /\
  (forall a bucket, In (a, bucket) qa -> bucket <> []) /\
  Permutation (List.concat (map snd qa)) (dict_keys scores) /\
  (forall a, In a (dict_keys qa) <->
             exists q top rest, In (q, top :: rest) scores /\ alignment_of top = a).
Proof.
  unfold assignQueryToSubset. intros H.
  assert (A : appended_only qa).
  { refine (for_each_invariant _ (fun _ s => appended_only s) _ _ _ _ _ H).
    - split; [constructor | contradiction].
    - intros ? ? ? ?. apply assign_step_appended. }
  destruct A as [ND NE]. split; [assumption|]. split; [assumption|]. split.
  - refine (for_each_invariant _
      (fun done s => Permutation (List.concat (map snd s)) (dict_keys done))
      _ _ _ _ _ H); [reflexivity|].
    intros done [q [|top rest]] s s' P Hb; simpl in Hb; [discriminate|].
    injection Hb as <-. rewrite concat_dict_append, P.
    unfold dict_keys. now rewrite map_app.
  - intros a.
    pose proof (assign_loop_buckets _ _ _ H a) as B. simpl in B. split.
    + intros Ha. destruct (dict_get Z.eq_dec a qa) as [[|q0 b]|] eqn:G.
      * apply dict_get_In in G. now apply NE in G.
      * unfold lookup_list in B. rewrite G in B.
        assert (I : In q0 (map fst (filter (top_alignment_is a) scores)))
          by (rewrite <- B; now left).
        apply in_map_iff in I as ([q [|top rest]] & _ & I);
          apply filter_In in I as [I T]; unfold top_alignment_is in T;
          simpl in T; [discriminate|].
        apply Z.eqb_eq in T. eauto.
      * apply dict_get_None in G. contradiction.
    + intros (q & top & rest & I & E).
      assert (I' : In q (lookup_list Z.eq_dec a qa)).
      { rewrite B. apply in_map_iff. exists (q, top :: rest). split; [reflexivity|].
        apply filter_In. split; [assumption|].
        unfold top_alignment_is; simpl. now apply Z.eqb_eq. }
      unfold lookup_list in I'.
      destruct (dict_get Z.eq_dec a qa) as [b|] eqn:G; [|contradiction].
      apply dict_get_In in G. unfold dict_keys.
      change a with (fst (a, b)). now apply in_map.
Qed.

Lemma assignQueryToSubset_partition_witness :
  NoDup (dict_keys [(2, ["Q1"]); (1, ["Q2"])]) /\
  (forall a bucket, In (a, bucket) [(2, ["Q1"]); (1, ["Q2"])] -> bucket <> []) /\
  Permutation (List.concat (map snd [(2, ["Q1"]); (1, ["Q2"])]))
              (dict_keys Sample.three_models_ranked) /\
  (forall a, In a (dict_keys [(2, ["Q1"]); (1, ["Q2"])]) <->
             exists q top rest,
               In (q, top :: rest) Sample.three_models_ranked /\
               alignment_of top = a).
Proof.
  apply (assignQueryToSubset_partition Sample.three_models_ranked [] []).
  reflexivity.
Defined.

(* ----------------------------------------------------------------- *)
(** ** The score collector and ranker *)

Lemma for_each_ok_each {S A : Type} (body : S -> A -> result S) (l : list A) :
  forall s s', for_each body l s = Ok s' ->
  forall x, In x l -> exists s1 s2, body s1 x = Ok s2.
Proof.
  induction l as [|y l IH]; intros s s' H x Hx; [contradiction|].
  cbn [for_each] in H. apply bind_ok_inv in H as (s1 & H1 & H2).
  destruct Hx as [<-|Hx]; [eauto | eapply IH; eauto].
Qed.

Lemma filter_head_split {A : Type} (f : A -> bool) (l : list A) (y : A) (ys : list A) :
  filter f l = y :: ys ->
  exists before after,
    l = before ++ y :: after /\ (forall x, In x before -> f x = false).
Proof.
  induction l as [|x l IH]; simpl; [discriminate|].
  destruct (f x) eqn:E; intros H.
  - injection H as <- _. exists [], l. split; [reflexivity | contradiction].
  - destruct (IH H) as (before & after & -> & Hb).
    exists (x :: before), after. split; [reflexivity|].
    intros z [<-|Hz]; auto.
Qed.

Section SortedTopFacts.
Context {A K : Type}.
Variable key : A -> K.
Variable ltb : K -> K -> bool.
Hypothesis ltb_asym : forall a b, ltb a b = true -> ltb b a = false.
Hypothesis ltb_negtrans :
  forall a b c, ltb a b = false -> ltb b c = false -> ltb a c = false.

Lemma ltb_irrefl (k : K) : ltb k k = false.
Proof.
  destruct (ltb k k) eqn:E; [|reflexivity]. now rewrite (ltb_asym _ _ E) in E.
Qed.

(** The first element of a reversed sort: in the input, every element
    before it has a smaller key and no element after it a larger one. *)
Lemma py_sorted_top (l : list A) (top : A) (rest : list A) :
  py_sorted key ltb true l = top :: rest ->
  exists before after,
    l = before ++ top :: after /\
    (forall x, In x before -> ltb (key x) (key top) = true) /\
    (forall x, In x after -> ltb (key top) (key x) = false).
Proof.
  intros S.
  assert (Hmax : forall x, In x l -> ltb (key top) (key x) = false).
  { intros x Hx.
    assert (Hs : In x (top :: rest)).
    { rewrite <- S. eapply Permutation_in; [|exact Hx].
      symmetry. apply py_sorted_perm. }
    pose proof (py_sorted_descending key ltb ltb_asym ltb_negtrans l) as D.
    rewrite S in D. unfold descending in D.
    apply StronglySorted_inv in D as [_ D]. rewrite Forall_forall in D.
    destruct Hs as [<-|Hs]; [apply ltb_irrefl | auto]. }
  pose proof (py_sorted_stable key ltb ltb_negtrans true (key top) l) as St.
  rewrite S in St. cbn [filter] in St.
  assert (T : tied ltb (key top) (key top) = true)
    by (unfold tied; now rewrite ltb_irrefl).
  rewrite T in St. symmetry in St.
  apply filter_head_split in St as (before & after & -> & Hb).
  exists before, after. split; [reflexivity|]. split.
  - intros x Hx. specialize (Hb x Hx). unfold tied in Hb.
    rewrite (Hmax x) in Hb by (apply in_or_app; now left).
    simpl in Hb. rewrite andb_true_r in Hb. now apply negb_false_iff in Hb.
  - intros x Hx. apply Hmax. apply in_or_app. right. now right.
Qed.

End SortedTopFacts.

Lemma ranked_top (w : World)
  (index_to_hmms : list (string * hmm_entry))
  (scores : list (string * list scored_match))
  (q : string) (top : scored_match) (rest : list scored_match) :
  getHMMSearchResults w index_to_hmms = Ok scores ->
  dict_get string_dec q scores = Some (top :: rest) ->
  exists before after,
    found_matches w index_to_hmms q = before ++ top :: after /\
    (forall x, In x before -> (bitscore_of x < bitscore_of top)%Q) /\
    (forall x, In x after -> (bitscore_of x <= bitscore_of top)%Q).
Proof.
  unfold getHMMSearchResults. intros H Hq.
  apply bind_ok_inv in H as (collected & Hc & H). injection H as <-.
  pose proof (rank_scores_lookup q collected) as L.
  unfold lookup_list at 1 in L. rewrite Hq in L.
  rewrite (collect_scores_lookup w _ _ Hc q) in L. symmetry in L.
  apply (py_sorted_top bitscore_of Qltb Qltb_asym Qltb_negtrans) in L
    as (before & after & E & Hb & Ha).
  exists before, after. split; [assumption|]. split.
  - intros x Hx. apply Qltb_true. auto.
  - intros x Hx. apply Qltb_false. auto.
Qed.

(** The first entry of the ranked list of a query is, among the
    matches found for the query, the first one with the highest
    bit-score: the matches found before it score lower, those found
    after it score no higher. *)
Theorem getHMMSearchResults_top_is_first_best (w : World)
  (index_to_hmms : list (string * hmm_entry))
  (scores : list (string * list scored_match))
  (q : string) (top : scored_match) (rest : list scored_match) :
  getHMMSearchResults w index_to_hmms = Ok scores ->
  dict_get string_dec q scores = Some (top :: rest) ->
  exists before after,
    found_matches w index_to_hmms q = before ++ top :: after /\
    (forall x, In x before -> (bitscore_of x < bitscore_of top)%Q) /\
    (forall x, In x after -> (bitscore_of x <= bitscore_of top)%Q).
Proof.
  intros H Hq. exact (ranked_top w index_to_hmms scores q top rest H Hq).
Qed.

Lemma getHMMSearchResults_top_is_first_best_witness :
  exists before after,
    found_matches Sample.tied_models Sample.three_models_mapping "Q1" =
      before ++ Sample.tied_first :: after /\
    (forall x, In x before -> (bitscore_of x < bitscore_of Sample.tied_first)%Q) /\
    (forall x, In x after -> (bitscore_of x <= bitscore_of Sample.tied_first)%Q).
Proof.
  apply (getHMMSearchResults_top_is_first_best
           Sample.tied_models Sample.three_models_mapping
           [("Q1", [Sample.tied_first; Sample.tied_second])]
           "Q1" Sample.tied_first [Sample.tied_second]).
  - vm_compute. reflexivity.
  - reflexivity.
Defined.

Lemma collect_scores_readable (w : World) (index_to_hmms : list (string * hmm_entry))
  (scores : list (string * list scored_match)) :
  collect_scores w index_to_hmms = Ok scores -> readable w index_to_hmms.
Proof.
  unfold collect_scores. intros H a h path Hf.
  unfold result_files in Hf.
  apply in_flat_map in Hf as ([index [[[hmmdir a'] h'] n]] & Hitem & Hf).
  apply in_map_iff in Hf as (p & E & Hp). injection E as -> -> ->.
  destruct (for_each_ok_each _ _ _ _ H _ Hitem) as (s1 & s2 & Hm).
  unfold collect_model in Hm.
  destruct (for_each_ok_each _ _ _ _ Hm _ Hp) as (s3 & s4 & Hfile).
  unfold collect_file in Hfile.
  apply bind_ok_inv in Hfile as (raw & Hr & Hitems).
  exists raw. split; [assumption|]. intros q score Hq.
  destruct (for_each_ok_each _ _ _ _ Hitems _ Hq) as (s5 & s6 & Hi).
  unfold collect_item in Hi.
  destruct score as [|x0 [|x1 score]]; simpl in *; try discriminate. lia.
Qed.


(** Every entry of a ranked list was read for a model of the mapping:
    it carries the indices of an entry of the mapping, and its
    bit-score is the value at position 1 of the tuple that a result
    file found under the directory of that entry gives for the
    query. *)
Theorem getHMMSearchResults_provenance (w : World)
  (index_to_hmms : list (string * hmm_entry))
  (scores : list (string * list scored_match))
  (q : string) (l : list scored_match) (x : scored_match) :
  getHMMSearchResults w index_to_hmms = Ok scores ->
  dict_get string_dec q scores = Some l ->
  In x l ->
  exists index hmmdir num_seq path raw score,
    In (index, (hmmdir, alignment_of x, hmm_of x, num_seq)) index_to_hmms /\
    In path (find_hmmsearch w hmmdir) /\
    read_scores w path = Ok raw /\
    dict_get string_dec q (dict_of_items string_dec raw) = Some score /\
    nth_error score 1 = Some (bitscore_of x).
Proof.
  unfold getHMMSearchResults. intros H Hq Hx.
  apply bind_ok_inv in H as (collected & Hc & H). injection H as <-.
  pose proof (rank_scores_lookup q collected) as L.
  unfold lookup_list at 1 in L. rewrite Hq in L.
  rewrite (collect_scores_lookup w _ _ Hc q) in L.
  assert (Hf : In x (found_matches w index_to_hmms q)).
  { eapply Permutation_in; [apply (py_sorted_perm bitscore_of Qltb true)|].
    now rewrite <- L. }
  unfold found_matches in Hf.
  apply in_flat_map in Hf as ([[a h] path] & Hfile & Hm).
  unfold result_files in Hfile.
  apply in_flat_map in Hfile as ([index [[[hmmdir a'] h'] n]] & Hitem & Hp).
  apply in_map_iff in Hp as (p & E & Hp). injection E as -> -> ->.
  unfold file_matches in Hm.
  destruct (read_scores w path) as [raw|e] eqn:Hr; [|contradiction].
  destruct (dict_get string_dec q (dict_of_items string_dec raw)) as [score|] eqn:G;
    [|contradiction].
  destruct (nth_error score 1) as [bit|] eqn:Hn; [|contradiction].
  destruct Hm as [<-|[]]. simpl.
  exists index, hmmdir, n, path, raw, score. auto.
Qed.

Lemma getHMMSearchResults_provenance_witness :
  exists index hmmdir num_seq path raw score,
    In (index, (hmmdir, alignment_of Sample.q1_best, hmm_of Sample.q1_best, num_seq))
       Sample.three_models_mapping /\
    In path (find_hmmsearch Sample.three_models hmmdir) /\
    read_scores Sample.three_models path = Ok raw /\
    dict_get string_dec "Q1" (dict_of_items string_dec raw) = Some score /\
    nth_error score 1 = Some (bitscore_of Sample.q1_best).
Proof.
  apply (getHMMSearchResults_provenance
           Sample.three_models Sample.three_models_mapping
           Sample.three_models_ranked "Q1" [Sample.q1_best; Sample.q1_second]).
  - vm_compute. reflexivity.
  - reflexivity.
  - simpl. auto.
Defined.

(* ----------------------------------------------------------------- *)
(** ** The catalog builder *)

Lemma In_dict_set {K V : Type} (K_eq_dec : forall x y : K, {x = y} + {x <> y})
  (k : K) (v : V) (d : list (K * V)) (kv : K * V) :
  In kv (dict_set K_eq_dec k v d) -> kv = (k, v) \/ In kv d.
Proof.
  induction d as [|[k' v'] d IH]; simpl.
  - intros [<-|[]]. now left.
  - destruct (K_eq_dec k k') as [->|N]; simpl; intros [<-|I]; auto.
    destruct (IH I); auto.
Qed.

Lemma In_dict_of_items {K V : Type} (K_eq_dec : forall x y : K, {x = y} + {x <> y})
  (items : list (K * V)) (kv : K * V) :
  In kv (dict_of_items K_eq_dec items) -> In kv items.
Proof.
  unfold dict_of_items.
  assert (G : forall d, In kv (fold_left (dict_write K_eq_dec) items d) ->
                        In kv d \/ In kv items).
  { induction items as [|[k v] items IH]; simpl; intros d H; [auto|].
    destruct (IH _ H) as [I|I]; [|auto].
    unfold dict_write in I. simpl in I.
    apply In_dict_set in I as [->|I]; auto. }
  intros H. destruct (G [] H) as [[]|I]. exact I.
Qed.

Lemma Forall2_In_r {A B : Type} (R : A -> B -> Prop) (l : list A) (l' : list B) (y : B) :
  Forall2 R l l' -> In y l' -> exists x, In x l /\ R x y.
Proof.
  induction 1 as [|a b l l' Hab _ IH]; simpl; [contradiction|].
  intros [<-|I]; [eauto|]. destruct (IH I) as (x & Hx & HR). eauto.
Qed.

(** Every entry of the mapping returned by [obtainHMMs] comes from a
    processed descriptor file that passed the size filter: its
    directory is the directory of the file, its key the last component
    of that directory, its indices the ones read from the key, its
    [num_seq] the NSEQ of the file; the subset alignment of the file
    exists and the tuple list has a tuple with the same indices and
    [num_seq].  The keys of the mapping are pairwise distinct. *)
Theorem obtainHMMs_mapping_entries (w : World) (indir : string) (lower upper : Z)
  (hmmbuild_paths : list string)
  (hmm_indexes : list hmm_index) (index_to_hmms : list (string * hmm_entry)) :
  obtainHMMs w indir lower upper hmmbuild_paths = Ok (hmm_indexes, index_to_hmms) ->
  NoDup (dict_keys index_to_hmms) /\
  forall index dirname a h num_seq,
    In (index, (dirname, a, h, num_seq)) index_to_hmms ->
    exists path size,
      In path (effective_paths w indir hmmbuild_paths) /\
      dirname = py_dirname path /\
      index = index_of dirname /\
      parse_index index = Ok (a, h) /\
      read_num_seq w path = Ok num_seq /\
      (lower <= num_seq <= upper \/
       List.length (effective_paths w indir hmmbuild_paths) = 1%nat) /\
      path_exists w (subalignment_path_of dirname) = true /\
      In (a, size, h, num_seq) hmm_indexes.
Proof.
  intros H. destruct (obtainHMMs_ok _ _ _ _ _ _ _ H) as (ds & Hds & _ & -> & ->).
  split; [apply dict_of_items_NoDup|].
  intros index dirname a h n Hin.
  apply In_dict_of_items, in_map_iff in Hin as ([tuple kv] & E & Hitem).
  simpl in E. subst kv. apply in_somes in Hitem.
  destruct (Forall2_In_r _ _ _ _ Hds Hitem) as (path & Hp & Hstep).
  apply descriptor_step_ok in Hstep as (n' & Hn' & Hr & Hentry).
  apply catalog_entry_ok in Hentry as (Hex & lines & a' & h' & _ & Hparse & E).
  injection E as -> -> -> -> -> ->.
  exists path, (lines / 2). repeat split; try assumption; try reflexivity.
  eapply Permutation_in;
    [symmetry; apply (py_sorted_perm subalignment_size_of Z.ltb true)|].
  apply in_map_iff. eexists. split; [|apply in_somes; exact Hitem]. reflexivity.
Qed.

Lemma obtainHMMs_mapping_entries_witness :
  NoDup (dict_keys Sample.three_models_mapping) /\
  forall index dirname a h num_seq,
    In (index, (dirname, a, h, num_seq)) Sample.three_models_mapping ->
    exists path size,
      In path (effective_paths Sample.three_models "/r" []) /\
      dirname = py_dirname path /\
      index = index_of dirname /\
      parse_index index = Ok (a, h) /\
      read_num_seq Sample.three_models path = Ok num_seq /\
      (20 <= num_seq <= 100 \/
       List.length (effective_paths Sample.three_models "/r" []) = 1%nat) /\
      path_exists Sample.three_models (subalignment_path_of dirname) = true /\
      In (a, size, h, num_seq) [(1, 200, 0, 50); (2, 150, 0, 80)].
Proof.
  apply (obtainHMMs_mapping_entries Sample.three_models "/r" 20 100 []).
  vm_compute. reflexivity.
Defined.

Lemma header_dict_blank (w : World) (path : string) :
  In [] (split_lines w path) -> header_dict w path = Raise IndexError.
Proof.
  unfold header_dict. generalize (@nil (string * string)).
  induction (split_lines w path) as [|[|k vs] l IH]; simpl; intros d H.
  - contradiction.
  - reflexivity.
  - destruct H as [H|H]; [discriminate | auto].
Qed.

(** A header line without any token, an empty line or one of white
    space only, among the lines read from a descriptor makes
    [obtainHMMs] raise, whether or not the header has an NSEQ line;
    when the file is the first one processed, the exception is the
    index error of [x[0]]. *)
Theorem obtainHMMs_blank_header_line (w : World) (indir : string)
  (lower upper : Z) (hmmbuild_paths : list string) (path : string) :
  In path (effective_paths w indir hmmbuild_paths) ->
  In [] (split_lines w path) ->
  read_num_seq w path = Raise IndexError /\
  (exists e, obtainHMMs w indir lower upper hmmbuild_paths = Raise e) /\
  (forall rest, effective_paths w indir hmmbuild_paths = path :: rest ->
     obtainHMMs w indir lower upper hmmbuild_paths = Raise IndexError).
Proof.
  intros Hp Hb.
  assert (R : read_num_seq w path = Raise IndexError).
  { unfold read_num_seq. now rewrite header_dict_blank. }
  split; [exact R|]. split.
  - eapply obtainHMMs_raise with (e := IndexError); [exact Hp|].
    unfold descriptor_step. now rewrite R.
  - intros rest E. unfold obtainHMMs, obtain_loop. cbv zeta. rewrite E.
    cbn [for_each]. unfold obtain_step at 1. now rewrite R.
Qed.

Lemma obtainHMMs_blank_header_line_witness :
  read_num_seq Sample.blank_line "/r/A_1/A_1_0/hmmbuild.model.1" = Raise IndexError /\
  (exists e, obtainHMMs Sample.blank_line "/r" 20 100
               ["/r/A_1/A_1_0/hmmbuild.model.1"] = Raise e) /\
  (forall rest,
     effective_paths Sample.blank_line "/r" ["/r/A_1/A_1_0/hmmbuild.model.1"] =
       "/r/A_1/A_1_0/hmmbuild.model.1" :: rest ->
     obtainHMMs Sample.blank_line "/r" 20 100
       ["/r/A_1/A_1_0/hmmbuild.model.1"] = Raise IndexError).
Proof.
  apply (obtainHMMs_blank_header_line Sample.blank_line "/r" 20 100
           ["/r/A_1/A_1_0/hmmbuild.model.1"] "/r/A_1/A_1_0/hmmbuild.model.1").
  - simpl. auto.
  - vm_compute. auto.
Defined.

Lemma header_dict_no_blank (lines : list (list string)) :
  (forall x, In x lines -> x <> []) ->
  forall d,
    for_each
      (fun d x =>
         match x with
         | [] => Raise IndexError
         | k :: vs => Ok (dict_set string_dec k (join "," vs) d)
         end) lines d =
    Ok (fold_left (dict_write string_dec) (map header_item lines) d).
Proof.
  induction lines as [|[|k vs] lines IH]; intros H d; simpl.
  - reflexivity.
  - exfalso. now apply (H []); [left|].
  - apply IH. intros x Hx. apply H. now right.
Qed.

Lemma read_num_seq_last (w : World) (path : string)
  (before after : list (list string)) (vs : list string) :
  split_lines w path = before ++ ("NSEQ" :: vs) :: after ->
  (forall x, In x (before ++ after) -> x <> []) ->
  (forall vs', ~ In ("NSEQ" :: vs') after) ->
  read_num_seq w path = int_of (join "," vs).
Proof.
  intros E Hnb Hlast. unfold read_num_seq, header_dict. rewrite E.
  rewrite header_dict_no_blank.
  2:{ intros x Hx. apply in_app_or in Hx as [Hx|[<-|Hx]];
        [apply Hnb, in_or_app; now left | discriminate
        | apply Hnb, in_or_app; now right]. }
  simpl bind. rewrite map_app. cbn [map header_item].
  change (fold_left (dict_write string_dec) ?items [])
    with (dict_of_items string_dec items).
  rewrite dict_of_items_last; [reflexivity|].
  rewrite map_map. intros Hin. apply in_map_iff in Hin as ([|k vs'] & Ek & Hx).
  - apply (Hnb []); [apply in_or_app; now right | reflexivity].
  - simpl in Ek. subst k. now apply (Hlast vs').
Qed.

(** When no header line is without a token, the NSEQ value of a
    descriptor is read from its last NSEQ line: it is [int] of the
    tokens after the key, joined by commas. *)
Theorem read_num_seq_last_NSEQ_line (w : World) (path : string)
  (before after : list (list string)) (vs : list string) :
  split_lines w path = before ++ ("NSEQ" :: vs) :: after ->
  (forall x, In x (before ++ after) -> x <> []) ->
  (forall vs', ~ In ("NSEQ" :: vs') after) ->
  read_num_seq w path = int_of (join "," vs).
Proof.
  exact (read_num_seq_last w path before after vs).
Qed.

Lemma read_num_seq_last_NSEQ_line_witness :
  read_num_seq Sample.two_nseq "/r/A_1/A_1_0/hmmbuild.model.1" =
  int_of (join "," ["70"]).
Proof.
  apply (read_num_seq_last_NSEQ_line Sample.two_nseq
           "/r/A_1/A_1_0/hmmbuild.model.1"
           [["NAME"; "subset"]; ["NSEQ"; "50"]; ["LENG"; "120"]]
           [["ALPH"; "DNA"]] ["70"]).
  - vm_compute. reflexivity.
  - intros x Hx. simpl in Hx.
    destruct Hx as [<-|[<-|[<-|[<-|[]]]]]; discriminate.
  - intros vs' [H|[]]. discriminate.
Defined.

(* ----------------------------------------------------------------- *)
(** ** The three stages together *)

Lemma collect_scores_no_files (w : World) (index_to_hmms : list (string * hmm_entry)) :
  result_files w index_to_hmms = [] ->
  forall scores, for_each (collect_model w) index_to_hmms scores = Ok scores.
Proof.
  unfold result_files.
  induction index_to_hmms as [|[index [[[hmmdir a] h] n]] m IH]; simpl;
    intros H scores; [reflexivity|].
  apply app_eq_nil in H as [H1 H2]. apply map_eq_nil in H1.
  rewrite H1. simpl. now apply IH.
Qed.

(** Without descriptor files or without result files there is nothing
    to assign and nothing fails: when the [find] command for
    descriptors prints nothing, [obtainHMMs] returns the empty
    catalog; and when no directory of the catalog has a result file,
    the three stages end with the empty assignment. *)
Theorem pipeline_nothing_found (w : World) (indir : string) (lower upper : Z)
  (hmmbuild_paths : list string) :
  (popen_read w ("find " ++ indir ++ " -name hmmbuild.model.* -type f") = EmptyString ->
   obtainHMMs w indir lower upper [] = Ok ([], [])) /\
  (forall hmm_indexes index_to_hmms,
     obtainHMMs w indir lower upper hmmbuild_paths = Ok (hmm_indexes, index_to_hmms) ->
     result_files w index_to_hmms = [] ->
     getHMMSearchResults w index_to_hmms = Ok [] /\
     pipeline w indir lower upper hmmbuild_paths = Ok []).
Proof.
  split.
  - intros E. unfold obtainHMMs, obtain_loop, effective_paths, find_hmmbuild.
    rewrite E. reflexivity.
  - intros idx m H Hf.
    assert (G : getHMMSearchResults w m = Ok []).
    { unfold getHMMSearchResults, collect_scores.
      now rewrite collect_scores_no_files. }
    split; [exact G|]. unfold pipeline. rewrite H. simpl. rewrite G. reflexivity.
Qed.

(** A query is assigned to the alignment of the first match found for
    it with its highest bit-score: every query in a bucket of the
    assignment returned by the three stages has, among the matches
    found under the catalog, a match of the bucket's alignment before
    which all matches score lower and after which none scores
    higher. *)
Theorem pipeline_assigns_first_best (w : World) (indir : string)
  (lower upper : Z) (hmmbuild_paths : list string)
  (qa : list (Z * list string)) (q : string) (a : Z) :
  pipeline w indir lower upper hmmbuild_paths = Ok qa ->
  In q (lookup_list Z.eq_dec a qa) ->
  exists hmm_indexes index_to_hmms top before after,
    obtainHMMs w indir lower upper hmmbuild_paths = Ok (hmm_indexes, index_to_hmms) /\
    found_matches w index_to_hmms q = before ++ top :: after /\
    alignment_of top = a /\
    (forall x, In x before -> (bitscore_of x < bitscore_of top)%Q) /\
    (forall x, In x after -> (bitscore_of x <= bitscore_of top)%Q).
Proof.
  unfold pipeline. intros H Hq.
  apply bind_ok_inv in H as ([idx m] & Ho & H).
  apply bind_ok_inv in H as (scores & Hs & Ha).
  unfold assignQueryToSubset in Ha.
  destruct (assign_loop_assigned _ _ Ha) as (_ & _ & Hin & _).
  destruct (Hin a q Hq) as (top & rest & I & E).
  destruct (getHMMSearchResults_appended w _ _ Hs) as [ND _].
  apply (In_dict_get string_dec) in I; [|assumption].
  destruct (ranked_top w m scores q top rest Hs I) as (before & after & F & Hb & Hf).
  exists idx, m, top, before, after. auto.
Qed.

Lemma pipeline_assigns_first_best_witness :
  exists hmm_indexes index_to_hmms top before after,
    obtainHMMs Sample.three_models "/r" 20 100 [] = Ok (hmm_indexes, index_to_hmms) /\
    found_matches Sample.three_models index_to_hmms "Q1" = before ++ top :: after /\
    alignment_of top = 2 /\
    (forall x, In x before -> (bitscore_of x < bitscore_of top)%Q) /\
    (forall x, In x after -> (bitscore_of x <= bitscore_of top)%Q).
Proof.
  apply (pipeline_assigns_first_best Sample.three_models "/r" 20 100 []
           [(2, ["Q1"]); (1, ["Q2"])] "Q1" 2).
  - vm_compute. reflexivity.
  - simpl. auto.
Defined.

(** The three stages fail only in the first two: the resolver never
    raises on what the ranker returns.  An exception of the whole is
    an exception of [obtainHMMs], or of [getHMMSearchResults] on the
    mapping that [obtainHMMs] returned. *)
Theorem pipeline_exceptions (w : World) (indir : string) (lower upper : Z)
  (hmmbuild_paths : list string) (e : exn) :
  pipeline w indir lower upper hmmbuild_paths = Raise e <->
  obtainHMMs w indir lower upper hmmbuild_paths = Raise e \/
  exists hmm_indexes index_to_hmms,
    obtainHMMs w indir lower upper hmmbuild_paths = Ok (hmm_indexes, index_to_hmms) /\
    getHMMSearchResults w index_to_hmms = Raise e.
Proof.
  unfold pipeline.
  destruct (obtainHMMs w indir lower upper hmmbuild_paths) as [[idx m]|e0]; simpl.
  - destruct (getHMMSearchResults w m) as [scores|e1] eqn:G; simpl.
    + split.
      * intros H. exfalso.
        apply getHMMSearchResults_appended in G as [_ NE].
        destruct (assign_loop_cases scores []) as [[_ [qa Hqa]]|[[q0 Hq0] _]].
        -- unfold assignQueryToSubset in H. congruence.
        -- now apply (NE q0 []).
      * intros [H|(idx' & m' & E & H)]; [discriminate|].
        injection E as <- <-. congruence.
    + split.
      * intros H. right. exists idx, m. split; [reflexivity | congruence].
      * intros [H|(idx' & m' & E & H)]; [discriminate|].
        injection E as <- <-. congruence.
  - split.
    + intros H. injection H as ->. now left.
    + intros [H|(idx' & m' & E & _)]; [congruence | discriminate].
Qed.

(* ----------------------------------------------------------------- *)
(** ** Two runs on the same artifacts *)

Lemma for_each_ext {S A : Type} (f g : S -> A -> result S) (l : list A) (s : S) :
  (forall s x, f s x = g s x) -> for_each f l s = for_each g l s.
Proof.
  intros E. revert s. induction l as [|x l IH]; intros s; simpl; [reflexivity|].
  rewrite E. destruct (g s x); simpl; auto.
Qed.

Lemma Permutation_flat_map_pointwise {A B : Type} (f g : A -> list B)
  (l l' : list A) :
  Permutation l l' -> (forall x, Permutation (f x) (g x)) ->
  Permutation (flat_map f l) (flat_map g l').
Proof.
  intros P E. transitivity (flat_map g l); [|now apply Permutation_flat_map].
  clear P. induction l as [|x l IH]; simpl; [reflexivity|].
  now apply Permutation_app.
Qed.

Lemma dict_set_fresh {K V : Type} (K_eq_dec : forall x y : K, {x = y} + {x <> y})
  (k : K) (v : V) (d : list (K * V)) :
  ~ In k (dict_keys d) -> dict_set K_eq_dec k v d = d ++ [(k, v)].
Proof.
  induction d as [|[k' v'] d IH]; simpl; intros N; [reflexivity|].
  destruct (K_eq_dec k k') as [->|_]; [tauto|]. rewrite IH by tauto. reflexivity.
Qed.

(** Items with pairwise distinct keys make the dictionary that lists
    them in their order. *)
Lemma dict_of_items_distinct {K V : Type}
  (K_eq_dec : forall x y : K, {x = y} + {x <> y}) (items : list (K * V)) :
  NoDup (dict_keys items) -> dict_of_items K_eq_dec items = items.
Proof.
  unfold dict_of_items.
  assert (G : forall acc, NoDup (dict_keys (acc ++ items)) ->
                fold_left (dict_write K_eq_dec) items acc = acc ++ items).
  { induction items as [|[k v] items IH]; intros acc ND; simpl.
    - now rewrite app_nil_r.
    - unfold dict_write at 2. cbn [fst snd].
      rewrite dict_set_fresh.
      + rewrite IH; rewrite <- app_assoc; [reflexivity | exact ND].
      + unfold dict_keys in *. rewrite map_app in ND. cbn [map fst] in ND.
        apply NoDup_remove_2 in ND. intros I. apply ND. apply in_or_app. now left. }
  intros ND. now apply (G []).
Qed.

Lemma Forall2_decisions (w : World) (lower upper : Z) (n : nat)
  (paths : list string) (ds : list (option catalog_item)) :
  Forall2 (fun p d => descriptor_step w lower upper n p = Ok d) paths ds ->
  ds = map (included_item w lower upper n) paths.
Proof.
  induction 1 as [|p d paths ds H _ IH]; simpl; [reflexivity|].
  unfold included_item at 1. rewrite H. now f_equal.
Qed.

(** The mapping that [obtainHMMs] returns is written from the items
    of the included descriptors in the order of the paths, and every
    path has had a normal turn. *)
Lemma obtainHMMs_mapping_items (w : World) (indir : string) (lower upper : Z)
  (hmmbuild_paths : list string)
  (hmm_indexes : list hmm_index) (index_to_hmms : list (string * hmm_entry)) :
  obtainHMMs w indir lower upper hmmbuild_paths = Ok (hmm_indexes, index_to_hmms) ->
  (forall p, In p (effective_paths w indir hmmbuild_paths) ->
     exists d, descriptor_step w lower upper
       (List.length (effective_paths w indir hmmbuild_paths)) p = Ok d) /\
  index_to_hmms =
    dict_of_items string_dec
      (map snd (somes (map (included_item w lower upper
                              (List.length (effective_paths w indir hmmbuild_paths)))
                         (effective_paths w indir hmmbuild_paths)))).
Proof.
  intros H. destruct (obtainHMMs_ok _ _ _ _ _ _ _ H) as (ds & F & _ & _ & E).
  split.
  - intros p Hp. destruct (Forall2_In_l _ _ _ p F Hp) as (d & _ & Hd). eauto.
  - now rewrite <- (Forall2_decisions _ _ _ _ _ _ F).
Qed.

Lemma included_item_key (w : World) (lower upper : Z) (n : nat) (path : string)
  (tuple : hmm_index) (k : string) (v : hmm_entry) :
  included_item w lower upper n path = Some (tuple, (k, v)) ->
  k = basename_of path.
Proof.
  unfold included_item.
  destruct (descriptor_step w lower upper n path) as [d|e] eqn:D; [|discriminate].
  intros ->. apply descriptor_step_ok in D as (num_seq & _ & _ & C).
  apply catalog_entry_ok in C as (_ & lines & a & h & _ & _ & E).
  now injection E as _ -> _.
Qed.

Lemma included_keys (w : World) (lower upper : Z) (n : nat) (paths : list string)
  (k : string) :
  In k (dict_keys (map snd (somes (map (included_item w lower upper n) paths)))) ->
  In k (map basename_of paths).
Proof.
  unfold dict_keys, somes. intros I.
  apply in_map_iff in I as ([k' v] & <- & I).
  apply in_map_iff in I as ([tuple kv] & E & I). cbn [snd] in E. subst kv.
  apply in_flat_map in I as (o & Ho & I).
  apply in_map_iff in Ho as (p & <- & Hp).
  destruct (included_item w lower upper n p) as [item|] eqn:G; [|contradiction].
  destruct I as [->|[]]. apply in_map_iff. exists p. split; [|assumption].
  symmetry. cbn [fst]. eapply included_item_key. exact G.
Qed.

Lemma included_keys_NoDup (w : World) (lower upper : Z) (n : nat)
  (paths : list string) :
  NoDup (map basename_of paths) ->
  NoDup (dict_keys (map snd (somes (map (included_item w lower upper n) paths)))).
Proof.
  induction paths as [|p paths IH]; simpl; intros ND; [constructor|].
  inversion ND as [|? ? N ND']; subst.
  destruct (included_item w lower upper n p) as [[tuple [k v]]|] eqn:G; simpl;
    [|now apply IH].
  constructor; [|now apply IH].
  apply included_item_key in G. subst k. intros I. apply N.
  eapply included_keys. exact I.
Qed.

Section Rerun.
Variables w1 w2 : World.
Hypothesis same : same_artifacts w1 w2.

Lemma rerun_read_num_seq (path : string) :
  read_num_seq w1 path = read_num_seq w2 path.
Proof.
  destruct same as (Hh & _).
  unfold read_num_seq, header_dict, split_lines. now rewrite Hh.
Qed.

Lemma rerun_catalog_entry (path : string) (num_seq : Z) :
  catalog_entry w1 path num_seq = catalog_entry w2 path num_seq.
Proof.
  destruct same as (_ & Hw & He & _).
  unfold catalog_entry. now rewrite He, Hw.
Qed.

Lemma rerun_descriptor_step (lower upper : Z) (n : nat) (path : string) :
  descriptor_step w1 lower upper n path = descriptor_step w2 lower upper n path.
Proof.
  unfold descriptor_step. rewrite rerun_read_num_seq.
  destruct (read_num_seq w2 path) as [num_seq|e]; simpl; [|reflexivity].
  now rewrite rerun_catalog_entry.
Qed.

Lemma rerun_paths (indir : string) (hmmbuild_paths : list string) :
  Permutation (effective_paths w1 indir hmmbuild_paths)
              (effective_paths w2 indir hmmbuild_paths).
Proof.
  destruct same as (_ & _ & _ & _ & Hf & _).
  destruct hmmbuild_paths; simpl; [apply Hf | reflexivity].
Qed.

Lemma rerun_file_matches (q : string) (file : Z * Z * string) :
  file_matches w1 q file = file_matches w2 q file.
Proof.
  destruct same as (_ & _ & _ & Hr & _).
  destruct file as [[a h] path]. unfold file_matches. now rewrite Hr.
Qed.

Lemma rerun_result_files (m1 m2 : list (string * hmm_entry)) :
  Permutation m1 m2 ->
  Permutation (result_files w1 m1) (result_files w2 m2).
Proof.
  destruct same as (_ & _ & _ & _ & _ & Hs).
  intros P. unfold result_files.
  apply Permutation_flat_map_pointwise; [assumption|].
  intros [index [[[hmmdir a] h] n]]. apply Permutation_map, Hs.
Qed.

Lemma rerun_found_matches (m1 m2 : list (string * hmm_entry)) (q : string) :
  Permutation m1 m2 ->
  Permutation (found_matches w1 m1 q) (found_matches w2 m2 q).
Proof.
  intros P. unfold found_matches.
  apply Permutation_flat_map_pointwise; [now apply rerun_result_files|].
  intros file. now rewrite rerun_file_matches.
Qed.

Lemma rerun_readable (m1 m2 : list (string * hmm_entry)) :
  Permutation m1 m2 -> readable w1 m1 -> readable w2 m2.
Proof.
  intros P R a h path I.
  destruct same as (_ & _ & _ & Hr & _).
  rewrite <- Hr. apply (R a h).
  eapply Permutation_in; [|exact I]. symmetry. now apply rerun_result_files.
Qed.

(** The second run returns a catalog when the first does, and with
    distinct basenames its mapping has the same entries. *)
Lemma rerun_obtainHMMs (indir : string) (lower upper : Z)
  (hmmbuild_paths : list string)
  (hmm_indexes : list hmm_index) (index_to_hmms : list (string * hmm_entry)) :
  NoDup (map basename_of (effective_paths w1 indir hmmbuild_paths)) ->
  obtainHMMs w1 indir lower upper hmmbuild_paths = Ok (hmm_indexes, index_to_hmms) ->
  exists hmm_indexes' index_to_hmms',
    obtainHMMs w2 indir lower upper hmmbuild_paths =
      Ok (hmm_indexes', index_to_hmms') /\
    Permutation index_to_hmms index_to_hmms'.
Proof.
  intros ND H.
  pose proof (rerun_paths indir hmmbuild_paths) as P.
  pose proof (Permutation_length P) as L.
  destruct (obtainHMMs_mapping_items _ _ _ _ _ _ _ H) as (T & ->).
  destruct (obtainHMMs_returns w2 indir lower upper hmmbuild_paths)
    as (idx' & m' & H').
  { intros p Hp. rewrite <- L, <- rerun_descriptor_step. apply T.
    eapply Permutation_in; [|exact Hp]. now symmetry. }
  exists idx', m'. split; [assumption|].
  destruct (obtainHMMs_mapping_items _ _ _ _ _ _ _ H') as (_ & ->).
  rewrite !dict_of_items_distinct.
  - rewrite <- L. apply Permutation_map. unfold somes.
    apply Permutation_flat_map.
    erewrite (map_ext (included_item w2 _ _ _)).
    + apply Permutation_map. exact P.
    + intros p. unfold included_item. now rewrite rerun_descriptor_step.
  - apply included_keys_NoDup.
    eapply Permutation_NoDup; [|exact ND]. now apply Permutation_map.
  - now apply included_keys_NoDup.
Qed.

End Rerun.

Lemma same_artifacts_sym (w1 w2 : World) :
  same_artifacts w1 w2 -> same_artifacts w2 w1.
Proof.
  intros (Hh & Hw & He & Hr & Hf & Hs). repeat split; intros; symmetry; auto.
Qed.

Lemma pipeline_ok_inv (w : World) (indir : string) (lower upper : Z)
  (hmmbuild_paths : list string) (qa : list (Z * list string)) :
  pipeline w indir lower upper hmmbuild_paths = Ok qa ->
  exists hmm_indexes index_to_hmms scores,
    obtainHMMs w indir lower upper hmmbuild_paths = Ok (hmm_indexes, index_to_hmms) /\
    getHMMSearchResults w index_to_hmms = Ok scores /\
    for_each assign_step scores [] = Ok qa.
Proof.
  unfold pipeline. intros H.
  apply bind_ok_inv in H as ([idx m] & Ho & H).
  apply bind_ok_inv in H as (scores & Hs & Ha). eauto 6.
Qed.

(** The three stages return when the catalog is built and every
    result file below it is well formed. *)
Lemma pipeline_returns (w : World) (indir : string) (lower upper : Z)
  (hmmbuild_paths : list string)
  (hmm_indexes : list hmm_index) (index_to_hmms : list (string * hmm_entry)) :
  obtainHMMs w indir lower upper hmmbuild_paths = Ok (hmm_indexes, index_to_hmms) ->
  readable w index_to_hmms ->
  exists qa, pipeline w indir lower upper hmmbuild_paths = Ok qa.
Proof.
  intros Ho R. unfold pipeline. rewrite Ho. simpl.
  destruct (collect_scores_total w _ R) as [collected Hc].
  assert (G : getHMMSearchResults w index_to_hmms = Ok (rank_scores collected)).
  { unfold getHMMSearchResults. now rewrite Hc. }
  rewrite G. simpl. unfold assignQueryToSubset.
  destruct (assign_loop_cases (rank_scores collected) [])
    as [[_ Hok]|[[q Hq] _]]; [exact Hok|].
  apply getHMMSearchResults_appended in G as [_ NE]. now apply NE in Hq.
Qed.

(** A query sits in the bucket of an alignment that has one of its
    best matches. *)
Lemma bucket_best (w : World) (index_to_hmms : list (string * hmm_entry))
  (scores : list (string * list scored_match)) (qa : list (Z * list string))
  (q : string) (a : Z) :
  getHMMSearchResults w index_to_hmms = Ok scores ->
  for_each assign_step scores [] = Ok qa ->
  In q (lookup_list Z.eq_dec a qa) ->
  exists top, best (found_matches w index_to_hmms q) top /\ alignment_of top = a.
Proof.
  intros Hs Ha Hq.
  destruct (assign_loop_assigned _ _ Ha) as (_ & _ & Hin & _).
  destruct (Hin a q Hq) as (top & rest & I & E).
  destruct (getHMMSearchResults_appended w _ _ Hs) as [ND _].
  apply (In_dict_get string_dec) in I; [|assumption].
  destruct (ranked_top w _ scores q top rest Hs I) as (before & after & F & Hb & Hf).
  exists top. split; [|assumption]. split.
  - rewrite F. apply in_or_app. right. now left.
  - intros y Hy. rewrite F in Hy. apply in_app_or in Hy as [Hy|[<-|Hy]].
    + apply Qlt_le_weak. auto.
    + apply Qle_refl.
    + auto.
Qed.

(** A query with a match is in some bucket. *)
Lemma found_in_bucket (w : World) (index_to_hmms : list (string * hmm_entry))
  (scores : list (string * list scored_match)) (qa : list (Z * list string))
  (q : string) :
  getHMMSearchResults w index_to_hmms = Ok scores ->
  for_each assign_step scores [] = Ok qa ->
  found_matches w index_to_hmms q <> [] ->
  exists a, In q (lookup_list Z.eq_dec a qa).
Proof.
  intros Hs Ha NE.
  destruct (assign_loop_assigned _ _ Ha) as (_ & _ & _ & Htop).
  unfold getHMMSearchResults in Hs.
  apply bind_ok_inv in Hs as (collected & Hc & Hs). injection Hs as <-.
  pose proof (rank_scores_lookup q collected) as L.
  rewrite (collect_scores_lookup w _ _ Hc q) in L.
  unfold lookup_list in L.
  destruct (dict_get string_dec q (rank_scores collected)) as [[|top rest]|] eqn:G.
  - symmetry in L. apply (py_sorted_nil bitscore_of Qltb true) in L. contradiction.
  - apply dict_get_In in G. eauto.
  - symmetry in L. apply (py_sorted_nil bitscore_of Qltb true) in L. contradiction.
Qed.

(** The keys of the entries that pass a test are distinct when all
    keys are. *)
Lemma filtered_keys_NoDup {K V : Type} (test : K * V -> bool) (d : list (K * V)) :
  NoDup (dict_keys d) -> NoDup (map fst (filter test d)).
Proof.
  unfold dict_keys. induction d as [|kv d IH]; simpl; intros ND; [constructor|].
  apply NoDup_cons_iff in ND as [N ND].
  destruct (test kv); simpl; [|auto]. constructor; [|auto].
  intros I. apply N. apply in_map_iff in I as (y & E & I).
  apply filter_In in I as [I _]. apply in_map_iff. eauto.
Qed.

(** No query occurs twice in a bucket. *)
Lemma bucket_NoDup (w : World) (index_to_hmms : list (string * hmm_entry))
  (scores : list (string * list scored_match)) (qa : list (Z * list string))
  (a : Z) :
  getHMMSearchResults w index_to_hmms = Ok scores ->
  for_each assign_step scores [] = Ok qa ->
  NoDup (lookup_list Z.eq_dec a qa).
Proof.
  intros Hs Ha. rewrite (assign_loop_buckets _ _ _ Ha a). simpl.
  apply filtered_keys_NoDup.
  now destruct (getHMMSearchResults_appended w _ _ Hs) as [ND _].
Qed.

Lemma best_Permutation (l l' : list scored_match) (x : scored_match) :
  Permutation l l' -> best l x -> best l' x.
Proof.
  intros P [I M]. split.
  - eapply Permutation_in; eassumption.
  - intros y Hy. apply M. eapply Permutation_in; [|exact Hy]. now symmetry.
Qed.

Section SameListing.
Variables w1 w2 : World.
Hypothesis same : same_artifacts w1 w2.
Hypothesis listing : same_listing w1 w2.

Lemma same_obtainHMMs (indir : string) (lower upper : Z)
  (hmmbuild_paths : list string) :
  obtainHMMs w1 indir lower upper hmmbuild_paths =
  obtainHMMs w2 indir lower upper hmmbuild_paths.
Proof.
  assert (P : effective_paths w1 indir hmmbuild_paths =
              effective_paths w2 indir hmmbuild_paths).
  { destruct hmmbuild_paths; simpl; [apply listing | reflexivity]. }
  unfold obtainHMMs, obtain_loop. cbv zeta. rewrite P.
  erewrite for_each_ext; [reflexivity|]. intros st path.
  rewrite !obtain_step_decides. now rewrite (rerun_descriptor_step w1 w2 same).
Qed.

Lemma same_getHMMSearchResults (index_to_hmms : list (string * hmm_entry)) :
  getHMMSearchResults w1 index_to_hmms = getHMMSearchResults w2 index_to_hmms.
Proof.
  unfold getHMMSearchResults, collect_scores.
  erewrite for_each_ext; [reflexivity|].
  intros scores [index [[[hmmdir a] h] n]]. unfold collect_model.
  destruct listing as [_ ->]. apply for_each_ext. intros s path.
  unfold collect_file. destruct same as (_ & _ & _ & -> & _). reflexivity.
Qed.

End SameListing.


(** Listing the files of one directory in another order leaves the
    artifacts as they are. *)
Lemma relist_same_artifacts (w : World) (rest out : string) :
  Permutation (drop_last (split_on LF (popen_read w ("find " ++ rest))))
              (drop_last (split_on LF out)) ->
  same_artifacts w (relist w ("find " ++ rest) out).
Proof.
  intros P. unfold same_artifacts, relist, find_hmmbuild, find_hmmsearch.
  cbn [popen_read path_exists read_scores].
  split; [|split; [|split; [|split; [|split]]]]; intros x; try reflexivity.
  - destruct (string_dec _ ("find " ++ rest)) as [->|_]; [exact P | reflexivity].
  - destruct (string_dec _ ("find " ++ rest)) as [->|_]; [exact P | reflexivity].
Qed.



(* ----------------------------------------------------------------- *)
(** ** Paths and numbers *)

Lemma split_on_nonempty (sep : ascii) (s : string) : split_on sep s <> [].
Proof.
  destruct s as [|c s]; simpl; [discriminate|].
  destruct (Ascii.eqb c sep); [discriminate|].
  destruct (split_on sep s); discriminate.
Qed.

Lemma split_on_free (sep : ascii) (s : string) :
  ~ In sep (list_ascii_of_string s) -> split_on sep s = [s].
Proof.
  induction s as [|c s IH]; simpl; intros N; [reflexivity|].
  destruct (Ascii.eqb_spec c sep) as [->|_]; [tauto|].
  rewrite IH by tauto. reflexivity.
Qed.

Lemma split_on_app (sep : ascii) (a b : string) :
  split_on sep (a ++ String sep b) = split_on sep a ++ split_on sep b.
Proof.
  induction a as [|c a IH]; simpl.
  - now rewrite Ascii.eqb_refl.
  - destruct (Ascii.eqb c sep); [now rewrite IH|].
    rewrite IH. pose proof (split_on_nonempty sep a) as NE.
    destruct (split_on sep a) as [|h t]; [contradiction | reflexivity].
Qed.

(** Joining the parts of a split with the separator gives the text
    back. *)
Lemma join_split_on (sep : ascii) (s : string) :
  join (String sep EmptyString) (split_on sep s) = s.
Proof.
  induction s as [|c s IH]; simpl; [reflexivity|].
  pose proof (split_on_nonempty sep s) as NE.
  destruct (Ascii.eqb_spec c sep) as [->|_].
  - destruct (split_on sep s) as [|h t]; [contradiction|].
    simpl in *. now rewrite IH.
  - destruct (split_on sep s) as [|h [|h' t]]; [contradiction | |];
      simpl in *; now rewrite <- IH.
Qed.

Lemma list_ascii_of_string_app (a b : string) :
  list_ascii_of_string (a ++ b) = list_ascii_of_string a ++ list_ascii_of_string b.
Proof.
  induction a as [|c a IH]; simpl; [reflexivity | now rewrite IH].
Qed.

Lemma string_of_list_ascii_app (l1 l2 : list ascii) :
  string_of_list_ascii (l1 ++ l2) =
  (string_of_list_ascii l1 ++ string_of_list_ascii l2)%string.
Proof.
  induction l1 as [|c l1 IH]; simpl; [reflexivity | now rewrite IH].
Qed.

Lemma from_first_slash_app (l1 l2 : list ascii) :
  ~ In "/"%char l1 -> from_first_slash (l1 ++ "/"%char :: l2) = "/"%char :: l2.
Proof.
  induction l1 as [|c l1 IH]; simpl; intros N; [reflexivity|].
  destruct (Ascii.eqb_spec c "/"%char) as [->|_]; [tauto|]. apply IH. tauto.
Qed.

Lemma rstrip_slash_free (l1 l2 : list ascii) :
  ~ In "/"%char l1 -> l1 <> [] -> rstrip_slash (l1 ++ l2) = l1 ++ l2.
Proof.
  destruct l1 as [|c l1]; [congruence|]. simpl. intros N _.
  destruct (Ascii.eqb_spec c "/"%char) as [->|_]; [tauto | reflexivity].
Qed.

Lemma py_dirname_of (dir name file : string) :
  slash_free name -> name <> EmptyString -> slash_free file ->
  py_dirname (dir ++ "/" ++ name ++ "/" ++ file) = (dir ++ "/" ++ name)%string.
Proof.
  unfold slash_free, py_dirname. intros Hn Hne Hf.
  set (X := rev (list_ascii_of_string name) ++
            "/"%char :: rev (list_ascii_of_string dir)).
  assert (Hrev : rev (list_ascii_of_string (dir ++ "/" ++ name ++ "/" ++ file)) =
                 rev (list_ascii_of_string file) ++ "/"%char :: X).
  { unfold X. rewrite !list_ascii_of_string_app. cbn [list_ascii_of_string app].
    rewrite rev_app_distr. cbn [rev]. rewrite rev_app_distr. cbn [rev].
    rewrite <- !app_assoc. reflexivity. }
  rewrite Hrev, from_first_slash_app by (now rewrite <- in_rev).
  assert (Hne' : rev (list_ascii_of_string name) <> []).
  { intros E. apply (f_equal (@rev ascii)) in E. rewrite rev_involutive in E.
    simpl in E. destruct name; [congruence | discriminate]. }
  assert (Hst : rstrip_slash ("/"%char :: X) = X).
  { cbn [rstrip_slash]. rewrite Ascii.eqb_refl. unfold X.
    apply rstrip_slash_free; [now rewrite <- in_rev | assumption]. }
  rewrite Hst.
  assert (HX : string_of_list_ascii (rev X) = (dir ++ "/" ++ name)%string).
  { unfold X. rewrite rev_app_distr. cbn [rev].
    rewrite !rev_involutive, <- app_assoc. cbn [app].
    rewrite string_of_list_ascii_app. cbn [string_of_list_ascii].
    now rewrite !string_of_list_ascii_of_string. }
  destruct X as [|c l] eqn:EX; [|exact HX].
  unfold X in EX. apply app_eq_nil in EX as [_ EX]. discriminate.
Qed.

(** Where [obtainHMMs] looks, for a descriptor file
    [dir/name/file]: its directory is [dir/name], the key and the
    source of the two indices is [name], and the subset alignment is
    [subset.aln.fasta] joined to [dir], so [dir/subset.aln.fasta] for
    a directory [dir] that does not end in a slash.  For a model
    directory directly under the root, [/name/file], the subset
    alignment is the relative path [subset.aln.fasta]. *)
Theorem descriptor_layout (dir name file : string) :
  slash_free name -> name <> EmptyString -> slash_free file ->
  py_dirname (dir ++ "/" ++ name ++ "/" ++ file) = (dir ++ "/" ++ name)%string /\
  index_of (py_dirname (dir ++ "/" ++ name ++ "/" ++ file)) = name /\
  subalignment_path_of (py_dirname (dir ++ "/" ++ name ++ "/" ++ file)) =
    path_join dir "subset.aln.fasta" /\
  subalignment_path_of (py_dirname ("/" ++ name ++ "/" ++ file)) =
    "subset.aln.fasta" /\
  (dir <> EmptyString -> ends_with_slash dir = false ->
   subalignment_path_of (py_dirname (dir ++ "/" ++ name ++ "/" ++ file)) =
     (dir ++ "/subset.aln.fasta")%string).
Proof.
  intros Hn Hne Hf.
  assert (S : split_on "/"%char (dir ++ "/" ++ name) =
              split_on "/"%char dir ++ [name]).
  { change (dir ++ "/" ++ name)%string with (dir ++ String "/"%char name)%string.
    rewrite split_on_app. now rewrite (split_on_free _ name). }
  assert (P : subalignment_path_of (dir ++ "/" ++ name) =
              path_join dir "subset.aln.fasta").
  { unfold subalignment_path_of, drop_last. rewrite S, removelast_last.
    change "/"%string with (String "/"%char EmptyString).
    now rewrite join_split_on. }
  rewrite py_dirname_of by assumption.
  split; [reflexivity|]. split; [|split; [exact P|split]].
  - unfold index_of. rewrite S. apply last_last.
  - change ("/" ++ name ++ "/" ++ file)%string
      with ("" ++ "/" ++ name ++ "/" ++ file)%string.
    rewrite py_dirname_of by assumption.
    change ("" ++ "/" ++ name)%string with ("" ++ String "/"%char name)%string.
    unfold subalignment_path_of, drop_last.
    rewrite split_on_app, (split_on_free _ name) by assumption.
    reflexivity.
  - intros Hd He. rewrite P. unfold path_join. rewrite He.
    destruct dir; [congruence | reflexivity].
Qed.

Lemma descriptor_layout_witness :
  py_dirname ("/r/A_1" ++ "/" ++ "A_1_0" ++ "/" ++ "hmmbuild.model.1") =
    ("/r/A_1" ++ "/" ++ "A_1_0")%string /\
  index_of (py_dirname ("/r/A_1" ++ "/" ++ "A_1_0" ++ "/" ++ "hmmbuild.model.1")) =
    "A_1_0" /\
  subalignment_path_of
    (py_dirname ("/r/A_1" ++ "/" ++ "A_1_0" ++ "/" ++ "hmmbuild.model.1")) =
    path_join "/r/A_1" "subset.aln.fasta" /\
  subalignment_path_of (py_dirname ("/" ++ "A_1_0" ++ "/" ++ "hmmbuild.model.1")) =
    "subset.aln.fasta" /\
  ("/r/A_1" <> EmptyString -> ends_with_slash "/r/A_1" = false ->
   subalignment_path_of
     (py_dirname ("/r/A_1" ++ "/" ++ "A_1_0" ++ "/" ++ "hmmbuild.model.1")) =
     ("/r/A_1" ++ "/subset.aln.fasta")%string).
Proof.
  apply (descriptor_layout "/r/A_1" "A_1_0" "hmmbuild.model.1").
  - unfold slash_free. simpl. intuition discriminate.
  - discriminate.
  - unfold slash_free. simpl. intuition discriminate.
Defined.

Lemma py_dirname_parent (d f : string) :
  d <> EmptyString -> ends_with_slash d = false -> slash_free f ->
  py_dirname (d ++ "/" ++ f) = d.
Proof.
  unfold slash_free, py_dirname, ends_with_slash. intros Hd He Hf.
  rewrite list_ascii_of_string_app. cbn [list_ascii_of_string append app].
  rewrite rev_app_distr. cbn [rev]. rewrite <- app_assoc. cbn [app].
  rewrite from_first_slash_app by (now rewrite <- in_rev).
  cbn [rstrip_slash]. rewrite Ascii.eqb_refl.
  destruct (rev (list_ascii_of_string d)) as [|c l] eqn:R.
  - exfalso. apply Hd. apply (f_equal (@rev ascii)) in R.
    rewrite rev_involutive in R. simpl in R.
    destruct d; [reflexivity | discriminate].
  - cbn [rstrip_slash]. rewrite He.
    change (rev l ++ [c]) with (rev (c :: l)).
    rewrite <- R, rev_involutive. apply string_of_list_ascii_of_string.
Qed.

Lemma py_dirname_slash_free (name : string) :
  slash_free name -> py_dirname name = EmptyString.
Proof.
  unfold slash_free, py_dirname. intros Hn.
  assert (E : from_first_slash (rev (list_ascii_of_string name)) = []).
  { rewrite in_rev in Hn. induction (rev (list_ascii_of_string name)) as [|c l IH];
      [reflexivity|]. simpl.
    destruct (Ascii.eqb_spec c "/"%char) as [->|_]; [exfalso; apply Hn; now left|].
    apply IH. intros I. apply Hn. now right. }
  rewrite E. reflexivity.
Qed.

Lemma ends_with_slash_app (dir name : string) :
  slash_free name -> name <> EmptyString ->
  ends_with_slash (dir ++ "/" ++ name) = false.
Proof.
  unfold slash_free, ends_with_slash. intros Hn Hne.
  rewrite list_ascii_of_string_app. cbn [list_ascii_of_string append app].
  rewrite rev_app_distr. cbn [rev]. rewrite <- app_assoc.
  rewrite in_rev in Hn.
  destruct (rev (list_ascii_of_string name)) as [|c l] eqn:R.
  - exfalso. apply Hne. apply (f_equal (@rev ascii)) in R.
    rewrite rev_involutive in R. simpl in R.
    destruct name; [reflexivity | discriminate].
  - simpl. destruct (Ascii.eqb_spec c "/"%char) as [->|_]; [|reflexivity].
    exfalso. apply Hn. now left.
Qed.

Lemma ends_with_slash_free (name : string) :
  slash_free name -> ends_with_slash name = false.
Proof.
  unfold slash_free, ends_with_slash. intros Hn. rewrite in_rev in Hn.
  destruct (rev (list_ascii_of_string name)) as [|c l]; [reflexivity|].
  destruct (Ascii.eqb_spec c "/"%char) as [->|_]; [|reflexivity].
  exfalso. apply Hn. now left.
Qed.

Lemma subalignment_path_of_child (dir name : string) :
  slash_free name ->
  subalignment_path_of (dir ++ "/" ++ name) = path_join dir "subset.aln.fasta".
Proof.
  intros Hn. unfold subalignment_path_of, drop_last.
  change (dir ++ "/" ++ name)%string with (dir ++ String "/"%char name)%string.
  rewrite split_on_app, (split_on_free _ name) by assumption.
  rewrite removelast_last.
  change "/"%string with (String "/"%char EmptyString).
  now rewrite join_split_on.
Qed.

(** For a descriptor below a named parent, the path that the code
    checks is the sibling one directory level up. *)
Lemma checked_path_is_sibling (path : string) :
  below_named_parent path ->
  subalignment_path_of (py_dirname path) = sibling_one_level_up path.
Proof.
  intros (name & file & Hn & Hne & Hf & [-> | (dir & Hd & He & ->)]);
    unfold sibling_one_level_up.
  - rewrite (py_dirname_parent name file Hne (ends_with_slash_free name Hn) Hf).
    rewrite py_dirname_slash_free by assumption.
    unfold subalignment_path_of. rewrite split_on_free by assumption.
    reflexivity.
  - rewrite py_dirname_of by assumption.
    rewrite subalignment_path_of_child by assumption.
    now rewrite py_dirname_parent.
Qed.




Lemma In_lstrip (c : ascii) (l : list ascii) :
  is_int_space c = false -> In c l -> In c (lstrip l).
Proof.
  intros Hc. induction l as [|x l IH]; simpl; [auto|].
  destruct (is_int_space x) eqn:E; [|auto].
  intros [->|I]; [congruence | auto].
Qed.

Lemma In_strip (c : ascii) (l : list ascii) :
  is_int_space c = false -> In c l -> In c (strip l).
Proof.
  intros Hc I. unfold strip. rewrite <- in_rev. apply In_lstrip; [assumption|].
  rewrite <- in_rev. now apply In_lstrip.
Qed.

Lemma int_digits_rejects (c : ascii) (ds : list ascii) :
  In c ds -> digit_of c = None -> c <> "_"%char ->
  forall acc b, int_digits acc b ds = None.
Proof.
  intros I Hd Hu. induction ds as [|x ds IH]; [contradiction|].
  intros acc b. simpl. destruct I as [->|I].
  - rewrite Hd. destruct (Ascii.eqb_spec c "_"%char); [contradiction | reflexivity].
  - destruct (digit_of x); [auto|].
    destruct (Ascii.eqb x "_"%char && b); auto.
Qed.

(** [int] accepts no text with a character other than white space, a
    sign, a digit or an underscore. *)
Lemma py_int_rejects (c : ascii) (s : string) :
  In c (list_ascii_of_string s) ->
  is_int_space c = false -> digit_of c = None ->
  c <> "_"%char -> c <> "-"%char -> c <> "+"%char ->
  py_int s = None.
Proof.
  intros I Hs Hd Hu Hm Hp. unfold py_int.
  apply (In_strip c _ Hs) in I.
  destruct (strip (list_ascii_of_string s)) as [|x ds]; [contradiction|].
  pose proof (int_digits_rejects c (x :: ds) I Hd Hu 0 false) as R.
  assert (R' : x <> c -> int_digits 0 false ds = None).
  { intros N. apply (int_digits_rejects c); try assumption.
    destruct I as [E|I]; [contradiction | assumption]. }
  destruct (Ascii.eqb_spec x "-"%char) as [->|Nm].
  { rewrite R' by congruence. reflexivity. }
  destruct (Ascii.eqb_spec x "+"%char) as [->|Np].
  { rewrite R' by congruence. reflexivity. }
  destruct x as [[] [] [] [] [] [] [] []]; try exact R; congruence.
Qed.

(** An NSEQ line with more than one token after the key is not
    accepted: the tokens are joined by commas before [int] reads them,
    and the descriptor ends in a value error. *)
Theorem read_num_seq_several_values (w : World) (path : string)
  (before after : list (list string)) (v1 v2 : string) (vs : list string) :
  split_lines w path = before ++ ("NSEQ" :: v1 :: v2 :: vs) :: after ->
  (forall x, In x (before ++ after) -> x <> []) ->
  (forall vs', ~ In ("NSEQ" :: vs') after) ->
  read_num_seq w path = Raise ValueError.
Proof.
  intros E Hnb Hlast.
  rewrite (read_num_seq_last w path before after (v1 :: v2 :: vs) E Hnb Hlast).
  unfold int_of. rewrite (py_int_rejects ","%char); try reflexivity;
    try discriminate.
  cbn [join]. rewrite list_ascii_of_string_app. apply in_or_app. right.
  simpl. now left.
Qed.

Lemma read_num_seq_several_values_witness :
  read_num_seq Sample.annotated_nseq "/r/A_1/A_1_0/hmmbuild.model.1" =
  Raise ValueError.
Proof.
  apply (read_num_seq_several_values Sample.annotated_nseq
           "/r/A_1/A_1_0/hmmbuild.model.1"
           [["NAME"; "subset"]] [["LENG"; "120"]] "50" "sequences" []).
  - vm_compute. reflexivity.
  - intros x Hx. simpl in Hx. destruct Hx as [<-|[<-|[]]]; discriminate.
  - intros vs' [H|[]]. discriminate.
Defined.

(* ================================================================= *)
(** * The configuration script *)

(** ** The check of the configured binaries *)

Lemma processExecutableOutput_runs (h : Host) (section item binpath : string) :
  processExecutableOutput h section item binpath = if runs h binpath then 0 else 1.
Proof.
  unfold processExecutableOutput, runs.
  destruct ((ran_returncode (executeBinary h binpath) =? 0)
            || (ran_returncode (executeBinary h binpath) =? 1));
    destruct (contains "v0.000" (ran_stderr (executeBinary h binpath)));
    reflexivity.
Qed.

Lemma check_items_fold (h : Host) (section : string) (items : list (string * string)) :
  forall st,
    fold_left (check_item h section) items st =
    (fst st + Z.of_nat (List.length
                          (filter (fun v => negb (runs h v)) (path_values items))),
     snd st ++ path_values items).
Proof.
  unfold path_values.
  induction items as [|[k v] items IH]; intros [n ex]; simpl.
  - now rewrite Z.add_0_r, app_nil_r.
  - destruct (contains "path" k); simpl; [|apply IH].
    rewrite IH. simpl. rewrite processExecutableOutput_runs, <- app_assoc.
    destruct (runs h v); simpl; f_equal; lia.
Qed.

Lemma exit_status_zero (n : nat) : exit_status (Z.of_nat n) = 0 <-> n = 0%nat.
Proof.
  unfold exit_status. destruct (Z.gtb_spec (Z.of_nat n) 0); split; intros; lia.
Qed.

(** With both sections present, the check runs the value of every
    item whose key contains [path], those of [Basic] first, and no
    other value; it counts the binaries that did not run, and the
    script exits with status 0 exactly when all of them ran, with
    status 1 otherwise. *)
Theorem check_executables_counts (h : Host) (configs : config)
  (basic magus : list (string * string)) :
  dict_get string_dec "Basic" configs = Some basic ->
  dict_get string_dec "MAGUS" configs = Some magus ->
  exists num_err,
    check_executables h configs =
      Done (num_err, path_values basic ++ path_values magus) /\
    num_err =
      Z.of_nat (List.length (filter (fun v => negb (runs h v))
                               (path_values basic ++ path_values magus))) /\
    (exit_status num_err = 0 <->
     forall v, In v (path_values basic ++ path_values magus) -> runs h v = true) /\
    (exit_status num_err = 0 \/ exit_status num_err = 1).
Proof.
  intros Hb Hm. eexists. split; [|split; [reflexivity|split]].
  - unfold check_executables. simpl. rewrite Hb. simpl. rewrite Hm.
    rewrite !check_items_fold. simpl.
    rewrite filter_app, length_app, Nat2Z.inj_add. reflexivity.
  - rewrite exit_status_zero. split.
    + intros E v Hv. destruct (runs h v) eqn:R; [reflexivity|].
      assert (I : In v (filter (fun v => negb (runs h v))
                          (path_values basic ++ path_values magus)))
        by (apply filter_In; split; [assumption | now rewrite R]).
      apply length_zero_iff_nil in E. rewrite E in I. contradiction.
    + intros H. apply length_zero_iff_nil.
      destruct (filter _ _) as [|v l] eqn:F; [reflexivity|].
      assert (I : In v (v :: l)) by now left.
      rewrite <- F in I. apply filter_In in I as [I R].
      rewrite (H v I) in R. discriminate.
  - unfold exit_status. destruct (_ >? 0); auto.
Qed.

Lemma check_executables_counts_witness :
  exists num_err,
    check_executables SampleHost.linux SampleHost.checked =
      Done (num_err,
            path_values [("mafftpath", "/usr/bin/mafft"); ("num_cpus", "4");
                         ("mclpath", "/opt/mcl")] ++
            path_values [("mafftpath", "/usr/bin/mafft")]) /\
    num_err =
      Z.of_nat (List.length
        (filter (fun v => negb (runs SampleHost.linux v))
           (path_values [("mafftpath", "/usr/bin/mafft"); ("num_cpus", "4");
                         ("mclpath", "/opt/mcl")] ++
            path_values [("mafftpath", "/usr/bin/mafft")]))) /\
    (exit_status num_err = 0 <->
     forall v,
       In v (path_values [("mafftpath", "/usr/bin/mafft"); ("num_cpus", "4");
                          ("mclpath", "/opt/mcl")] ++
             path_values [("mafftpath", "/usr/bin/mafft")]) ->
       runs SampleHost.linux v = true) /\
    (exit_status num_err = 0 \/ exit_status num_err = 1).
Proof.
  apply (check_executables_counts SampleHost.linux SampleHost.checked);
    reflexivity.
Defined.

(* ----------------------------------------------------------------- *)
(** ** The parser and its writes *)

Lemma and_then_done_inv {A B : Type} (r : outcome A) (k : A -> outcome B) (b : B) :
  and_then r k = Done b -> exists a, r = Done a /\ k a = Done b.
Proof.
  destruct r as [a|e]; simpl; intros H; [eauto | discriminate].
Qed.

Lemma each_app {S A : Type} (body : S -> A -> outcome S) (l1 l2 : list A) (s : S) :
  each body (l1 ++ l2) s = and_then (each body l1 s) (each body l2).
Proof.
  revert s; induction l1 as [|x l1 IH]; intros s; simpl; [reflexivity|].
  destruct (body s x); simpl; auto.
Qed.

Lemma each_flat_writes {A : Type} (h : Host) (f : A -> list cfg_write)
  (body : config -> A -> outcome config) (l : list A) :
  (forall c x, body c x = apply_writes h (f x) c) ->
  forall c, each body l c = apply_writes h (flat_map f l) c.
Proof.
  intros E. induction l as [|x l IH]; intros c; simpl; [reflexivity|].
  unfold apply_writes in *. rewrite each_app, E.
  destruct (each _ (f x) c); simpl; auto.
Qed.

Lemma rejected_accepted (h : Host) (v : string) :
  accepted h v ->
  match v with
  | EmptyString => false
  | _ => negb (before_set h v)
  end = false.
Proof.
  intros [->|H]; [reflexivity|]. destruct v; [reflexivity|]. now rewrite H.
Qed.

Lemma dict_get_Some_keys {K V : Type}
  (K_eq_dec : forall x y : K, {x = y} + {x <> y}) (k : K) (d : list (K * V)) :
  In k (dict_keys d) <-> exists v, dict_get K_eq_dec k d = Some v.
Proof.
  split.
  - intros I. destruct (dict_get K_eq_dec k d) eqn:G; [eauto|].
    apply dict_get_None in G. contradiction.
  - intros [v G]. apply dict_get_In in G. unfold dict_keys.
    change k with (fst (k, v)). now apply in_map.
Qed.

(** A [set] that returns has stored the value, and nothing else
    changed. *)
Lemma cfg_set_done (h : Host) (s k v : string) (c c' : config) :
  cfg_set h s k v c = Done c' ->
  In s (dict_keys c) /\ dict_keys c' = dict_keys c /\
  forall s' k',
    cfg_get c' s' k' =
    if string_dec s s' then
      if string_dec k k' then Some v else cfg_get c s' k'
    else cfg_get c s' k'.
Proof.
  unfold cfg_set.
  destruct (match v with EmptyString => false | _ => negb (before_set h v) end);
    [discriminate|].
  destruct (dict_get string_dec s c) as [d|] eqn:G; [|discriminate].
  intros H. injection H as <-.
  assert (I : In s (dict_keys c))
    by (apply (dict_get_Some_keys string_dec); eauto).
  split; [assumption|]. split.
  - rewrite dict_keys_set. now destruct (in_dec string_dec s (dict_keys c)).
  - intros s' k'. unfold cfg_get.
    destruct (string_dec s s') as [<-|N].
    + rewrite dict_get_set_same, G.
      destruct (string_dec k k') as [<-|N'].
      * apply dict_get_set_same.
      * apply dict_get_set_other. congruence.
    + rewrite dict_get_set_other by congruence. reflexivity.
Qed.

Lemma cfg_set_cases (h : Host) (s k v : string) (c : config) :
  accepted h v ->
  (In s (dict_keys c) /\ exists c', cfg_set h s k v c = Done c') \/
  (~ In s (dict_keys c) /\ cfg_set h s k v c = Failed NoSectionError).
Proof.
  intros A. unfold cfg_set. rewrite (rejected_accepted h v A).
  destruct (dict_get string_dec s c) as [d|] eqn:G.
  - left. split; [apply (dict_get_Some_keys string_dec); eauto | eauto].
  - right. split; [now apply dict_get_None in G | reflexivity].
Qed.

Lemma last_write_app (s k : string) (ws1 ws2 : list cfg_write) :
  last_write s k (ws1 ++ ws2) =
  match last_write s k ws2 with
  | Some v => Some v
  | None => last_write s k ws1
  end.
Proof.
  induction ws1 as [|[[s1 k1] v1] ws1 IH]; simpl.
  - now destruct (last_write s k ws2).
  - rewrite IH. now destruct (last_write s k ws2).
Qed.

(** After a list of writes, an option holds the value of the last
    write to it, or what it held before. *)
Lemma apply_writes_done (h : Host) (ws : list cfg_write) :
  forall c c',
    apply_writes h ws c = Done c' ->
    dict_keys c' = dict_keys c /\
    forall s k,
      cfg_get c' s k =
      match last_write s k ws with
      | Some v => Some v
      | None => cfg_get c s k
      end.
Proof.
  unfold apply_writes.
  induction ws as [|[[s1 k1] v1] ws IH]; intros c c' H.
  - simpl in H. injection H as <-. auto.
  - cbn [each] in H. apply and_then_done_inv in H as (c1 & H1 & H2).
    apply cfg_set_done in H1 as (_ & K1 & G1).
    destruct (IH _ _ H2) as (K2 & G2).
    split; [congruence|]. intros s k. rewrite G2, G1. simpl.
    destruct (last_write s k ws); [reflexivity|].
    destruct (string_dec s1 s); [|reflexivity].
    now destruct (string_dec k1 k).
Qed.

Lemma apply_writes_total (h : Host) (ws : list cfg_write) :
  forall c,
    (forall s k v, In (s, k, v) ws -> In s (dict_keys c) /\ accepted h v) ->
    exists c', apply_writes h ws c = Done c'.
Proof.
  unfold apply_writes.
  induction ws as [|[[s1 k1] v1] ws IH]; intros c H; simpl; [eauto|].
  destruct (H s1 k1 v1 (or_introl eq_refl)) as [I A].
  destruct (cfg_set_cases h s1 k1 v1 c A) as [[_ [c1 E]]|[N _]]; [|contradiction].
  rewrite E. simpl. apply IH. intros s k v Hin.
  destruct (cfg_set_done _ _ _ _ _ _ E) as (_ & K & _). rewrite K.
  apply (H s k v). now right.
Qed.

(** A write to a section that does not exist stops the writes with
    [NoSectionError], when no value is rejected. *)
Lemma apply_writes_missing (h : Host) (ws : list cfg_write) :
  forall c,
    (forall s k v, In (s, k, v) ws -> accepted h v) ->
    (exists s k v, In (s, k, v) ws /\ ~ In s (dict_keys c)) ->
    apply_writes h ws c = Failed NoSectionError.
Proof.
  unfold apply_writes.
  induction ws as [|[[s1 k1] v1] ws IH]; intros c A (s & k & v & I & N);
    [contradiction|].
  simpl.
  destruct (cfg_set_cases h s1 k1 v1 c (A _ _ _ (or_introl eq_refl)))
    as [[I1 [c1 E]]|[_ E]]; rewrite E; simpl; [|reflexivity].
  apply IH; [intros; eapply A; right; eassumption|].
  destruct (cfg_set_done _ _ _ _ _ _ E) as (_ & K & _). rewrite K.
  destruct I as [E'|I]; [injection E' as -> -> ->; contradiction|].
  exists s, k, v. auto.
Qed.

Lemma last_write_none (s k : string) (ws : list cfg_write) :
  (forall v, ~ In (s, k, v) ws) -> last_write s k ws = None.
Proof.
  induction ws as [|[[s1 k1] v1] ws IH]; intros H; simpl; [reflexivity|].
  rewrite IH by (intros v I; apply (H v); now right).
  destruct (string_dec s1 s) as [->|]; [|reflexivity].
  destruct (string_dec k1 k) as [->|]; [|reflexivity].
  exfalso. apply (H v1). now left.
Qed.

Lemma last_write_In (s k v : string) (ws : list cfg_write) :
  last_write s k ws = Some v -> In (s, k, v) ws.
Proof.
  induction ws as [|[[s1 k1] v1] ws IH]; simpl; [discriminate|].
  destruct (last_write s k ws) as [v'|].
  - intros H. injection H as ->. right. now apply IH.
  - destruct (string_dec s1 s) as [->|]; [|discriminate].
    destruct (string_dec k1 k) as [->|]; [|discriminate].
    intros H. injection H as ->. now left.
Qed.

Lemma last_write_None_In (s k : string) (ws : list cfg_write) :
  last_write s k ws = None -> forall v, ~ In (s, k, v) ws.
Proof.
  induction ws as [|[[s1 k1] v1] ws IH]; simpl; intros H v; [tauto|].
  destruct (last_write s k ws) as [v'|]; [discriminate|].
  intros [E|I]; [|now apply (IH eq_refl v)].
  injection E as -> -> ->.
  destruct (string_dec s s); [|congruence].
  destruct (string_dec k k); [discriminate | congruence].
Qed.

(** When every write to an option carries the same value, that value
    is the last one written. *)
Lemma last_write_only (s k v : string) (ws : list cfg_write) :
  In (s, k, v) ws -> (forall v', In (s, k, v') ws -> v' = v) ->
  last_write s k ws = Some v.
Proof.
  intros I H. destruct (last_write s k ws) as [v'|] eqn:L.
  - apply last_write_In in L. now rewrite (H v' L).
  - exfalso. exact (last_write_None_In s k ws L v I).
Qed.

(* ----------------------------------------------------------------- *)
(** ** [setup] *)

Lemma bundled_writes_listed (root_dir : string) :
  bundled_writes root_dir =
  let tools := os_join_all root_dir ["tools"; "magus"; "tools"] in
  flat_map
    (fun s =>
       [ (s, "mafftpath", os_join_all tools ["mafft"; "mafft"]);
         (s, "mclpath", os_join_all tools ["mcl"; "bin"; "mcl"]);
         (s, "fasttreepath", os_join_all tools ["fasttree"; "FastTreeMP"]);
         (s, "hmmsearchpath", os_join_all tools ["hmmer"; "hmmsearch"]);
         (s, "hmmalignpath", os_join_all tools ["hmmer"; "hmmalign"]);
         (s, "hmmbuildpath", os_join_all tools ["hmmer"; "hmmbuild"]) ])
    set_sections.
Proof.
  reflexivity.
Qed.

(** The two loops of the branch for Linux perform the bundled
    writes. *)
Lemma bundled_tools_writes (h : Host) (root_dir : string) (c : config) :
  bundled_tools h root_dir c = apply_writes h (bundled_writes root_dir) c.
Proof.
  rewrite bundled_writes_listed. cbv zeta. unfold bundled_tools. cbv zeta.
  apply each_flat_writes. intros c0 s. unfold apply_writes.
  cbn [each and_then append].
  repeat match goal with
         | |- context [cfg_set h ?s ?k ?v ?c] =>
             destruct (cfg_set h s k v c); cbn [and_then each]; try reflexivity
         end.
Qed.

Lemma user_tools_writes (h : Host) (c : config) :
  user_tools h c = apply_writes h (user_writes h) c.
Proof.
  unfold user_tools, user_writes. apply each_flat_writes. intros c0 soft.
  apply each_flat_writes. intros c1 s. unfold apply_writes, tool_option.
  destruct (found h soft) as [p|]; [|reflexivity]. cbn [each and_then].
  destruct (string_dec soft "FastTreeMP");
    match goal with
    | |- context [cfg_set h ?s ?k ?v ?c] => destruct (cfg_set h s k v c)
    end; reflexivity.
Qed.

Lemma dict_get_app_last {V : Type} (s : string) (d : V) (c : list (string * V)) :
  ~ In s (dict_keys c) -> dict_get string_dec s (c ++ [(s, d)]) = Some d.
Proof.
  unfold dict_keys. induction c as [|[s' d'] c IH]; simpl; intros N.
  - destruct (string_dec s s); congruence.
  - destruct (string_dec s s') as [->|_]; [tauto | apply IH; tauto].
Qed.

Lemma dict_set_app_last {V : Type} (s : string) (d d' : V) (c : list (string * V)) :
  ~ In s (dict_keys c) ->
  dict_set string_dec s d' (c ++ [(s, d)]) = c ++ [(s, d')].
Proof.
  unfold dict_keys. induction c as [|[s' d0] c IH]; simpl; intros N.
  - destruct (string_dec s s); congruence.
  - destruct (string_dec s s') as [->|_]; [tauto|]. rewrite IH by tauto.
    reflexivity.
Qed.

Lemma copy_items (h : Host) (s : string) (c : config)
  (items : list (string * string)) :
  ~ In s (dict_keys c) ->
  (forall k v, In (k, v) items -> accepted h v) ->
  forall d,
    each (fun c (kv : string * string) => cfg_set h s (fst kv) (snd kv) c)
      items (c ++ [(s, d)]) =
    Done (c ++ [(s, fold_left (dict_write string_dec) items d)]).
Proof.
  intros N. induction items as [|[k v] items IH]; intros A d; simpl;
    [reflexivity|].
  unfold cfg_set at 1. rewrite (rejected_accepted h v (A k v (or_introl eq_refl))).
  rewrite dict_get_app_last, dict_set_app_last by assumption. simpl.
  apply IH. intros k' v' I. apply (A k' v'). now right.
Qed.

(** The copy of a default configuration with distinct sections, none
    of them [DEFAULT], and accepted values gives every section the
    dictionary of its items. *)
Lemma copy_default_copied (h : Host) (default_config : config) :
  NoDup (dict_keys default_config) ->
  ~ In "DEFAULT" (dict_keys default_config) ->
  (forall s items k v, In (s, items) default_config -> In (k, v) items ->
                       accepted h v) ->
  copy_default h default_config = Done (copied default_config).
Proof.
  unfold copy_default, copied.
  assert (G : forall c0,
    NoDup (dict_keys c0 ++ dict_keys default_config) ->
    ~ In "DEFAULT" (dict_keys default_config) ->
    (forall s items k v, In (s, items) default_config -> In (k, v) items ->
                         accepted h v) ->
    each
      (fun c (entry : string * list (string * string)) =>
         let '(section, items) := entry in
         and_then (cfg_add_section section c)
           (each (fun c (kv : string * string) =>
                    cfg_set h section (fst kv) (snd kv) c) items))
      default_config c0 =
    Done (c0 ++ map (fun entry => (fst entry, dict_of_items string_dec (snd entry)))
                  default_config)).
  { induction default_config as [|[s items] rest IH]; intros c0 ND NDef A.
    - simpl. now rewrite app_nil_r.
    - cbn [each map fst snd]. unfold cfg_add_section.
      destruct (string_dec s "DEFAULT") as [->|_];
        [exfalso; apply NDef; now left|].
      assert (Ns : ~ In s (dict_keys c0)).
      { unfold dict_keys in *. simpl in ND. apply NoDup_remove_2 in ND.
        intros I. apply ND. apply in_or_app. now left. }
      rewrite (proj2 (dict_get_None string_dec s c0) Ns). cbn [and_then].
      rewrite (copy_items h s c0 items Ns)
        by (intros k v I; apply (A s items k v); [now left | assumption]).
      cbn [and_then]. rewrite IH.
      + now rewrite <- app_assoc.
      + unfold dict_keys in *. rewrite map_app, <- app_assoc. exact ND.
      + intros I. apply NDef. now right.
      + intros s' items' k v I. apply (A s' items' k v). now right. }
  intros ND NDef A. now rewrite (G [] ND NDef A).
Qed.

Lemma tool_option_inj (a b : string) :
  In a software -> In b software -> tool_option a = tool_option b -> a = b.
Proof.
  unfold software. simpl.
  intros [<-|[<-|[<-|[<-|[<-|[<-|[]]]]]]] [<-|[<-|[<-|[<-|[<-|[<-|[]]]]]]] E;
    try reflexivity; vm_compute in E; discriminate.
Qed.

Lemma apply_writes_app (h : Host) (ws1 ws2 : list cfg_write) (c : config) :
  apply_writes h (ws1 ++ ws2) c =
  and_then (apply_writes h ws1 c) (apply_writes h ws2).
Proof.
  unfold apply_writes. apply each_app.
Qed.

Lemma In_bundled_writes (root_dir s k v : string) :
  In (s, k, v) (bundled_writes root_dir) <->
  In s set_sections /\
  exists soft, In soft software /\ k = tool_option soft /\
               v = bundled_path root_dir soft.
Proof.
  unfold bundled_writes. rewrite in_flat_map. split.
  - intros (s0 & Hs & I). apply in_map_iff in I as (soft & E & Hsoft).
    injection E as <- <- <-. split; [assumption|]. exists soft.
    split; [|auto]. unfold software. simpl in *. tauto.
  - intros (Hs & soft & Hsoft & -> & ->). exists s. split; [assumption|].
    apply in_map_iff. exists soft. split; [reflexivity|].
    unfold software in Hsoft. simpl in *. tauto.
Qed.

Lemma In_user_writes (h : Host) (s k v : string) :
  In (s, k, v) (user_writes h) <->
  In s set_sections /\
  exists soft, In soft software /\ k = tool_option soft /\ found h soft = Some v.
Proof.
  unfold user_writes. rewrite in_flat_map. split.
  - intros (soft & Hsoft & I). apply in_flat_map in I as (s0 & Hs & I).
    destruct (found h soft) as [p|] eqn:F; [|contradiction].
    destruct I as [E|[]]. injection E as <- <- <-. eauto 6.
  - intros (Hs & soft & Hsoft & -> & F). exists soft. split; [assumption|].
    apply in_flat_map. exists s. split; [assumption|]. rewrite F. now left.
Qed.

Lemma found_which (h : Host) (soft p : string) :
  found h soft = Some p -> which h soft = Some p.
Proof.
  unfold found. destruct (which h soft) as [[|c q]|]; congruence.
Qed.

Lemma last_write_bundled (root_dir s soft : string) :
  In s set_sections -> In soft software ->
  last_write s (tool_option soft) (bundled_writes root_dir) =
  Some (bundled_path root_dir soft).
Proof.
  intros Hs Hsoft. apply last_write_only.
  - apply In_bundled_writes. eauto.
  - intros v' I. apply In_bundled_writes in I as (_ & soft' & Hs' & E & ->).
    now rewrite (tool_option_inj soft soft' Hsoft Hs' E).
Qed.

Lemma last_write_user (h : Host) (s soft : string) :
  In s set_sections -> In soft software ->
  last_write s (tool_option soft) (user_writes h) = found h soft.
Proof.
  intros Hs Hsoft. destruct (found h soft) as [p|] eqn:F.
  - apply last_write_only.
    + apply In_user_writes. eauto 6.
    + intros v' I. apply In_user_writes in I as (_ & soft' & Hs' & E & F').
      rewrite <- (tool_option_inj soft soft' Hsoft Hs' E) in F'. congruence.
  - apply last_write_none. intros v I.
    apply In_user_writes in I as (_ & soft' & Hs' & E & F').
    rewrite <- (tool_option_inj soft soft' Hsoft Hs' E) in F'. congruence.
Qed.

(** On a platform other than macOS, with a default configuration that
    has the sections [Basic] and [MAGUS] and no [main.config] yet,
    [setup] writes what it returns; in both sections each of the six
    tools has the path of the user's own binary when those are
    preferred and [shutil.which] finds one, and the path of the
    bundled binary otherwise; every other option keeps its value of
    the default configuration. *)
Theorem setup_tool_paths (h : Host) (root_dir : string) (prioritize : bool)
  (platform : string) (default_config : config) :
  host_exists h (os_join root_dir "default.config") = true ->
  host_exists h (os_join root_dir "main.config") = false ->
  read_file h (os_join root_dir "default.config") = Done default_config ->
  NoDup (dict_keys default_config) ->
  ~ In "DEFAULT" (dict_keys default_config) ->
  In "Basic" (dict_keys default_config) ->
  In "MAGUS" (dict_keys default_config) ->
  contains "macOS" platform = false ->
  (forall s items k v, In (s, items) default_config -> In (k, v) items ->
                       accepted h v) ->
  (forall soft, In soft software -> accepted h (bundled_path root_dir soft)) ->
  (forall soft p, which h soft = Some p -> accepted h p) ->
  exists c,
    setup h root_dir prioritize platform = Done (c, Some c) /\
    dict_keys c = dict_keys default_config /\
    (forall s soft, In s set_sections -> In soft software ->
       cfg_get c s (tool_option soft) =
       Some (match (if prioritize then found h soft else None) with
             | Some p => p
             | None => bundled_path root_dir soft
             end)) /\
    (forall s k, ~ (In s set_sections /\ In k (map tool_option software)) ->
       cfg_get c s k = cfg_get (copied default_config) s k).
Proof.
  intros Hd Hm Hr ND NDef HB HM Hp Adef Abun Auser.
  set (ws2 := if prioritize then user_writes h else []).
  assert (Keys : dict_keys (copied default_config) = dict_keys default_config).
  { unfold copied, dict_keys. rewrite map_map. reflexivity. }
  assert (Sections : forall s, In s set_sections -> In s (dict_keys default_config)).
  { intros s [<-|[<-|[]]]; assumption. }
  destruct (apply_writes_total h (bundled_writes root_dir ++ ws2)
              (copied default_config)) as [c Hc].
  { intros s k v I. rewrite Keys. apply in_app_or in I as [I|I].
    - apply In_bundled_writes in I as (Hs & soft & Hsoft & _ & ->). auto.
    - unfold ws2 in I. destruct prioritize; [|contradiction].
      apply In_user_writes in I as (Hs & soft & _ & _ & F).
      split; [auto|]. eapply Auser, found_which, F. }
  exists c.
  pose proof (apply_writes_done h _ _ _ Hc) as (K & G).
  rewrite apply_writes_app in Hc.
  apply and_then_done_inv in Hc as (c1 & Hc1 & Hc2).
  split; [|split; [congruence|split]].
  - unfold setup. rewrite Hd, Hm, Hr. cbn [negb and_then].
    rewrite (copy_default_copied h default_config ND NDef Adef).
    cbn [and_then]. rewrite Hp. cbn [negb].
    rewrite bundled_tools_writes, Hc1. cbn [and_then].
    unfold ws2 in Hc2. destruct prioritize.
    + rewrite user_tools_writes, Hc2. reflexivity.
    + unfold apply_writes in Hc2. simpl in Hc2. injection Hc2 as ->. reflexivity.
  - intros s soft Hs Hsoft. rewrite G, last_write_app.
    rewrite (last_write_bundled root_dir s soft Hs Hsoft).
    unfold ws2. destruct prioritize.
    + rewrite (last_write_user h s soft Hs Hsoft).
      now destruct (found h soft).
    + reflexivity.
  - intros s k N. rewrite G, last_write_app.
    rewrite (last_write_none s k (bundled_writes root_dir)).
    2:{ intros v I. apply In_bundled_writes in I as (Hs & soft & Hsoft & -> & _).
        apply N. split; [assumption | now apply in_map]. }
    rewrite (last_write_none s k ws2); [reflexivity|].
    intros v I. unfold ws2 in I. destruct prioritize; [|contradiction].
    apply In_user_writes in I as (Hs & soft & Hsoft & -> & _).
    apply N. split; [assumption | now apply in_map].
Qed.

Lemma setup_tool_paths_witness :
  exists c,
    setup SampleHost.linux "/salma" true "Linux-5.4-x86_64" = Done (c, Some c) /\
    dict_keys c = dict_keys SampleHost.default_config /\
    (forall s soft, In s set_sections -> In soft software ->
       cfg_get c s (tool_option soft) =
       Some (match (if true then found SampleHost.linux soft else None) with
             | Some p => p
             | None => bundled_path "/salma" soft
             end)) /\
    (forall s k, ~ (In s set_sections /\ In k (map tool_option software)) ->
       cfg_get c s k = cfg_get (copied SampleHost.default_config) s k).
Proof.
  apply (setup_tool_paths SampleHost.linux "/salma" true "Linux-5.4-x86_64"
           SampleHost.default_config).
  - reflexivity.
  - reflexivity.
  - reflexivity.
  - vm_compute. repeat constructor; simpl; intuition discriminate.
  - vm_compute. intuition discriminate.
  - vm_compute. auto.
  - vm_compute. auto.
  - reflexivity.
  - intros s items k v Hs Hk. right. simpl in Hs.
    destruct Hs as [E|[E|[E|[]]]]; injection E as <- <-; simpl in Hk;
      repeat (destruct Hk as [Hk|Hk]; [injection Hk as <- <-; reflexivity|]);
      contradiction.
  - intros soft Hs. right. simpl in Hs.
    repeat (destruct Hs as [<-|Hs]; [reflexivity|]). contradiction.
  - intros soft p H. right. simpl in H.
    destruct (String.eqb soft "mafft"); [|discriminate].
    injection H as <-. reflexivity.
Defined.

(** On a platform other than macOS, a default configuration without
    the section [Basic] or without the section [MAGUS] makes [setup]
    fail with [NoSectionError] at the first bundled path for the
    missing section; [main.config] is not written. *)
Theorem setup_missing_section (h : Host) (root_dir : string) (prioritize : bool)
  (platform : string) (default_config : config) :
  host_exists h (os_join root_dir "default.config") = true ->
  host_exists h (os_join root_dir "main.config") = false ->
  read_file h (os_join root_dir "default.config") = Done default_config ->
  NoDup (dict_keys default_config) ->
  ~ In "DEFAULT" (dict_keys default_config) ->
  contains "macOS" platform = false ->
  (forall s items k v, In (s, items) default_config -> In (k, v) items ->
                       accepted h v) ->
  (forall soft, In soft software -> accepted h (bundled_path root_dir soft)) ->
  ~ (In "Basic" (dict_keys default_config) /\
     In "MAGUS" (dict_keys default_config)) ->
  setup h root_dir prioritize platform = Failed NoSectionError.
Proof.
  intros Hd Hm Hr ND NDef Hp Adef Abun Miss.
  unfold setup. rewrite Hd, Hm, Hr. cbn [negb and_then].
  rewrite (copy_default_copied h default_config ND NDef Adef).
  cbn [and_then]. rewrite Hp. cbn [negb].
  rewrite bundled_tools_writes, apply_writes_missing; [reflexivity | |].
  - intros s k v I. apply In_bundled_writes in I as (_ & soft & Hs & _ & ->).
    auto.
  - assert (Keys : dict_keys (copied default_config) = dict_keys default_config).
    { unfold copied, dict_keys. rewrite map_map. reflexivity. }
    rewrite Keys.
    assert (Hmafft : In "mafft" software) by (simpl; auto).
    destruct (in_dec string_dec "Basic" (dict_keys default_config)) as [IB|NB].
    + exists "MAGUS", (tool_option "mafft"), (bundled_path root_dir "mafft").
      split; [|tauto]. apply In_bundled_writes.
      split; [simpl; auto | eauto].
    + exists "Basic", (tool_option "mafft"), (bundled_path root_dir "mafft").
      split; [|assumption]. apply In_bundled_writes.
      split; [simpl; auto | eauto].
Qed.

(** [setup] requires [default.config]; it never replaces a
    [main.config] that exists, which it reads and returns instead,
    whatever the platform and the preference; and when it writes
    [main.config], what it writes is the parser it returns. *)
Theorem setup_keeps_main_config (h : Host) (root_dir : string)
  (prioritize : bool) (platform : string) :
  (host_exists h (os_join root_dir "default.config") = false ->
   setup h root_dir prioritize platform = Failed SetupAssertionError) /\
  (host_exists h (os_join root_dir "default.config") = true ->
   host_exists h (os_join root_dir "main.config") = true ->
   setup h root_dir prioritize platform =
   and_then (read_file h (os_join root_dir "main.config"))
     (fun cparser => Done (cparser, None))) /\
  (forall c written,
     setup h root_dir prioritize platform = Done (c, written) ->
     (written = None /\
      host_exists h (os_join root_dir "main.config") = true /\
      read_file h (os_join root_dir "main.config") = Done c) \/
     (written = Some c /\
      host_exists h (os_join root_dir "main.config") = false)).
Proof.
  unfold setup. split; [|split].
  - intros ->. reflexivity.
  - intros -> ->. reflexivity.
  - intros c written.
    destruct (host_exists h (os_join root_dir "default.config")); cbn [negb];
      [|discriminate].
    destruct (host_exists h (os_join root_dir "main.config")).
    + intros H. apply and_then_done_inv in H as (c0 & Hr & H).
      injection H as <- <-. left. auto.
    + intros H.
      apply and_then_done_inv in H as (d & _ & H).
      apply and_then_done_inv in H as (c1 & _ & H).
      apply and_then_done_inv in H as (c2 & _ & H).
      apply and_then_done_inv in H as (c3 & _ & H).
      injection H as <- <-. right. auto.
Qed.

Lemma setup_missing_section_witness :
  setup SampleHost.no_magus "/salma" false "Linux-5.4-x86_64" =
  Failed NoSectionError.
Proof.
  apply (setup_missing_section SampleHost.no_magus "/salma" false
           "Linux-5.4-x86_64" [("Basic", [("mafftpath", "mafft")])]).
  - reflexivity.
  - reflexivity.
  - reflexivity.
  - vm_compute. repeat constructor; simpl; intuition discriminate.
  - vm_compute. intuition discriminate.
  - reflexivity.
  - intros s items k v Hs Hk. right. simpl in Hs.
    destruct Hs as [E|[]]. injection E as <- <-. simpl in Hk.
    destruct Hk as [Hk|[]]. injection Hk as <- <-. reflexivity.
  - intros soft Hs. right. simpl in Hs.
    repeat (destruct Hs as [<-|Hs]; [reflexivity|]). contradiction.
  - vm_compute. intuition discriminate.
Defined.

(* ================================================================= *)
(** * When the catalog builder returns *)

Lemma catalog_entry_returns (w : World) (path : string) (num_seq lines a h : Z) :
  path_exists w (subalignment_path_of (py_dirname path)) = true ->
  int_of (hd EmptyString
    (split_on " "%char
       (popen_read w ("wc -l " ++ subalignment_path_of (py_dirname path))))) =
    Ok lines ->
  parse_index (index_of (py_dirname path)) = Ok (a, h) ->
  catalog_entry w path num_seq =
  Ok ((a, lines / 2, h, num_seq),
      (index_of (py_dirname path), (py_dirname path, a, h, num_seq))).
Proof.
  intros He Hl Hp. unfold catalog_entry. cbv zeta.
  rewrite He. cbn [negb]. rewrite Hl. cbn [bind]. rewrite Hp. reflexivity.
Qed.

(** [obtainHMMs] returns exactly when every descriptor file to
    process has a header it can read an integer NSEQ from and, if the
    file passes the size filter, its subset alignment exists, the
    output of [wc -l] starts with an integer, and its directory name
    gives the two indices; in every other case it raises. *)
Theorem obtainHMMs_returns_iff (w : World) (indir : string) (lower upper : Z)
  (hmmbuild_paths : list string) :
  (exists hmm_indexes index_to_hmms,
     obtainHMMs w indir lower upper hmmbuild_paths =
       Ok (hmm_indexes, index_to_hmms)) <->
  (forall path, In path (effective_paths w indir hmmbuild_paths) ->
     exists num_seq,
       read_num_seq w path = Ok num_seq /\
       ((lower <= num_seq <= upper \/
         List.length (effective_paths w indir hmmbuild_paths) = 1%nat) ->
        path_exists w (subalignment_path_of (py_dirname path)) = true /\
        (exists lines,
           int_of (hd EmptyString
             (split_on " "%char
                (popen_read w
                   ("wc -l " ++ subalignment_path_of (py_dirname path))))) =
             Ok lines) /\
        (exists a h, parse_index (index_of (py_dirname path)) = Ok (a, h)))).
Proof.
  split.
  - intros (idx & m & H) path Hp.
    destruct (obtainHMMs_ok _ _ _ _ _ _ _ H) as (ds & Hds & _).
    destruct (Forall2_In_l _ _ _ _ Hds Hp) as (d & _ & Hstep).
    apply descriptor_step_ok in Hstep as (n & Hn & Hcase).
    exists n. split; [assumption|]. intros Hr.
    destruct d as [item|]; [|contradiction].
    destruct Hcase as [_ Hentry].
    apply catalog_entry_ok in Hentry as (He & lines & a & h & Hl & Hparse & _).
    eauto 7.
  - intros H. apply obtainHMMs_returns. intros p Hp.
    destruct (H p Hp) as (n & Hn & Hin). unfold descriptor_step.
    rewrite Hn. cbn [bind].
    destruct (in_range lower upper
                (List.length (effective_paths w indir hmmbuild_paths)) n) eqn:R;
      [|eauto].
    apply in_range_spec in R.
    destruct (Hin R) as (He & (lines & Hl) & (a & h & Hparse)).
    rewrite (catalog_entry_returns w p n lines a h He Hl Hparse).
    simpl. eauto.
Qed.

(** The count of lines is read from the output of [wc -l] up to its
    first space: when that output begins with a space, as it does
    where [wc] pads the count, an included descriptor ends in a value
    error and [obtainHMMs] raises. *)
Theorem obtainHMMs_padded_wc_output (w : World) (indir : string)
  (lower upper : Z) (hmmbuild_paths : list string)
  (path : string) (num_seq : Z) (rest : string) :
  In path (effective_paths w indir hmmbuild_paths) ->
  read_num_seq w path = Ok num_seq ->
  (lower <= num_seq <= upper \/
   List.length (effective_paths w indir hmmbuild_paths) = 1%nat) ->
  path_exists w (subalignment_path_of (py_dirname path)) = true ->
  popen_read w ("wc -l " ++ subalignment_path_of (py_dirname path)) =
    String " "%char rest ->
  catalog_entry w path num_seq = Raise ValueError /\
  exists e, obtainHMMs w indir lower upper hmmbuild_paths = Raise e.
Proof.
  intros Hp Hn Hr He Hwc.
  assert (C : catalog_entry w path num_seq = Raise ValueError).
  { unfold catalog_entry. cbv zeta. rewrite He, Hwc. reflexivity. }
  split; [exact C|].
  eapply obtainHMMs_raise with (e := ValueError); [exact Hp|].
  unfold descriptor_step. rewrite Hn. cbn [bind].
  apply in_range_spec in Hr. rewrite Hr, C. reflexivity.
Qed.

Lemma obtainHMMs_padded_wc_output_witness :
  catalog_entry Sample.padded_wc "/r/A_1/A_1_0/hmmbuild.model.1" 50 =
    Raise ValueError /\
  exists e, obtainHMMs Sample.padded_wc "/r" 20 100
              ["/r/A_1/A_1_0/hmmbuild.model.1"] = Raise e.
Proof.
  apply (obtainHMMs_padded_wc_output Sample.padded_wc "/r" 20 100
           ["/r/A_1/A_1_0/hmmbuild.model.1"] "/r/A_1/A_1_0/hmmbuild.model.1" 50
           (unlines ["    400 /r/A_1/subset.aln.fasta"])).
  - simpl. auto.
  - vm_compute. reflexivity.
  - left. lia.
  - vm_compute. reflexivity.
  - vm_compute. reflexivity.
Defined.
